(** * attention_visualizer: a shallow embedding and its verified properties

    The repository has two source files.

    - [export_attention.py] writes an attention data set (entity ids, display
      names, [L] layer tensors of shape [(B,H,N,N)], a bounds matrix of shape
      [(B,N)]) to the [attnbin_v1] binary layout, in full precision, in half
      precision, for a subset of the batches, or in chunks.
    - [attention_visualizer.py] embeds the same data, rounded to six
      decimals, into an HTML/SVG/JavaScript artifact; the script draws the
      threshold edges, maintains the click chain and serves the search box.

    Numbers.  A JavaScript number / NumPy float is modelled by [num]: an exact
    rational, or one of the IEEE special values [NaN], [+Infinity],
    [-Infinity].  Finite arithmetic is exact (no rounding, no overflow, no
    signed zero); the special values follow IEEE 754.  The float32 / float16
    casts of the exporter are kept abstract.

    Errors.  Python exceptions are values of [pyerror] in the [result] monad;
    a JavaScript [TypeError] (property access on [undefined]) is [None] in
    the option monad.

    Output.  A written file is modelled by its logical content (header
    fields, bounds block, layer blocks); [json.dumps], [struct.pack] and
    [ndarray.tobytes] themselves are not modelled.

    The page.  What the handlers of the script draw (highlight rectangles,
    chain segments, threshold lines and labels, red bars) is modelled by
    what it shows, in the record [Page.page] next to the slider values and
    the chain; the search dropdown by its items and their [kb-active]
    class, in [Dropdown.box].  Screen positions other than the layout
    constants, styles and the tooltip box are not modelled. *)

From Stdlib Require Import ZArith QArith Qabs Qround String Ascii DecimalString List Sorted Permutation Lia Lqa.
From stdpp Require Import base option list strings gmap.

Open Scope Z_scope.

(* ===================================================================== *)
(** * Part I: definitions                                                 *)
(* ===================================================================== *)

(** ** Numbers *)

Module JSNum.

Inductive num : Type :=
| NaN
| NegInf
| Fin (q : Q)
| PosInf.

Definition Qltb (p q : Q) : bool := negb (Qle_bool q p).

Definition is_finite (x : num) : bool :=
  match x with Fin _ => true | _ => false end.

(** [-x] *)
Definition neg (x : num) : num :=
  match x with
  | NaN => NaN
  | NegInf => PosInf
  | Fin q => Fin (- q)
  | PosInf => NegInf
  end.

(** [Math.abs(x)] / [abs(x)] *)
Definition abs (x : num) : num :=
  match x with
  | NaN => NaN
  | NegInf | PosInf => PosInf
  | Fin q => Fin (Qabs q)
  end.

(** [x < y]; every comparison with [NaN] is false. *)
Definition ltb (x y : num) : bool :=
  match x, y with
  | NaN, _ | _, NaN => false
  | _, NegInf => false
  | PosInf, _ => false
  | NegInf, _ => true
  | Fin _, PosInf => true
  | Fin p, Fin q => Qltb p q
  end.

(** [x <= y] *)
Definition leb (x y : num) : bool :=
  match x, y with
  | NaN, _ | _, NaN => false
  | NegInf, _ => true
  | _, PosInf => true
  | PosInf, _ => false
  | Fin _, NegInf => false
  | Fin p, Fin q => Qle_bool p q
  end.

Definition gtb (x y : num) : bool := ltb y x.
Definition geb (x y : num) : bool := leb y x.

(** [x + y] *)
Definition add (x y : num) : num :=
  match x, y with
  | NaN, _ | _, NaN => NaN
  | PosInf, NegInf | NegInf, PosInf => NaN
  | PosInf, _ | _, PosInf => PosInf
  | NegInf, _ | _, NegInf => NegInf
  | Fin p, Fin q => Fin (p + q)
  end.

(** [x - y] *)
Definition sub (x y : num) : num := add x (neg y).

(** The infinity of the sign of [q], [NaN] for [q == 0]. *)
Definition inf_times (q : Q) : num :=
  match (q ?= 0)%Q with
  | Gt => PosInf
  | Lt => NegInf
  | Eq => NaN
  end.

(** [x * y] *)
Definition mul (x y : num) : num :=
  match x, y with
  | NaN, _ | _, NaN => NaN
  | PosInf, PosInf | NegInf, NegInf => PosInf
  | PosInf, NegInf | NegInf, PosInf => NegInf
  | PosInf, Fin q | Fin q, PosInf => inf_times q
  | NegInf, Fin q | Fin q, NegInf => inf_times (- q)
  | Fin p, Fin q => Fin (p * q)
  end.

(** [x / y]; a zero divisor counts as [+0]. *)
Definition div (x y : num) : num :=
  match x, y with
  | NaN, _ | _, NaN => NaN
  | (PosInf | NegInf), (PosInf | NegInf) => NaN
  | Fin _, (PosInf | NegInf) => Fin 0
  | PosInf, Fin q => if Qltb q 0 then NegInf else PosInf
  | NegInf, Fin q => if Qltb q 0 then PosInf else NegInf
  | Fin p, Fin q => if Qeq_bool q 0 then inf_times p else Fin (p / q)
  end.

Definition of_Z (z : Z) : num := Fin (inject_Z z).

(** The sign of a comparator's return value, as [Array.prototype.sort]
    reads it: negative, zero (also for [NaN]), positive. *)
Definition sign (x : num) : comparison :=
  match x with
  | NaN => Eq
  | NegInf => Lt
  | PosInf => Gt
  | Fin q => (q ?= 0)%Q
  end.

(** Round half to even, [np.rint]. *)
Definition Qrint (q : Q) : Z :=
  let f := Qfloor q in
  match (q - inject_Z f ?= 1 # 2)%Q with
  | Lt => f
  | Gt => f + 1
  | Eq => if Z.even f then f else f + 1
  end.

(** [np.round(x, 6)]: [rint(x * 10**6) / 10**6]. *)
Definition round6 (x : num) : num :=
  match x with
  | Fin q => Fin (inject_Z (Qrint (q * inject_Z 1000000)) / inject_Z 1000000)
  | other => other
  end.

End JSNum.
Import JSNum.

(** ** JavaScript arrays *)

Module JS.

(** [Array.prototype.sort(cmp)]: a stable sort; [cmp a b] is the sign of
    the comparator's result ([Lt]: [a] first, [Gt]: [b] first). *)
Fixpoint sort_insert {A} (cmp : A → A → comparison) (x : A) (l : list A) : list A :=
  match l with
  | [] => [x]
  | y :: l' =>
      match cmp x y with
      | Gt => y :: sort_insert cmp x l'
      | _ => x :: l
      end
  end.

Fixpoint sort {A} (cmp : A → A → comparison) (l : list A) : list A :=
  match l with
  | [] => []
  | x :: l' => sort_insert cmp x (sort cmp l')
  end.

(** [a.slice(0, n)] *)
Definition slice0 {A} (n : nat) (l : list A) : list A := take n l.

End JS.

(** ** Python: exceptions, NumPy arrays, [range] *)

Module Py.

(** The fields of an assertion's f-string message. *)
Inductive assert_msg : Type :=
| MsgIdsLength (len N : nat)
    (* "reaction_ids length {len} != context size {N}" *)
| MsgBoundsShape (actual : list nat) (B N : nat)
    (* "input_bounds shape {actual} != ({B}, {N})" *)
| MsgLayerShape (i : nat) (actual : list nat) (B H N : nat).
    (* "Layer {i} shape {actual} != ({B}, {H}, {N}, {N})" *)

Inductive pyerror : Type :=
| IndexError
| ValueError
| AssertionError (msg : option assert_msg).

Inductive result (A : Type) : Type :=
| Ok (a : A)
| Err (e : pyerror).
Arguments Ok {A} a.
Arguments Err {A} e.

#[export] Instance result_ret : MRet result := λ A a, Ok a.
#[export] Instance result_bind : MBind result := λ A B f m,
  match m with
  | Ok a => f a
  | Err e => Err e
  end.

(** [assert cond, msg] *)
Definition assert (cond : bool) (msg : option assert_msg) : result unit :=
  if cond then Ok tt else Err (AssertionError msg).

(** [xs[i]] on a Python list, [i >= 0]. *)
Definition list_get {A} (xs : list A) (i : nat) : result A :=
  match xs !! i with
  | Some x => Ok x
  | None => Err IndexError
  end.

(** [for x in xs: body(x)] with an exception aborting the loop; the
    results are collected in order. *)
Fixpoint for_each {A B} (body : A → result B) (xs : list A) : result (list B) :=
  match xs with
  | [] => Ok []
  | x :: xs' =>
      y ← body x;
      ys ← for_each body xs';
      Ok (y :: ys)
  end.

(** [enumerate(xs)], counting from [i]. *)
Fixpoint enumerate_from {A} (i : nat) (xs : list A) : list (nat * A) :=
  match xs with
  | [] => []
  | x :: xs' => (i, x) :: enumerate_from (S i) xs'
  end.

(** [len(range(start, stop, step))], as CPython computes it. *)
Definition range_len (start stop step : Z) : Z :=
  if 0 <? step then
    if start <? stop then (stop - start - 1) / step + 1 else 0
  else if step <? 0 then
    if stop <? start then (start - stop - 1) / (- step) + 1 else 0
  else 0.

(** [list(range(start, stop, step))]; a zero step raises [ValueError]. *)
Definition range (start stop step : Z) : result (list Z) :=
  if step =? 0 then Err ValueError
  else Ok (map (λ i : nat, start + Z.of_nat i * step)
               (seq 0 (Z.to_nat (range_len start stop step)))).

(** A NumPy array: its shape and its elements in row-major order. *)
Record ndarray : Type := { shape : list nat; data : list num }.

Definition size_of (sh : list nat) : nat := foldr Nat.mul 1%nat sh.

Definition wf (t : ndarray) : Prop := length (data t) = size_of (shape t).

(** [np.asarray(t, dtype=...)] with the cast [f] applied elementwise. *)
Definition astype (f : num → num) (t : ndarray) : ndarray :=
  {| shape := shape t; data := map f (data t) |}.

(** [np.round(t, 6)] *)
Definition np_round6 (t : ndarray) : ndarray := astype round6 t.

(** One index into an axis of length [b]: negative indices count from the
    end, anything outside [[-b, b)] raises [IndexError]. *)
Definition norm_index (b : nat) (i : Z) : result nat :=
  if (0 <=? i) && (i <? Z.of_nat b) then Ok (Z.to_nat i)
  else if (- Z.of_nat b <=? i) && (i <? 0) then Ok (Z.to_nat (i + Z.of_nat b))
  else Err IndexError.

(** The [k]-th slice of [xs] cut into pieces of [s] elements. *)
Definition slice_at {A} (s : nat) (xs : list A) (k : nat) : list A :=
  take s (drop (k * s) xs).

(** [t[idxs]] for a list of integers: the slices along axis 0 named by
    [idxs], in that order and with repetitions. *)
Definition take0 (t : ndarray) (idxs : list Z) : result ndarray :=
  match shape t with
  | [] => Err IndexError
  | b :: rest =>
      rows ← for_each (norm_index b) idxs;
      Ok {| shape := length idxs :: rest;
            data := concat (map (slice_at (size_of rest) (data t)) rows) |}
  end.

(** [xs] cut into [n] consecutive pieces of [k] elements. *)
Fixpoint chunks {A} (n k : nat) (xs : list A) : list (list A) :=
  match n with
  | O => []
  | S n' => take k xs :: chunks n' k (drop k xs)
  end.

(** [t.tolist()] of a 2-D array. *)
Definition tolist2 (t : ndarray) : list (list num) :=
  match shape t with
  | [b; n] => chunks b n (data t)
  | _ => []
  end.

(** [t.tolist()] of a 4-D array, the rank every layer has by the
    functions' contract; other ranks nest to another depth, which this
    typed model does not represent. *)
Definition tolist4 (t : ndarray) : list (list (list (list num))) :=
  match shape t with
  | [b; h; n; k] =>
      map (λ bl, map (chunks n k) (chunks h (n * k) bl))
          (chunks b (h * (n * k)) (data t))
  | _ => []
  end.

(** [B, H, N, _ = shape] *)
Definition unpack4 (sh : list nat) : result (nat * nat * nat) :=
  match sh with
  | [B; H; N; _] => Ok (B, H, N)
  | _ => Err ValueError
  end.

Definition shape_eqb (a b : list nat) : bool := bool_decide (a = b).

(** [str(n)] *)
Definition str_nat (n : nat) : string := NilZero.string_of_uint (Nat.to_uint n).

(** [os.path.join(dir, name)] for a relative [name] (POSIX). *)
Definition path_join (dir name : string) : string :=
  if String.eqb dir "" then name
  else if String.eqb (String.substring (String.length dir - 1) 1 dir) "/"
       then dir +:+ name
       else dir +:+ "/" +:+ name.

End Py.
Import Py.

(** ** export_attention.py *)

Module Exporter.

(** The two element casts, [np.float32(x)] and [np.float16(x)]. *)
Class Casts : Type := { to_float32 : num → num; to_float16 : num → num }.

(** The JSON header of an [.attnbin] file. *)
Record header : Type := {
  h_format : string;
  h_N : nat;
  h_B : nat;
  h_H : nat;
  h_L : nat;
  h_dtype : option string;
  h_reaction_ids : list string;
  h_full_names : list string
}.

(** The content of an [.attnbin] file: the header, the bounds block and the
    layer blocks, each block listing its elements in the order written. *)
Record attnbin : Type := {
  a_header : header;
  a_bounds : list num;
  a_layers : list (list num)
}.

(** A file written by [open(filepath, 'wb')]. *)
Record written : Type := { w_path : string; w_file : attnbin }.

Section WithCasts.
Context {casts : Casts}.

(** [[reaction_names_dict.get(rid, rid) for rid in reaction_ids]] *)
Definition full_names_of (reaction_names_dict : gmap string string)
    (reaction_ids : list string) : list string :=
  map (λ rid, default rid (reaction_names_dict !! rid)) reaction_ids.

Definition export_attention_data (filepath : string) (reaction_ids : list string)
    (reaction_names_dict : gmap string string)
    (attention_tensors : list ndarray) (input_bounds : ndarray) : result written :=
  let L := length attention_tensors in
  t0 ← list_get attention_tensors 0;
  '(B, H, N) ← unpack4 (shape t0);
  _ ← assert (length reaction_ids =? N)%nat
        (Some (MsgIdsLength (length reaction_ids) N));
  let input_bounds := astype to_float32 input_bounds in
  _ ← assert (shape_eqb (shape input_bounds) [B; N])
        (Some (MsgBoundsShape (shape input_bounds) B N));
  _ ← for_each (λ '(i, t), assert (shape_eqb (shape t) [B; H; N; N])
                              (Some (MsgLayerShape i (shape t) B H N)))
        (enumerate_from 0 attention_tensors);
  let full_names := full_names_of reaction_names_dict reaction_ids in
  let header :=
    {| h_format := "attnbin_v1"; h_N := N; h_B := B; h_H := H; h_L := L;
       h_dtype := None;
       h_reaction_ids := reaction_ids; h_full_names := full_names |} in
  Ok {| w_path := filepath;
        w_file := {| a_header := header;
                     a_bounds := data input_bounds;
                     a_layers := map (λ t, data (astype to_float32 t))
                                     attention_tensors |} |}.

Definition export_attention_data_fp16 (filepath : string) (reaction_ids : list string)
    (reaction_names_dict : gmap string string)
    (attention_tensors : list ndarray) (input_bounds : ndarray) : result written :=
  let L := length attention_tensors in
  t0 ← list_get attention_tensors 0;
  '(B, H, N) ← unpack4 (shape t0);
  _ ← assert (length reaction_ids =? N)%nat None;
  let input_bounds := astype to_float32 input_bounds in
  _ ← assert (shape_eqb (shape input_bounds) [B; N]) None;
  let full_names := full_names_of reaction_names_dict reaction_ids in
  let header :=
    {| h_format := "attnbin_v1"; h_N := N; h_B := B; h_H := H; h_L := L;
       h_dtype := Some "float16";
       h_reaction_ids := reaction_ids; h_full_names := full_names |} in
  Ok {| w_path := filepath;
        w_file := {| a_header := header;
                     a_bounds := data input_bounds;
                     a_layers := map (λ t, data (astype to_float16 t))
                                     attention_tensors |} |}.

Definition export_attention_subset (filepath : string) (reaction_ids : list string)
    (reaction_names_dict : gmap string string)
    (attention_tensors : list ndarray) (input_bounds : ndarray)
    (batch_indices : option (list Z)) (fp16 : bool) : result written :=
  '(input_bounds, attention_tensors) ←
    match batch_indices with
    | Some batch_indices =>
        input_bounds ← take0 input_bounds batch_indices;
        attention_tensors ← for_each (λ t, take0 t batch_indices) attention_tensors;
        Ok (input_bounds, attention_tensors)
    | None => Ok (input_bounds, attention_tensors)
    end;
  if fp16 then
    export_attention_data_fp16 filepath reaction_ids reaction_names_dict
      attention_tensors input_bounds
  else
    export_attention_data filepath reaction_ids reaction_names_dict
      attention_tensors input_bounds.

(** The file name of chunk [chunk_idx]. *)
Definition chunk_name (output_dir : string) (chunk_idx : nat) : string :=
  path_join output_dir ("chunk_" +:+ str_nat chunk_idx +:+ ".attnbin").

(** The body of the loop [for start in range(0, B, chunk_size)], with the
    counter [chunk_idx] threaded through; the files are listed in the order
    they are written. *)
Fixpoint chunk_loop (output_dir : string) (reaction_ids : list string)
    (reaction_names_dict : gmap string string)
    (attention_tensors : list ndarray) (input_bounds : ndarray)
    (chunk_size : Z) (fp16 : bool) (B : Z)
    (starts : list Z) (chunk_idx : nat) : result (list written) :=
  match starts with
  | [] => Ok []
  | start :: starts' =>
      let end_ := Z.min (start + chunk_size) B in
      indices ← range start end_ 1;
      let fname := chunk_name output_dir chunk_idx in
      w ← export_attention_subset fname reaction_ids reaction_names_dict
            attention_tensors input_bounds (Some indices) fp16;
      ws ← chunk_loop output_dir reaction_ids reaction_names_dict
             attention_tensors input_bounds chunk_size fp16 B
             starts' (S chunk_idx);
      Ok (w :: ws)
  end.

Definition export_attention_chunked (output_dir : string) (reaction_ids : list string)
    (reaction_names_dict : gmap string string)
    (attention_tensors : list ndarray) (input_bounds : ndarray)
    (chunk_size : Z) (fp16 : bool) : result (list written) :=
  t0 ← list_get attention_tensors 0;
  B ← list_get (shape t0) 0;
  starts ← range 0 (Z.of_nat B) chunk_size;
  chunk_loop output_dir reaction_ids reaction_names_dict
    attention_tensors input_bounds chunk_size fp16 (Z.of_nat B) starts 0.

End WithCasts.

End Exporter.
Import Exporter.

(** ** attention_visualizer.py: the Python entry point *)

Module Visualizer.

(** The constants the script block receives from Python ([const ids = ...],
    [const attnData = ...], [const L = ...], ...) and the sizes written into
    the markup. *)
Record view : Type := {
  ids : list string;
  fullNames : list string;
  attnData : list (list (list (list (list num))));
  boundsData : list (list num);
  vL : nat;
  vB : nat;
  vH : nat;
  vN : nat;
  nodeH : Z;
  nodeW : Z;
  gap : Z;
  nameBlockX : Z;
  nameBlockW : Z;
  topPad : Z;
  colX : list Z;
  bandX : Z;
  bandW : Z;
  total_width : Z;
  svg_height : Z
}.

Definition py_nameBlockX : Z := 5.
Definition py_nameBlockW : Z := 200.
Definition py_guideGap : Z := 25.
Definition py_nodeW : Z := 22.
Definition py_colSpacing : Z := 175.
Definition py_sliderGroupW : Z := 155.
Definition py_topPad : Z := 50.
Definition py_botPad : Z := 15.

Definition py_col0_x : Z := py_nameBlockX + py_nameBlockW + py_guideGap.

(** [[col0_x + i * colSpacing for i in range(L + 1)]] *)
Definition py_colX (L : nat) : list Z :=
  map (λ i : nat, py_col0_x + Z.of_nat i * py_colSpacing) (seq 0 (L + 1)).

(** [xs[-1]] of a list known to be non-empty. *)
Definition py_last (xs : list Z) : Z := List.last xs 0.

Definition show_attention_graph (reaction_ids : list string)
    (reaction_names_dict : gmap string string)
    (attention_tensors : list ndarray) (input_bounds : ndarray)
    (node_h gap : Z) : result view :=
  let L := length attention_tensors in
  t0 ← list_get attention_tensors 0;
  '(B, H, N) ← unpack4 (shape t0);
  _ ← assert (N =? length reaction_ids)%nat None;
  _ ← assert (shape_eqb (shape input_bounds) [B; N]) None;
  let attn_data := map (λ t, tolist4 (np_round6 t)) attention_tensors in
  let bounds_data := tolist2 (np_round6 input_bounds) in
  let full_names := full_names_of reaction_names_dict reaction_ids in
  let colX := py_colX L in
  let total_width := py_last colX + py_nodeW + 30 in
  let svg_height := py_topPad + Z.of_nat N * (node_h + gap) + py_botPad in
  let bandX := py_nameBlockX in
  let bandW := py_last colX + py_nodeW - py_nameBlockX in
  Ok {| ids := reaction_ids; fullNames := full_names;
        attnData := attn_data; boundsData := bounds_data;
        vL := L; vB := B; vH := H; vN := N;
        nodeH := node_h; nodeW := py_nodeW; gap := gap;
        nameBlockX := py_nameBlockX; nameBlockW := py_nameBlockW;
        topPad := py_topPad; colX := colX;
        bandX := bandX; bandW := bandW;
        total_width := total_width; svg_height := svg_height |}.

(** ** The script: controls and array access *)

(** The slider values the script reads with [parseInt(elId(...).value)]. *)
Record controls : Type := {
  sl_batch : nat;         (* elId('batch') *)
  sl_head : list nat;     (* elId('head-' + l) *)
  sl_thresh : list Z      (* elId('thresh-' + l) *)
}.

(** A value that may be [undefined]. *)
Abbreviation maybe A := (option A) (only parsing).

(** [a[i]]: [None] is the [TypeError] of indexing [undefined]; an index
    outside the array yields [undefined]. *)
Definition js_index {A} (a : maybe (list A)) (i : nat) : option (maybe A) :=
  match a with
  | None => None
  | Some l => Some (l !! i)
  end.

(** [Math.abs(x)], with [Math.abs(undefined) = NaN]. *)
Definition Math_abs (x : maybe num) : num :=
  match x with
  | Some v => JSNum.abs v
  | None => NaN
  end.

(** [for (const x of xs) s = body(s, x)], an exception aborting the loop. *)
Fixpoint js_for {S A} (body : S → A → option S) (s : S) (xs : list A) : option S :=
  match xs with
  | [] => Some s
  | x :: xs' =>
      s' ← body s x;
      js_for body s' xs'
  end.

(** [yPos]: [for (let i = 0; i < N; i++) yPos.push(topPad + i * (nodeH + gap))] *)
Definition yPos (v : view) : list Z :=
  map (λ i : nat, topPad v + Z.of_nat i * (nodeH v + gap v)) (seq 0 (vN v)).

Definition MAX_TL : nat := 600.

(** [getMatrix(l)]: [attnData[l][curBatch()][parseInt(elId('head-' + l).value)]] *)
Definition getMatrix (v : view) (st : controls) (l : nat)
    : option (maybe (list (list num))) :=
  layer ← js_index (Some (attnData v)) l;
  slab ← js_index layer (sl_batch st);
  h ← sl_head st !! l;
  js_index slab h.

(** The two nested loops over [r] and [c] of [updateThreshLines], each
    reading [Math.abs(m[r][c])]. *)
Definition for_cells {S} (N : nat) (m : maybe (list (list num)))
    (body : S → nat → nat → num → S) (s0 : S) : option S :=
  js_for (λ s r,
    js_for (λ s c,
      row ← js_index m r;
      cell ← js_index row c;
      Some (body s r c (Math_abs cell))) s (seq 0 N)) s0 (seq 0 N).

(** ** The script: threshold edges *)

(** An entry [{ r, c, v }] pushed by [updateThreshLines]. *)
Record entry : Type := { e_r : nat; e_c : nat; e_v : num }.

(** What one call of [updateThreshLines(l)] leaves behind: the threshold
    shown in the label, the qualifying entries after [entries.sort], and
    the [<line>] elements appended to the layer's group, each given by its
    entry (the end points are [cy(e.r)] and [cy(e.c)]) and its
    [stroke-opacity]. *)
Record thresh_lines : Type := {
  tl_mn : num;
  tl_mx : num;
  tl_thresh : num;
  tl_entries : list entry;
  tl_lines : list (entry * num)
}.

(** [if (v < mn) mn = v; if (v > mx) mx = v;] *)
Definition minmax_step (s : num * num) (r c : nat) (v : num) : num * num :=
  let '(mn, mx) := s in
  (if ltb v mn then v else mn, if gtb v mx then v else mx).

(** [if (v >= thresh) entries.push({ r, c, v });] *)
Definition push_step (thresh : num) (entries : list entry) (r c : nat) (v : num)
    : list entry :=
  if geb v thresh then entries ++ [{| e_r := r; e_c := c; e_v := v |}] else entries.

(** The comparator [(a, b) => b.v - a.v]. *)
Definition by_v_desc (a b : entry) : comparison := sign (sub (e_v b) (e_v a)).

(** [alpha] of a drawn line. *)
Definition line_alpha (thresh range : num) (e : entry) : num :=
  if gtb range (Fin 0)
  then add (Fin (5 # 100)) (mul (div (sub (e_v e) thresh) range) (Fin (45 # 100)))
  else Fin (8 # 100).

Definition updateThreshLines (v : view) (st : controls) (l : nat)
    : option thresh_lines :=
  _ ← guard (l < vL v)%nat;                       (* g = threshGroups[l] *)
  m ← getMatrix v st l;
  '(mn, mx) ← for_cells (vN v) m minmax_step (PosInf, NegInf);
  sv ← sl_thresh st !! l;
  let thresh := add mn (mul (div (of_Z sv) (of_Z 1000)) (sub mx mn)) in
  entries ← for_cells (vN v) m (push_step thresh) [];
  let entries := JS.sort by_v_desc entries in
  let drawn := JS.slice0 MAX_TL entries in
  let range := sub mx thresh in
  Some {| tl_mn := mn; tl_mx := mx; tl_thresh := thresh;
          tl_entries := entries;
          tl_lines := map (λ e, (e, line_alpha thresh range e)) drawn |}.

(** ** The script: bound bars and tooltips *)

(** [updateRedFills()]: the [width] attribute of every red bar. *)
Definition updateRedFills (v : view) (st : controls) : option (list num) :=
  bv ← js_index (Some (boundsData v)) (sl_batch st);
  mx ← js_for (λ mx i,
          x ← js_index bv i;
          Some (if gtb (Math_abs x) mx then Math_abs x else mx))
        NegInf (seq 0 (vN v));
  let mx := if leb mx (Fin 0) then Fin 1 else mx in
  js_for (λ ws i,
      x ← js_index bv i;
      Some (ws ++ [mul (div (Math_abs x) mx) (of_Z (nameBlockW v))]))
    [] (seq 0 (vN v)).

(** The value behind ['Bound: ' + bv.toExponential(3)] in the name-bar
    tooltip: [boundsData[curBatch()][idx]], which must be a number. *)
Definition boundTooltip (v : view) (st : controls) (idx : nat) : option num :=
  bv ← js_index (Some (boundsData v)) (sl_batch st);
  x ← js_index bv idx;
  x.

(** ** The script: chain *)

(** A chain element [{ col, idx }]. *)
Record node : Type := { col : nat; idx : nat }.

(** A connecting segment: the labelled value, the stroke width and the
    stroke opacity. *)
Record segment : Type := { seg_val : num; seg_lw : num; seg_alpha : num }.

Definition makeSegment (v : view) (st : controls) (keyCol keyIdx queryIdx : nat)
    : option segment :=
  let l := keyCol in
  m ← getMatrix v st l;
  row ← js_index m keyIdx;
  val ← js_index row queryIdx;
  '(rmin, rmax) ← js_for (λ s c,
          row ← js_index m keyIdx;
          cell ← js_index row c;
          Some (minmax_step s keyIdx c (Math_abs cell)))
        (PosInf, NegInf) (seq 0 (vN v));
  let normed :=
    if gtb rmax rmin then div (sub (Math_abs val) rmin) (sub rmax rmin)
    else Fin (1 # 2) in
  let lw := add (Fin (3 # 10)) (mul normed (Fin (77 # 10))) in
  let alpha := add (Fin (2 # 10)) (mul normed (Fin (45 # 100))) in
  val ← val;                                      (* val.toExponential(3) *)
  Some {| seg_val := val; seg_lw := lw; seg_alpha := alpha |}.

(** The chain operations.  Only the array [chain] is modelled: the
    highlight rectangles and segment artifacts they also maintain are drawn
    from [chain] and never read back into it. *)
Definition extend (chain : list node) (col idx : nat) : list node :=
  chain ++ [{| col := col; idx := idx |}].

Definition truncateFrom (chain : list node) (pos : nat) : list node :=
  take pos chain.

Definition replaceAt (chain : list node) (pos col idx : nat) : list node :=
  <[pos := {| col := col; idx := idx |}]> chain.

(** The element a click lands on: a name bar ([data-nbar]), a node of a
    column ([data-col], [data-idx]) or anything else. *)
Inductive target : Type :=
| NameBar (nbar : nat)
| Node (col idx : nat)
| Other.

(** The state the click handler updates. *)
Record ui : Type := {
  chain : list node;
  pinnedIdx : option nat;       (* -1 is [None] *)
  searchValue : string          (* searchInput.value *)
}.

Definition initial_ui : ui :=
  {| chain := []; pinnedIdx := None; searchValue := "" |}.

(** [pinRow(idx)] *)
Definition pinRow (v : view) (s : ui) (idx : nat) : ui :=
  {| chain := chain s; pinnedIdx := Some idx;
     searchValue := default "undefined" (ids v !! idx) |}.

(** The node branch of the click handler. *)
Definition click_node (v : view) (chain : list node) (col idx : nat) : list node :=
  match chain with
  | [] => [{| col := col; idx := idx |}]
  | first :: _ =>
      let startCol := Visualizer.col first in
      let pos := Z.of_nat col - Z.of_nat startCol in
      let lastCol := Visualizer.col (List.last chain first) in
      if (pos =? Z.of_nat (length chain)) && (lastCol <? vL v)%nat then
        extend chain col idx
      else if (0 <=? pos) && (pos <? Z.of_nat (length chain)) then
        match chain !! Z.to_nat pos with
        | Some e =>
            if (Visualizer.idx e =? idx)%nat then truncateFrom chain (Z.to_nat pos)
            else replaceAt chain (Z.to_nat pos) col idx
        | None => chain
        end
      else [{| col := col; idx := idx |}]
  end.

(** [svgEl.addEventListener('click', ...)] *)
Definition click (v : view) (s : ui) (t : target) : ui :=
  match t with
  | NameBar idx =>
      if bool_decide (pinnedIdx s = Some idx) then
        {| chain := chain s; pinnedIdx := None; searchValue := "" |}
      else pinRow v s idx
  | Node col idx =>
      {| chain := click_node v (chain s) col idx;
         pinnedIdx := pinnedIdx s; searchValue := searchValue s |}
  | Other => s
  end.

(** The handler run over a sequence of clicks. *)
Definition clicks (v : view) (s : ui) (ts : list target) : ui :=
  fold_left (click v) ts s.

(** ** The script: search *)

(** [String.prototype.toLowerCase], kept abstract. *)
Class Lowercase : Type := toLowerCase : string → string.

(** [s.startsWith(q)] *)
Definition startsWith (s q : string) : bool := String.prefix q s.

(** [s.includes(q)] *)
Fixpoint includes (s q : string) : bool :=
  String.prefix q s ||
  match s with
  | EmptyString => false
  | String _ s' => includes s' q
  end.

(** A search result [{ idx, score }]. *)
Record scored : Type := { s_idx : nat; s_score : Z }.

(** The comparator [(a, b) => b.score - a.score || a.idx - b.idx]. *)
Definition by_score_then_idx (a b : scored) : comparison :=
  match s_score b - s_score a ?= 0 with
  | Eq => Z.of_nat (s_idx a) - Z.of_nat (s_idx b) ?= 0
  | c => c
  end.

Section Search.
Context {lower : Lowercase}.

Definition idsLower (v : view) : list string := map toLowerCase (ids v).
Definition fullNamesLower (v : view) : list string := map toLowerCase (fullNames v).

(** The score of row [i]; calling a method on [undefined] throws. *)
Definition score_of (v : view) (q : string) (i : nat) : option Z :=
  id ← idsLower v !! i;
  if startsWith id q then Some 3
  else if includes id q then Some 2
  else
    name ← fullNamesLower v !! i;
    if includes name q then Some 1 else Some (-1).

Definition getMatches (v : view) (query : string) : option (list scored) :=
  if String.eqb query "" then Some []
  else
    let q := toLowerCase query in
    scored ← js_for (λ scored i,
        score ← score_of v q i;
        Some (if 0 <? score
              then scored ++ [{| s_idx := i; s_score := score |}]
              else scored))
      [] (seq 0 (vN v));
    Some (JS.slice0 12 (JS.sort by_score_then_idx scored)).

End Search.

(** An ASCII instance of [toLowerCase]. *)
Definition ascii_lower (c : ascii) : ascii :=
  let n := nat_of_ascii c in
  if (65 <=? n)%nat && (n <=? 90)%nat then ascii_of_nat (n + 32) else c.

Fixpoint ascii_toLowerCase (s : string) : string :=
  match s with
  | EmptyString => EmptyString
  | String c s' => String (ascii_lower c) (ascii_toLowerCase s')
  end.

End Visualizer.
Import Visualizer.

(** ** A small data set used to run the definitions

    Three entities, one layer, one head, one batch; the layer matrix is
    [[0.1, 0.9, 0.2], [0.0, 0.1, 0.8], [0.3, 0.3, 0.3]]. *)

Module Sample.

Definition ids : list string := ["A"; "B"; "C"].

Definition names : gmap string string :=
  <["A" := "alpha kinase"]> (<["B" := "Beta lyase"]> ∅).

Definition layer0 : ndarray :=
  {| shape := [1; 1; 3; 3]%nat;
     data := map Fin [1 # 10; 9 # 10; 2 # 10;
                      0;      1 # 10; 8 # 10;
                      3 # 10; 3 # 10; 3 # 10]%Q |}.

Definition bounds : ndarray :=
  {| shape := [1; 3]%nat; data := map Fin [1 # 2; - (1); 0]%Q |}.

(** The matrix [attnData[0][0][0]] of the view below. *)
Definition matrix0 : list (list num) :=
  map (map (λ k, Fin (k # 1000000)))
      [[100000; 900000; 200000]; [0; 100000; 800000]; [300000; 300000; 300000]].

(** Casts that lose nothing, to run the exporters. *)
Definition exact_casts : Casts := {| to_float32 := id; to_float16 := id |}.

(** [layer0] with two entries perturbed below the sixth decimal. *)
Definition layer0_noisy : ndarray :=
  {| shape := [1; 1; 3; 3]%nat;
     data := map Fin [1000001 # 10000000; 9 # 10; 2 # 10;
                      0;      1 # 10; 8 # 10;
                      3 # 10; 2999996 # 10000000; 3 # 10]%Q |}.

Definition sliders (sv : Z) : controls :=
  {| sl_batch := 0; sl_head := [0%nat]; sl_thresh := [sv] |}.

(** The view [show_attention_graph(ids, names, [layer0], bounds)] builds
    with the default [node_h = 8], [gap = 1]. *)
Definition the_view : view :=
  match show_attention_graph ids names [layer0] bounds 8 1 with
  | Ok v => v
  | Err _ =>
      {| Visualizer.ids := []; fullNames := []; attnData := []; boundsData := [];
         vL := 0; vB := 0; vH := 0; vN := 0; nodeH := 0; nodeW := 0; gap := 0;
         nameBlockX := 0; nameBlockW := 0; topPad := 0; colX := [];
         bandX := 0; bandW := 0; total_width := 0; svg_height := 0 |}
  end.

End Sample.

(** [np.zeros(sh)] *)
Definition zeros (sh : list nat) : ndarray :=
  {| shape := sh; data := repeat (Fin 0) (size_of sh) |}.

(** ** A data set of five batches

    Two entities, five batches, one head, one layer. *)

Module FiveBatches.

Definition ids : list string := ["a"; "b"].
Definition names : gmap string string := ∅.
Definition tensors : list ndarray := [zeros [5; 1; 2; 2]%nat].
Definition bounds : ndarray := zeros [5; 2]%nat.

End FiveBatches.

(** ** A data set whose second layer has the wrong shape

    Two entities, one batch, one head; layer 0 is [(1,1,2,2)], layer 1 is
    [(1,1,3,3)]. *)

Module BadLayer.

Definition ids : list string := ["a"; "b"].
Definition names : gmap string string := ∅.
Definition tensors : list ndarray := [zeros [1; 1; 2; 2]%nat; zeros [1; 1; 3; 3]%nat].
Definition bounds : ndarray := zeros [1; 2]%nat.

End BadLayer.

(** ** Predicates used in the statements *)

(** A data set as the exporters expect it: at least one layer, every layer
    of shape [(B,H,N,N)], bounds of shape [(B,N)], [N] ids, and every
    array holding as many elements as its shape says. *)
Definition valid_dataset (reaction_ids : list string)
    (attention_tensors : list ndarray) (input_bounds : ndarray)
    (B H N : nat) : Prop :=
  attention_tensors ≠ [] ∧
  Forall (λ t, shape t = [B; H; N; N] ∧ wf t) attention_tensors ∧
  shape input_bounds = [B; N] ∧ wf input_bounds ∧
  length reaction_ids = N.

(** Every element of the array is a finite number. *)
Definition all_finite (t : ndarray) : Prop :=
  Forall (λ x, is_finite x = true) (data t).

(** The array has [B] slices along axis 0. *)
Definition has_batches (B : nat) (t : ndarray) : Prop :=
  wf t ∧ head (shape t) = Some B.

(** The elements of batch [k] of an array. *)
Definition batch_slice (t : ndarray) (k : nat) : list num :=
  slice_at (size_of (tail (shape t))) (data t) k.

(** The batch a Python index names on an axis of length [B]: [i] itself,
    or [B + i] for a negative [i]. *)
Definition batch_of (B : nat) (i : Z) : nat := Z.to_nat (i `mod` Z.of_nat B).

(** The projection of an array to the batches [idxs], in the words of the
    specification: slice [k] of the result is slice [idxs[k]] of [t]. *)
Definition project (idxs : list Z) (t : ndarray) : ndarray :=
  {| shape := length idxs :: tail (shape t);
     data := concat (map (λ i, batch_slice t (batch_of (hd 0%nat (shape t)) i)) idxs) |}.

(** The file an export writes for a data set of consistent shapes. *)
Definition written_for `{Casts} (fp16 : bool) (path : string)
    (reaction_ids : list string) (names : gmap string string)
    (attention_tensors : list ndarray) (input_bounds : ndarray)
    (B H N : nat) : written :=
  {| w_path := path;
     w_file :=
       {| a_header :=
            {| h_format := "attnbin_v1"; h_N := N; h_B := B; h_H := H;
               h_L := length attention_tensors;
               h_dtype := if fp16 then Some "float16" else None;
               h_reaction_ids := reaction_ids;
               h_full_names := full_names_of names reaction_ids |};
          a_bounds := map to_float32 (data input_bounds);
          a_layers :=
            map (λ t, map (if fp16 then to_float16 else to_float32) (data t))
                attention_tensors |} |}.

(** The batch range of chunk [i] in the words of the specification:
    [[i * chunkSize, min((i + 1) * chunkSize, B))]. *)
Definition chunk_start (chunk_size : Z) (i : nat) : Z := Z.of_nat i * chunk_size.
Definition chunk_end (B : nat) (chunk_size : Z) (i : nat) : Z :=
  Z.min ((Z.of_nat i + 1) * chunk_size) (Z.of_nat B).
Definition chunk_batches (B : nat) (chunk_size : Z) (i : nat) : list Z :=
  seqZ (chunk_start chunk_size i) (chunk_end B chunk_size i - chunk_start chunk_size i).

(** The file of chunk [i]: the export of the data set projected to the
    chunk's batches. *)
Definition chunk_file `{Casts} (fp16 : bool) (dir : string)
    (reaction_ids : list string) (names : gmap string string)
    (attention_tensors : list ndarray) (input_bounds : ndarray)
    (B H N : nat) (chunk_size : Z) (i : nat) : written :=
  written_for fp16 (chunk_name dir i) reaction_ids names
    (project (chunk_batches B chunk_size i) <$> attention_tensors)
    (project (chunk_batches B chunk_size i) input_bounds)
    (length (chunk_batches B chunk_size i)) H N.

(** The number of chunks, [ceil(B / chunkSize)]. *)
Definition chunk_count (B : nat) (chunk_size : Z) : nat :=
  Z.to_nat ((Z.of_nat B + chunk_size - 1) / chunk_size).


(** The columns of a chain are [start, start + 1, ...]. *)
Definition contiguous_from (start : nat) (ch : list node) : Prop :=
  map col ch = seq start (length ch).

(** Either the chain is empty, or its columns run contiguously from a
    start column that is at most [L]. *)
Definition chain_ok (v : view) (ch : list node) : Prop :=
  ∀ first, head ch = Some first →
    contiguous_from (col first) ch ∧ (col first ≤ vL v)%nat.

(** [m] is an [N]-by-[N] matrix of finite numbers. *)
Definition square_finite (N : nat) (m : list (list num)) : Prop :=
  length m = N ∧
  Forall (λ row, length row = N ∧ Forall (λ x, is_finite x = true) row) m.

(** The cell [|m[r][c]|] of a matrix, [NaN] outside it. *)
Definition abs_cell (m : list (list num)) (r c : nat) : num :=
  Math_abs (m !! r ≫= (.!! c)).

(** The index pairs [(r, c)] in the order the nested loops visit them. *)
Definition cell_indices (N : nat) : list (nat * nat) :=
  flat_map (λ r, map (λ c, (r, c)) (seq 0 N)) (seq 0 N).

(** The entry of every cell of the matrix, in loop order. *)
Definition all_cells (N : nat) (m : list (list num)) : list entry :=
  map (λ rc, {| e_r := rc.1; e_c := rc.2; e_v := abs_cell m rc.1 rc.2 |})
      (cell_indices N).

(** The pair [(mn, mx)] the first loop of [updateThreshLines] computes. *)
Definition minmax_of (cells : list entry) : num * num :=
  fold_left (λ s e, minmax_step s (e_r e) (e_c e) (e_v e)) cells (PosInf, NegInf).

(** [mn + (sv / 1000) * (mx - mn)] *)
Definition thresh_of (mn mx : num) (sv : Z) : num :=
  add mn (mul (div (of_Z sv) (of_Z 1000)) (sub mx mn)).

(** The cells whose magnitude reaches the threshold, in loop order. *)
Definition selected (thresh : num) (cells : list entry) : list entry :=
  filter (λ e, geb (e_v e) thresh = true) cells.

(** [b] does not have a larger magnitude than [a]. *)
Definition v_desc (a b : entry) : Prop := leb (e_v b) (e_v a) = true.

(** The running maximum of [updateRedFills] after the rows [xs]. *)
Definition red_max (bv : list num) (xs : list nat) (mx0 : num) : num :=
  fold_left (λ mx i, if gtb (Math_abs (bv !! i)) mx then Math_abs (bv !! i) else mx)
            xs mx0.

(** The divisor [updateRedFills] uses: [if (mx <= 0) mx = 1]. *)
Definition red_divisor (mx : num) : num := if leb mx (Fin 0) then Fin 1 else mx.

(** Under the comparator [cmp], [a] may stay in front of [b]. *)
Definition cmp_le {A} (cmp : A → A → comparison) (a b : A) : Prop := cmp a b ≠ Gt.

(** [e] is drawn no later than [e'] in the list [l]. *)
Definition ranks_before {A} (l : list A) (e e' : A) : Prop :=
  ∃ i j, (i < j)%nat ∧ l !! i = Some e ∧ l !! j = Some e'.

(** The score of an entity in the words of the specification: 3 if the id
    starts with the query, else 2 if the id contains it, else 1 if the
    display name contains it, else excluded.  All three strings are taken
    in lower case. *)
Definition rank_score (id name q : string) : option Z :=
  if startsWith id q then Some 3
  else if includes id q then Some 2
  else if includes name q then Some 1
  else None.

(** [a] ranks strictly above [b]: higher score, or equal score and smaller
    index. *)
Definition ranks_above (a b : scored) : Prop :=
  s_score b < s_score a ∨ (s_score a = s_score b ∧ (s_idx a < s_idx b)%nat).

(** The entries [getMatches] pushes while scanning the rows [xs]. *)
Definition search_candidates `{Lowercase} (v : view) (q : string) (xs : list nat)
    : list scored :=
  omap (λ i, score_of v q i ≫= λ sc,
             if 0 <? sc then Some {| s_idx := i; s_score := sc |} else None) xs.

(** ** The script: the page its handlers maintain

    The handlers of the script keep a set of drawn artifacts next to the
    slider values and the chain: one highlight rectangle per chain element
    ([hlRects]), one connecting segment per pair of consecutive chain
    elements ([segments]), the lines and the threshold label of every layer
    ([threshGroups], [tval-l]) and the widths of the red bars
    ([redRects]).  [None] is the [TypeError] that aborts a handler. *)

Module Page.

(** The artifacts [makeSegment(keyCol, keyIdx, queryIdx)] returns: a line
    from node [(keyCol, keyIdx)] to node [(keyCol + 1, queryIdx)] and its
    label. *)
Record seg_art : Type := {
  sa_keyCol : nat;
  sa_keyIdx : nat;
  sa_queryIdx : nat;
  sa_seg : segment
}.

Definition drawSegment (v : view) (st : controls) (keyCol keyIdx queryIdx : nat)
    : option seg_art :=
  s ← makeSegment v st keyCol keyIdx queryIdx;
  Some {| sa_keyCol := keyCol; sa_keyIdx := keyIdx; sa_queryIdx := queryIdx;
          sa_seg := s |}.

(** What is drawn for one layer: the text of [tval-l] (empty before the
    first update) and the [<line>] children of [threshGroups[l]]. *)
Record group : Type := {
  g_label : option num;
  g_lines : list (entry * num)
}.

Definition empty_group : group := {| g_label := None; g_lines := [] |}.

(** The effect of [updateThreshLines(l)] on layer [l]'s group. *)
Definition drawThreshLines (v : view) (st : controls) (l : nat) : option group :=
  tl ← updateThreshLines v st l;
  Some {| g_label := Some (tl_thresh tl); g_lines := tl_lines tl |}.

Record page : Type := {
  p_controls : controls;
  p_chain : list node;
  p_hlRects : list node;
  p_segments : list seg_art;
  p_threshGroups : list group;
  p_redRects : list num;
  p_pinnedIdx : option nat;
  p_searchValue : string
}.

(** [updateAllThresh()] *)
Definition updateAllThresh (v : view) (st : controls) (groups : list group)
    : option (list group) :=
  js_for (λ groups l,
      g ← drawThreshLines v st l;
      Some (<[l := g]> groups))
    groups (seq 0 (vL v)).

(** The body shared by [redrawSegmentAt] and [redrawAllSegments]:
    [segments[i] = makeSegment(chain[i].col, chain[i].idx, chain[i + 1].idx)]. *)
Definition redrawSegment (v : view) (st : controls) (chain : list node)
    (segments : list seg_art) (i : nat) : option (list seg_art) :=
  a ← chain !! i;
  b ← chain !! S i;
  s ← drawSegment v st (col a) (idx a) (idx b);
  Some (<[i := s]> segments).

(** [redrawSegmentAt(i)] *)
Definition redrawSegmentAt (v : view) (st : controls) (chain : list node)
    (segments : list seg_art) (i : nat) : option (list seg_art) :=
  if (length segments <=? i)%nat then Some segments
  else redrawSegment v st chain segments i.

(** [redrawAllSegments()] *)
Definition redrawAllSegments (v : view) (st : controls) (chain : list node)
    (segments : list seg_art) : option (list seg_art) :=
  js_for (redrawSegment v st chain) segments (seq 0 (length segments)).

(** [redrawSegmentsForLayer(l)] *)
Definition redrawSegmentsForLayer (v : view) (st : controls) (chain : list node)
    (segments : list seg_art) (l : nat) : option (list seg_art) :=
  js_for (λ segments i,
      a ← chain !! i;
      if (col a =? l)%nat then redrawSegmentAt v st chain segments i
      else Some segments)
    segments (seq 0 (length segments)).

(** The sliders as the markup creates them: batch 0, every head 0, every
    threshold 950. *)
Definition initial_controls (v : view) : controls :=
  {| sl_batch := 0; sl_head := replicate (vL v) 0%nat;
     sl_thresh := replicate (vL v) 950 |}.

(** The script block run once: the bars are created with width 0 and
    filled by [updateRedFills()], the groups are created empty and filled
    by [updateAllThresh()]; the chain is empty and no row is pinned. *)
Definition load (v : view) : option page :=
  let st := initial_controls v in
  red ← updateRedFills v st;
  groups ← updateAllThresh v st (replicate (vL v) empty_group);
  Some {| p_controls := st; p_chain := []; p_hlRects := []; p_segments := [];
          p_threshGroups := groups; p_redRects := red;
          p_pinnedIdx := None; p_searchValue := "" |}.

(** [extend(col, idx)] *)
Definition extend (v : view) (p : page) (col idx : nat) : option page :=
  prev ← last (p_chain p);
  let n := {| col := col; idx := idx |} in
  s ← drawSegment v (p_controls p) (Visualizer.col prev) (Visualizer.idx prev) idx;
  Some {| p_controls := p_controls p;
          p_chain := p_chain p ++ [n];
          p_hlRects := p_hlRects p ++ [n];
          p_segments := p_segments p ++ [s];
          p_threshGroups := p_threshGroups p; p_redRects := p_redRects p;
          p_pinnedIdx := p_pinnedIdx p; p_searchValue := p_searchValue p |}.

(** [truncateFrom(pos)] *)
Definition truncateFrom (p : page) (pos : nat) : page :=
  let segCut := Nat.max 0 (pos - 1)%nat in
  {| p_controls := p_controls p;
     p_chain := take pos (p_chain p);
     p_hlRects := take pos (p_hlRects p);
     p_segments := take segCut (p_segments p);
     p_threshGroups := p_threshGroups p; p_redRects := p_redRects p;
     p_pinnedIdx := p_pinnedIdx p; p_searchValue := p_searchValue p |}.

(** The first block of [replaceAt]: [if (pos > 0)], redraw the segment
    arriving at the replaced element. *)
Definition replace_incoming (v : view) (p : page) (pos idx : nat)
    : option (list seg_art) :=
  if (0 <? pos)%nat then
    _ ← p_segments p !! (pos - 1)%nat;             (* segments[pos - 1].forEach *)
    a ← p_chain p !! (pos - 1)%nat;
    s ← drawSegment v (p_controls p) (col a) (Visualizer.idx a) idx;
    Some (<[(pos - 1)%nat := s]> (p_segments p))
  else Some (p_segments p).

(** The second block: [if (pos < chain.length - 1)], redraw the segment
    leaving the replaced element. *)
Definition replace_outgoing (v : view) (p : page) (segments : list seg_art)
    (pos col idx : nat) : option (list seg_art) :=
  if (pos <? length (p_chain p) - 1)%nat then
    _ ← segments !! pos;                           (* segments[pos].forEach *)
    b ← p_chain p !! (pos + 1)%nat;
    s ← drawSegment v (p_controls p) col idx (Visualizer.idx b);
    Some (<[pos := s]> segments)
  else Some segments.

(** [replaceAt(pos, col, idx)]; its one call site passes a [pos] below
    [chain.length], where the assignment [chain[pos] = ...] overwrites. *)
Definition replaceAt (v : view) (p : page) (pos col idx : nat) : option page :=
  let n := {| col := col; idx := idx |} in
  _ ← p_hlRects p !! pos;                          (* hlRects[pos].remove() *)
  let hlRects := <[pos := n]> (p_hlRects p) in
  segments ← replace_incoming v p pos idx;
  segments ← replace_outgoing v p segments pos col idx;
  Some {| p_controls := p_controls p;
          p_chain := <[pos := n]> (p_chain p);
          p_hlRects := hlRects;
          p_segments := segments;
          p_threshGroups := p_threshGroups p; p_redRects := p_redRects p;
          p_pinnedIdx := p_pinnedIdx p; p_searchValue := p_searchValue p |}.

(** [clearChain()] *)
Definition clearChain (p : page) : page :=
  {| p_controls := p_controls p;
     p_chain := []; p_hlRects := []; p_segments := [];
     p_threshGroups := p_threshGroups p; p_redRects := p_redRects p;
     p_pinnedIdx := p_pinnedIdx p; p_searchValue := p_searchValue p |}.

(** [chain.push({ col, idx }); hlRects.push(makeHL(col, idx));], the two
    statements that start a chain. *)
Definition start (p : page) (col idx : nat) : page :=
  let n := {| col := col; idx := idx |} in
  {| p_controls := p_controls p;
     p_chain := p_chain p ++ [n]; p_hlRects := p_hlRects p ++ [n];
     p_segments := p_segments p;
     p_threshGroups := p_threshGroups p; p_redRects := p_redRects p;
     p_pinnedIdx := p_pinnedIdx p; p_searchValue := p_searchValue p |}.

(** The node branch of the click handler. *)
Definition click_node (v : view) (p : page) (col idx : nat) : option page :=
  match p_chain p with
  | [] => Some (start p col idx)
  | first :: _ =>
      let chain := p_chain p in
      let startCol := Visualizer.col first in
      let pos := Z.of_nat col - Z.of_nat startCol in
      let lastCol := Visualizer.col (List.last chain first) in
      if (pos =? Z.of_nat (length chain)) && (lastCol <? vL v)%nat then
        extend v p col idx
      else if (0 <=? pos) && (pos <? Z.of_nat (length chain)) then
        e ← chain !! Z.to_nat pos;
        if (Visualizer.idx e =? idx)%nat then Some (truncateFrom p (Z.to_nat pos))
        else replaceAt v p (Z.to_nat pos) col idx
      else Some (start (clearChain p) col idx)
  end.

(** [svgEl.addEventListener('click', ...)] *)
Definition on_click (v : view) (p : page) (t : target) : option page :=
  match t with
  | NameBar idx =>
      Some {| p_controls := p_controls p; p_chain := p_chain p;
              p_hlRects := p_hlRects p; p_segments := p_segments p;
              p_threshGroups := p_threshGroups p; p_redRects := p_redRects p;
              p_pinnedIdx :=
                if bool_decide (p_pinnedIdx p = Some idx) then None else Some idx;
              p_searchValue :=
                if bool_decide (p_pinnedIdx p = Some idx) then ""
                else default "undefined" (ids v !! idx) |}
  | Node col idx => click_node v p col idx
  | Other => Some p
  end.

(** The [input] handler of the batch slider, moved to [b]. *)
Definition on_batch (v : view) (p : page) (b : nat) : option page :=
  let st := {| sl_batch := b; sl_head := sl_head (p_controls p);
               sl_thresh := sl_thresh (p_controls p) |} in
  red ← updateRedFills v st;
  groups ← updateAllThresh v st (p_threshGroups p);
  segments ← redrawAllSegments v st (p_chain p) (p_segments p);
  Some {| p_controls := st; p_chain := p_chain p; p_hlRects := p_hlRects p;
          p_segments := segments; p_threshGroups := groups; p_redRects := red;
          p_pinnedIdx := p_pinnedIdx p; p_searchValue := p_searchValue p |}.

(** The [input] handler of the head slider of [layer], moved to [h]. *)
Definition on_head (v : view) (p : page) (layer h : nat) : option page :=
  let st := {| sl_batch := sl_batch (p_controls p);
               sl_head := <[layer := h]> (sl_head (p_controls p));
               sl_thresh := sl_thresh (p_controls p) |} in
  g ← drawThreshLines v st layer;
  segments ← redrawSegmentsForLayer v st (p_chain p) (p_segments p) layer;
  Some {| p_controls := st; p_chain := p_chain p; p_hlRects := p_hlRects p;
          p_segments := segments;
          p_threshGroups := <[layer := g]> (p_threshGroups p);
          p_redRects := p_redRects p;
          p_pinnedIdx := p_pinnedIdx p; p_searchValue := p_searchValue p |}.

(** The [input] handler of the threshold slider of [layer], moved to [s]. *)
Definition on_thresh (v : view) (p : page) (layer : nat) (s : Z) : option page :=
  let st := {| sl_batch := sl_batch (p_controls p);
               sl_head := sl_head (p_controls p);
               sl_thresh := <[layer := s]> (sl_thresh (p_controls p)) |} in
  g ← drawThreshLines v st layer;
  Some {| p_controls := st; p_chain := p_chain p; p_hlRects := p_hlRects p;
          p_segments := p_segments p;
          p_threshGroups := <[layer := g]> (p_threshGroups p);
          p_redRects := p_redRects p;
          p_pinnedIdx := p_pinnedIdx p; p_searchValue := p_searchValue p |}.

(** What the user does. *)
Inductive event : Type :=
| BatchInput (b : nat)
| HeadInput (layer h : nat)
| ThreshInput (layer : nat) (s : Z)
| Click (t : target).

Definition handle (v : view) (p : page) (e : event) : option page :=
  match e with
  | BatchInput b => on_batch v p b
  | HeadInput layer h => on_head v p layer h
  | ThreshInput layer s => on_thresh v p layer s
  | Click t => on_click v p t
  end.

(** The page after the script has loaded and the events have been handled
    one after the other. *)
Definition run (v : view) (es : list event) : option page :=
  p ← load v;
  js_for (handle v) p es.

(** The part of the page the chain-only model tracks. *)
Definition ui_of (p : page) : ui :=
  {| chain := p_chain p; pinnedIdx := p_pinnedIdx p;
     searchValue := p_searchValue p |}.

(** The clicks among the events. *)
Definition clicks_of (es : list event) : list target :=
  omap (λ e, match e with Click t => Some t | _ => None end) es.

End Page.

(** ** Predicates on views, sliders and events *)

(** Every matrix a slider position can select exists and is [N]-by-[N]
    and finite, every batch has a bounds row, and there is at least one
    batch and one head. *)
Definition view_ok (v : view) : Prop :=
  (0 < vB v)%nat ∧ (0 < vH v)%nat ∧
  (∀ l b h, (l < vL v)%nat → (b < vB v)%nat → (h < vH v)%nat →
     ∃ layer slab m, attnData v !! l = Some layer ∧ layer !! b = Some slab ∧
                     slab !! h = Some m ∧ square_finite (vN v) m) ∧
  (∀ b, (b < vB v)%nat → is_Some (boundsData v !! b)).

(** The slider values are within the sliders' ranges. *)
Definition controls_ok (v : view) (st : controls) : Prop :=
  (sl_batch st < vB v)%nat ∧
  length (sl_head st) = vL v ∧ Forall (λ h, (h < vH v)%nat) (sl_head st) ∧
  length (sl_thresh st) = vL v.

(** An event the rendered page can produce. *)
Definition event_ok (v : view) (e : Page.event) : Prop :=
  match e with
  | Page.BatchInput b => (b < vB v)%nat
  | Page.HeadInput l h => (l < vL v)%nat ∧ (h < vH v)%nat
  | Page.ThreshInput l s => (l < vL v)%nat
  | Page.Click (Node c i) => (c ≤ vL v)%nat ∧ (i < vN v)%nat
  | Page.Click _ => True
  end.

(** The pair of chain elements segment [i] connects. *)
Definition link_at (chain : list node) (i : nat) : option (node * node) :=
  a ← chain !! i; b ← chain !! S i; Some (a, b).

(** Every chain element is a node of the graph. *)
Definition nodes_ok (v : view) (chain : list node) : Prop :=
  Forall (λ n, (col n ≤ vL v)%nat ∧ (idx n < vN v)%nat) chain.

(** There is one segment per pair of consecutive chain elements, and it is
    the one [makeSegment] draws for that pair at the slider values [st]. *)
Definition segments_ok (v : view) (st : controls) (chain : list node)
    (segments : list Page.seg_art) : Prop :=
  ∀ i, segments !! i
       = link_at chain i ≫= λ '(a, b), Page.drawSegment v st (col a) (idx a) (idx b).

(** There is one group per layer, and it holds what [updateThreshLines]
    draws for that layer at the slider values [st]. *)
Definition groups_ok (v : view) (st : controls) (groups : list Page.group) : Prop :=
  length groups = vL v ∧
  ∀ l, (l < vL v)%nat → groups !! l = Page.drawThreshLines v st l.

(** Every artifact is what a full redraw from the current slider values and
    chain would draw. *)
Definition in_sync (v : view) (p : Page.page) : Prop :=
  let st := Page.p_controls p in
  controls_ok v st ∧
  nodes_ok v (Page.p_chain p) ∧
  chain_ok v (Page.p_chain p) ∧
  Page.p_hlRects p = Page.p_chain p ∧
  segments_ok v st (Page.p_chain p) (Page.p_segments p) ∧
  groups_ok v st (Page.p_threshGroups p) ∧
  Some (Page.p_redRects p) = updateRedFills v st.

(** The page of [Sample.the_view] after one click on node 1 of column 0. *)
Definition sample_page : Page.page :=
  default
    {| Page.p_controls := Page.initial_controls Sample.the_view;
       Page.p_chain := []; Page.p_hlRects := []; Page.p_segments := [];
       Page.p_threshGroups := []; Page.p_redRects := [];
       Page.p_pinnedIdx := None; Page.p_searchValue := "" |}
    (Page.run Sample.the_view [Page.Click (Node 0 1)]).

(** ** The script: the search dropdown under the keyboard

    [renderDropdown] fills the dropdown with one [div[data-idx]] per match;
    the [keydown] handler of the search box moves the class [kb-active]
    over these items and selects one on [Enter]. *)

Module Dropdown.

(** One item of the dropdown: the row it stands for ([dataset.idx]) and
    whether it carries the class [kb-active]. *)
Record item : Type := { it_idx : nat; kb_active : bool }.

(** The search box: what the click handler also updates, the items of the
    dropdown and whether the dropdown is displayed. *)
Record box : Type := { b_ui : ui; b_items : list item; b_open : bool }.

(** [renderDropdown(matches)] *)
Definition renderDropdown (s : box) (matches : list scored) : box :=
  {| b_ui := b_ui s;
     b_items := map (λ m, {| it_idx := s_idx m; kb_active := false |}) matches;
     b_open := negb (length matches =? 0)%nat |}.

(** [selectResult(idx)]; the scroll position is not modelled. *)
Definition selectResult (v : view) (s : box) (idx : nat) : box :=
  {| b_ui := pinRow v (b_ui s) idx; b_items := b_items s; b_open := false |}.

(** [dropdown.querySelector('.kb-active')]: the first active item. *)
Fixpoint first_active (items : list item) : option nat :=
  match items with
  | [] => None
  | it :: rest => if kb_active it then Some 0%nat else S <$> first_active rest
  end.

(** [let ai = -1; items.forEach((it, i) => { if (...) ai = i; })]: the last
    active item. *)
Definition last_active (items : list item) : Z :=
  fold_left (λ ai '(i, it), if kb_active it then Z.of_nat i else ai)
            (zip (seq 0 (length items)) items) (-1).

Definition set_active (b : bool) (it : item) : item :=
  {| it_idx := it_idx it; kb_active := b |}.

(** [if (activeItem) activeItem.classList.remove('kb-active')] *)
Definition remove_active (items : list item) : list item :=
  match first_active items with
  | Some k => alter (set_active false) k items
  | None => items
  end.

Inductive key : Type := ArrowDown | ArrowUp | Enter | Escape | OtherKey.

(** The [keydown] handler of the search box. *)
Definition keydown (v : view) (s : box) (k : key) : box :=
  let items := b_items s in
  let len := Z.of_nat (length items) in
  if (length items =? 0)%nat then s
  else
    let ai := last_active items in
    match k with
    | ArrowDown =>
        let ai := (ai + 1) `mod` len in
        {| b_ui := b_ui s;
           b_items := alter (set_active true) (Z.to_nat ai) (remove_active items);
           b_open := b_open s |}
    | ArrowUp =>
        let ai := if ai <=? 0 then len - 1 else ai - 1 in
        {| b_ui := b_ui s;
           b_items := alter (set_active true) (Z.to_nat ai) (remove_active items);
           b_open := b_open s |}
    | Enter =>
        if 0 <=? ai then
          match items !! Z.to_nat ai with
          | Some it => selectResult v s (it_idx it)
          | None => s
          end
        else
          match items !! 0%nat with
          | Some it => selectResult v s (it_idx it)
          | None => s
          end
    | Escape => {| b_ui := b_ui s; b_items := items; b_open := false |}
    | OtherKey => s
    end.

(** The handler run over a sequence of keys. *)
Definition keys (v : view) (s : box) (ks : list key) : box :=
  fold_left (keydown v) ks s.

End Dropdown.

(** Exactly the item at position [a] is highlighted, none if [a] is
    [None]. *)
Definition highlighted (items : list Dropdown.item) (a : option nat) : Prop :=
  ∀ k it, items !! k = Some it →
    Dropdown.kb_active it = bool_decide (a = Some k).

(** The position one step down, wrapping to the top. *)
Definition next_pos (n : nat) (a : option nat) : nat :=
  match a with
  | None => 0
  | Some k => (S k) mod n
  end.

(** The position one step up, wrapping to the bottom. *)
Definition prev_pos (n : nat) (a : option nat) : nat :=
  match a with
  | None | Some O => n - 1
  | Some (S k) => k
  end.

(** The highlighted position seen from the second item on. *)
Definition tail_pos (a : option nat) : option nat :=
  match a with
  | Some (S k) => Some k
  | _ => None
  end.

(** ** The size estimate

    [estimate_file_size(N, B, H, L, fp16)] on integers.  The function
    prints its figures and returns [total]; the last figure printed divides
    by [B], so with [B = 0] the call raises [ZeroDivisionError] before it
    returns, which is [None] here. *)
Definition estimate_file_size (N B H L : Z) (fp16 : bool) : option Z :=
  let bpf := if fp16 then 2 else 4 in
  let header_est := 500 + N * 20 in
  let bounds := B * N * 4 in
  let layers := L * B * H * N * N * bpf in
  let total := 4 + header_est + bounds + layers in
  if B =? 0 then None else Some total.

(** The bytes of a file after its header: four per element of the bounds
    block ([float32]) and two or four per element of a layer block. *)
Definition payload_bytes (fp16 : bool) (a : attnbin) : Z :=
  4 * Z.of_nat (length (a_bounds a))
  + (if fp16 then 2 else 4) * Z.of_nat (sum_list (map length (a_layers a))).
(* ===================================================================== *)
(** * Part II: properties                                                 *)
(* ===================================================================== *)

(** ** Sample runs *)

Example sample_view_builds :
  show_attention_graph Sample.ids Sample.names [Sample.layer0] Sample.bounds 8 1
  = Ok Sample.the_view.
Proof. reflexivity. Qed.

Example sample_colX : colX Sample.the_view = [230; 405].
Proof. reflexivity. Qed.

Example sample_yPos : yPos Sample.the_view = [50; 59; 68].
Proof. reflexivity. Qed.

(** ** Layout geometry *)

Section Layout.

Lemma py_colX_lookup (L c : nat) :
  (c ≤ L)%nat → py_colX L !! c = Some (py_col0_x + Z.of_nat c * py_colSpacing).
Proof.
  intros Hc. unfold py_colX.
  rewrite list_lookup_fmap, lookup_seq_lt by lia. reflexivity.
Qed.

Lemma show_attention_graph_layout ids0 names tensors bounds node_h gap0 v :
  show_attention_graph ids0 names tensors bounds node_h gap0 = Ok v →
  colX v = py_colX (length tensors) ∧ vL v = length tensors ∧
  topPad v = py_topPad ∧ nodeH v = node_h ∧ gap v = gap0 ∧
  nameBlockW v = py_nameBlockW ∧ nameBlockX v = py_nameBlockX ∧
  vN v = length ids0.
Proof.
  unfold show_attention_graph. intros H.
  destruct (list_get tensors 0) as [t0|]; simpl in H; [|discriminate].
  destruct (unpack4 (shape t0)) as [[[B H0] N]|]; simpl in H; [|discriminate].
  destruct (N =? length ids0)%nat eqn:EN; simpl in H; [|discriminate].
  destruct (shape_eqb (shape bounds) [B; N]); simpl in H; [|discriminate].
  inversion H; subst; simpl. apply Nat.eqb_eq in EN. tauto.
Qed.

(** C8, as stated, fails: the first column does not start at
    [nameBlockW + guideGap = 225] but at [230], because the left margin
    [nameBlockX = 5] of the name block is added as well. *)
Lemma layout_colX0_counterexample :
  ¬ (colX Sample.the_view !! 0%nat = Some (py_nameBlockW + py_guideGap)).
Proof. vm_compute. intros H. discriminate H. Qed.

(** C8 (amended): in the view built by [show_attention_graph], row [i] of
    the [N] rows sits at [yPos[i] = topPad + i * (nodeHeight + rowGap)], and
    column [c] of the [L + 1] columns at [colX[c] = colX[0] + c * colSpacing]
    with [colX[0] = nameBlockX + nameBlockW + guideGap]; the geometry depends
    on the data set only through [N] and [L]. *)
Theorem layout_geometry ids0 names tensors bounds node_h gap0 v :
  show_attention_graph ids0 names tensors bounds node_h gap0 = Ok v →
  length (yPos v) = length ids0 ∧
  (∀ i : nat, (i < length ids0)%nat →
     yPos v !! i = Some (py_topPad + Z.of_nat i * (node_h + gap0))) ∧
  length (colX v) = S (length tensors) ∧
  colX v !! 0%nat = Some (py_nameBlockX + py_nameBlockW + py_guideGap) ∧
  (∀ c : nat, (c ≤ length tensors)%nat →
     colX v !! c =
       Some ((py_nameBlockX + py_nameBlockW + py_guideGap)
             + Z.of_nat c * py_colSpacing)).
Proof.
  intros H.
  destruct (show_attention_graph_layout _ _ _ _ _ _ _ H)
    as (HX & HL & HT & HH & HG & _ & _ & HN).
  unfold yPos. rewrite HT, HH, HG, HN, HX.
  split; [by rewrite length_fmap, length_seq|].
  split.
  { intros i Hi. rewrite list_lookup_fmap, lookup_seq_lt by lia. reflexivity. }
  split; [unfold py_colX; rewrite length_fmap, length_seq; lia|].
  split.
  { rewrite py_colX_lookup by lia. reflexivity. }
  intros c Hc. rewrite py_colX_lookup by lia. reflexivity.
Qed.

Lemma layout_geometry_witness :
  show_attention_graph Sample.ids Sample.names [Sample.layer0] Sample.bounds 8 1
    = Ok Sample.the_view ∧
  colX Sample.the_view !! 1%nat = Some 405.
Proof.
  split; [reflexivity|].
  exact (proj2 (proj2 (proj2 (proj2
    (layout_geometry Sample.ids Sample.names [Sample.layer0] Sample.bounds 8 1
       Sample.the_view eq_refl)))) 1%nat (le_n 1)).
Defined.

End Layout.

(** ** The click chain *)

Section Chain.

Variable v : view.
Local Abbreviation chain_ok := (chain_ok v).

Lemma chain_ok_nil : chain_ok [].
Proof. intros first H. discriminate H. Qed.

Lemma chain_ok_singleton c i :
  (c ≤ vL v)%nat → chain_ok [{| col := c; idx := i |}].
Proof.
  intros Hc first [= <-]. split; [reflexivity | exact Hc].
Qed.

Lemma contiguous_extend start ch c i :
  contiguous_from start ch → c = (start + length ch)%nat →
  contiguous_from start (extend ch c i).
Proof.
  unfold contiguous_from, extend. intros H ->.
  rewrite map_app, length_app, H. simpl.
  rewrite Nat.add_1_r, seq_S. reflexivity.
Qed.

Lemma contiguous_truncate start ch pos :
  contiguous_from start ch → contiguous_from start (truncateFrom ch pos).
Proof.
  unfold contiguous_from, truncateFrom. intros H.
  rewrite <- firstn_map, length_take, H, take_seq. reflexivity.
Qed.

Lemma contiguous_replace start ch pos c i :
  contiguous_from start ch → (pos < length ch)%nat → c = (start + pos)%nat →
  contiguous_from start (replaceAt ch pos c i).
Proof.
  unfold contiguous_from, replaceAt. intros H Hpos ->.
  rewrite length_insert.
  change (map col (<[pos:={| col := (start + pos)%nat; idx := i |}]> ch))
    with (col <$> <[pos:={| col := (start + pos)%nat; idx := i |}]> ch).
  rewrite list_fmap_insert. simpl.
  change (col <$> ch) with (map col ch). rewrite H.
  apply list_insert_id. apply lookup_seq_lt. exact Hpos.
Qed.

Lemma click_node_ok ch c i :
  (c ≤ vL v)%nat → chain_ok ch → chain_ok (click_node v ch c i).
Proof.
  intros Hc Hok. unfold click_node.
  destruct ch as [|first rest]; [by apply chain_ok_singleton|].
  destruct (Hok first eq_refl) as [Hcont Hstart].
  set (ch := first :: rest) in *.
  destruct ((Z.of_nat c - Z.of_nat (col first) =? Z.of_nat (length ch))
            && (col (List.last ch first) <? vL v)%nat) eqn:E1.
  { apply andb_true_iff in E1 as [Epos _]. apply Z.eqb_eq in Epos.
    intros f Hf. simpl in Hf. injection Hf as <-.
    split; [|exact Hstart].
    apply contiguous_extend; [exact Hcont | lia]. }
  destruct ((0 <=? Z.of_nat c - Z.of_nat (col first))
            && (Z.of_nat c - Z.of_nat (col first) <? Z.of_nat (length ch))) eqn:E2;
    [|by apply chain_ok_singleton].
  apply andb_true_iff in E2 as [E0 Elt].
  apply Z.leb_le in E0. apply Z.ltb_lt in Elt.
  set (pos := Z.to_nat (Z.of_nat c - Z.of_nat (col first))).
  assert (Hpos : (pos < length ch)%nat) by (unfold pos; lia).
  destruct (ch !! pos) as [e|] eqn:Ee; [|exact Hok].
  destruct (idx e =? i)%nat.
  - intros f Hf. destruct pos as [|pos']; [discriminate Hf|].
    simpl in Hf. injection Hf as <-.
    split; [|exact Hstart]. by apply contiguous_truncate.
  - intros f Hf.
    assert (Hc' : c = (col first + pos)%nat) by (unfold pos; lia).
    destruct pos as [|pos'].
    + simpl in Hf. injection Hf as <-. simpl.
      assert (c = col first) as -> by lia.
      split; [|exact Hstart].
      apply (contiguous_replace (col first) ch 0 (col first) i Hcont Hpos). lia.
    + simpl in Hf. injection Hf as <-.
      split; [|exact Hstart].
      by apply contiguous_replace.
Qed.

Lemma clicks_chain_ok ts s :
  (∀ c i, Node c i ∈ ts → (c ≤ vL v)%nat) →
  chain_ok (chain s) → chain_ok (chain (clicks v s ts)).
Proof.
  revert s. induction ts as [|t ts IH]; intros s Hts Hok; [exact Hok|].
  unfold clicks. simpl. apply IH.
  - intros c i Hin. apply (Hts c i). by right.
  - destruct t as [nbar|c i|]; simpl; [|apply click_node_ok; [|exact Hok]|exact Hok].
    + by destruct (bool_decide (pinnedIdx s = Some nbar)).
    + apply (Hts c i). by left.
Qed.

(** C2: after any sequence of clicks, each node click landing on one of the
    columns [0..L], the chain's [i]-th element sits in column
    [chain[0].col + i], and [chain[0].col <= L]. *)
Theorem chain_invariant (ts : list target) :
  (∀ c i, Node c i ∈ ts → (c ≤ vL v)%nat) →
  let ch := chain (clicks v initial_ui ts) in
  ∀ first, ch !! 0%nat = Some first →
    (∀ i e, ch !! i = Some e → col e = (col first + i)%nat) ∧
    (col first ≤ vL v)%nat.
Proof.
  intros Hts ch first Hfirst.
  assert (Hok : chain_ok ch) by (apply clicks_chain_ok; [exact Hts | apply chain_ok_nil]).
  destruct (Hok first) as [Hcont Hstart].
  { rewrite <- Hfirst. by destruct ch. }
  split; [|exact Hstart].
  intros i e He. unfold contiguous_from in Hcont.
  assert (Hi : (i < length ch)%nat) by (eapply lookup_lt_Some; exact He).
  assert (Hm : map col ch !! i = Some (col e)).
  { change (map col ch) with (col <$> ch). by rewrite list_lookup_fmap, He. }
  rewrite Hcont, lookup_seq_lt in Hm by exact Hi. by injection Hm.
Qed.

End Chain.

Lemma chain_invariant_witness :
  let ts := [Node 0 1; Node 1 2; Node 1 0; Other; NameBar 2] in
  (∀ c i, Node c i ∈ ts → (c ≤ vL Sample.the_view)%nat) ∧
  chain (clicks Sample.the_view initial_ui ts)
    = [{| col := 0; idx := 1 |}; {| col := 1; idx := 0 |}] ∧
  ∀ i e, chain (clicks Sample.the_view initial_ui ts) !! i = Some e →
         col e = (0 + i)%nat.
Proof.
  assert (H : ∀ c i,
    Node c i ∈ [Node 0 1; Node 1 2; Node 1 0; Other; NameBar 2] →
    (c ≤ vL Sample.the_view)%nat).
  { intros c i Hin. change (vL Sample.the_view) with 1%nat.
    repeat (apply elem_of_cons in Hin as [Hin|Hin];
            [first [injection Hin as -> _; lia | discriminate Hin]|]).
    by apply elem_of_nil in Hin. }
  split; [exact H|]. split; [reflexivity|].
  exact (proj1 (chain_invariant Sample.the_view _ H
                  {| col := 0; idx := 1 |} eq_refl)).
Defined.

(** ** [Array.prototype.sort] *)

Section Sort.

Context {A : Type} (cmp : A → A → comparison).

Local Abbreviation cmp_le := (cmp_le cmp).

Lemma sort_insert_perm x l : Permutation (JS.sort_insert cmp x l) (x :: l).
Proof.
  induction l as [|y l IH]; simpl; [reflexivity|].
  destruct (cmp x y); try reflexivity.
  rewrite IH. apply perm_swap.
Qed.

Lemma sort_perm l : Permutation (JS.sort cmp l) l.
Proof.
  induction l as [|x l IH]; simpl; [reflexivity|].
  rewrite sort_insert_perm. by constructor.
Qed.

Lemma sort_length l : length (JS.sort cmp l) = length l.
Proof. apply Permutation_length, sort_perm. Qed.

Lemma sort_elem_of l x : x ∈ JS.sort cmp l ↔ x ∈ l.
Proof. by rewrite (sort_perm l). Qed.

(** On elements satisfying [P] the comparator is a total preorder. *)
Variable P : A → Prop.
Hypothesis cmp_total : ∀ a b, P a → P b → cmp a b = Gt → cmp_le b a.
Hypothesis cmp_trans :
  ∀ a b c, P a → P b → P c → cmp_le a b → cmp_le b c → cmp_le a c.

Lemma sort_insert_sorted x l :
  P x → Forall P l → StronglySorted cmp_le l →
  StronglySorted cmp_le (JS.sort_insert cmp x l).
Proof.
  intros Hx HP Hs. induction l as [|y l IH]; simpl.
  { repeat constructor. }
  apply Forall_cons in HP as [Hy HP].
  apply StronglySorted_inv in Hs as [Hs Hyl].
  destruct (cmp x y) eqn:E.
  - constructor; [by constructor|].
    constructor; [unfold cmp_le; congruence|].
    rewrite Forall_forall in Hyl, HP. apply Forall_forall. intros z Hz.
    apply (cmp_trans x y z); auto. unfold cmp_le; congruence.
  - constructor; [by constructor|].
    constructor; [unfold cmp_le; congruence|].
    rewrite Forall_forall in Hyl, HP. apply Forall_forall. intros z Hz.
    apply (cmp_trans x y z); auto. unfold cmp_le; congruence.
  - constructor; [by apply IH|].
    apply Forall_forall. intros z Hz.
    rewrite (sort_insert_perm x l) in Hz.
    apply elem_of_cons in Hz as [->|Hz].
    + by apply cmp_total.
    + rewrite Forall_forall in Hyl. by apply Hyl.
Qed.

Lemma sort_sorted l : Forall P l → StronglySorted cmp_le (JS.sort cmp l).
Proof.
  induction l as [|x l IH]; intros HP; simpl; [constructor|].
  apply Forall_cons in HP as [Hx HP].
  apply sort_insert_sorted; [exact Hx| |by apply IH].
  apply Forall_forall. intros z Hz. rewrite Forall_forall in HP. apply HP.
  by rewrite (sort_perm l) in Hz.
Qed.

End Sort.

(** Positions in a strongly sorted list respect the order. *)
Lemma StronglySorted_lookup {A} (R : A → A → Prop) (l : list A) i j a b :
  StronglySorted R l → (i < j)%nat → l !! i = Some a → l !! j = Some b → R a b.
Proof.
  intros Hs. revert i j. induction Hs as [|x l Hs IH Hx]; intros i j Hij Ha Hb.
  { by rewrite lookup_nil in Ha. }
  destruct j as [|j]; [lia|]. simpl in Hb.
  destruct i as [|i]; simpl in Ha.
  - injection Ha as ->. rewrite Forall_forall in Hx. apply Hx.
    by eapply list_elem_of_lookup_2.
  - apply (IH i j); [lia|done|done].
Qed.

(** Every element kept by [slice(0, n)] precedes every element dropped. *)
Lemma slice0_keeps_front {A} (R : A → A → Prop) (l : list A) n a b :
  StronglySorted R l → a ∈ JS.slice0 n l → b ∈ drop n l → R a b.
Proof.
  intros Hs Ha Hb. unfold JS.slice0 in Ha.
  apply list_elem_of_lookup in Ha as [i Hi].
  apply list_elem_of_lookup in Hb as [j Hj].
  assert (Hin : (i < n)%nat).
  { apply lookup_lt_Some in Hi. rewrite length_take in Hi. lia. }
  rewrite lookup_take_lt in Hi by exact Hin. rewrite lookup_drop in Hj.
  apply (StronglySorted_lookup R l i (n + j) a b); [done|lia|done|done].
Qed.

(** ** Search *)

Section SearchProps.

Context {lower : Lowercase}.
Variable v : view.
Hypothesis ids_length : length (ids v) = vN v.
Hypothesis fullNames_length : length (fullNames v) = vN v.

Lemma score_of_rank_score q i id name :
  ids v !! i = Some id → fullNames v !! i = Some name →
  score_of v q i
  = Some (default (-1) (rank_score (toLowerCase id) (toLowerCase name) q)).
Proof.
  intros Hid Hname. unfold score_of, rank_score, idsLower, fullNamesLower.
  rewrite !list_lookup_fmap, Hid, Hname. simpl.
  destruct (startsWith (toLowerCase id) q); [done|].
  destruct (includes (toLowerCase id) q); [done|].
  by destruct (includes (toLowerCase name) q).
Qed.

Lemma score_of_defined q i : (i < vN v)%nat → is_Some (score_of v q i).
Proof.
  intros Hi.
  destruct (lookup_lt_is_Some_2 (ids v) i) as [id Hid]; [lia|].
  destruct (lookup_lt_is_Some_2 (fullNames v) i) as [name Hname]; [lia|].
  rewrite (score_of_rank_score q i id name Hid Hname). eauto.
Qed.

Lemma search_loop q xs acc :
  (∀ i, i ∈ xs → (i < vN v)%nat) →
  js_for (λ scored i,
      score_of v q i ≫= λ score,
      Some (if 0 <? score
            then scored ++ [{| s_idx := i; s_score := score |}]
            else scored)) acc xs
  = Some (acc ++ search_candidates v q xs).
Proof.
  revert acc. induction xs as [|x xs IH]; intros acc Hxs; simpl.
  { by rewrite app_nil_r. }
  destruct (score_of_defined q x) as [sc Hsc]; [apply Hxs; by left|].
  unfold search_candidates. simpl. rewrite Hsc. simpl.
  rewrite IH by (intros i Hi; apply Hxs; by right).
  unfold search_candidates.
  destruct (0 <? sc); simpl; [by rewrite <- app_assoc | done].
Qed.

Lemma search_candidates_elem q xs i sc :
  (∀ i, i ∈ xs → (i < vN v)%nat) →
  {| s_idx := i; s_score := sc |} ∈ search_candidates v q xs ↔
  i ∈ xs ∧ ∃ id name, ids v !! i = Some id ∧ fullNames v !! i = Some name ∧
    rank_score (toLowerCase id) (toLowerCase name) q = Some sc.
Proof.
  intros Hxs. unfold search_candidates. rewrite list_elem_of_omap. split.
  - intros (j & Hj & Hf).
    destruct (lookup_lt_is_Some_2 (ids v) j) as [id Hid]; [apply Hxs in Hj; lia|].
    destruct (lookup_lt_is_Some_2 (fullNames v) j) as [name Hname];
      [apply Hxs in Hj; lia|].
    rewrite (score_of_rank_score q j id name Hid Hname) in Hf. simpl in Hf.
    destruct (0 <? default (-1) (rank_score _ _ q)) eqn:E; [|discriminate].
    injection Hf as -> Hsc. split; [done|]. exists id, name.
    repeat split; try done.
    unfold rank_score in *.
    destruct (startsWith _ q); [by simpl in Hsc; subst|].
    destruct (includes (toLowerCase id) q); [by simpl in Hsc; subst|].
    destruct (includes (toLowerCase name) q); [by simpl in Hsc; subst|].
    simpl in E. discriminate.
  - intros (Hi & id & name & Hid & Hname & Hsc). exists i. split; [done|].
    rewrite (score_of_rank_score q i id name Hid Hname), Hsc. simpl.
    assert (0 < sc) as ->%Z.ltb_lt; [|done].
    unfold rank_score in Hsc.
    repeat (match type of Hsc with (if ?b then _ else _) = _ => destruct b end);
      inversion Hsc; lia.
Qed.

Lemma search_candidates_idx q xs a :
  a ∈ search_candidates v q xs → s_idx a ∈ xs.
Proof.
  unfold search_candidates. rewrite list_elem_of_omap.
  intros (j & Hj & Hf). destruct (score_of v q j) as [sc|]; [|discriminate].
  simpl in Hf. destruct (0 <? sc); [|discriminate]. by injection Hf as <-.
Qed.

Lemma search_candidates_NoDup q xs :
  NoDup xs → NoDup (s_idx <$> search_candidates v q xs).
Proof.
  induction 1 as [|x xs Hx Hnd IH]; [constructor|].
  unfold search_candidates. simpl.
  destruct (score_of v q x ≫= _) as [y|] eqn:E; [|exact IH].
  simpl. constructor; [|exact IH].
  assert (s_idx y = x) as ->.
  { destruct (score_of v q x) as [sc|]; [|discriminate]. simpl in E.
    destruct (0 <? sc); [|discriminate]. by injection E as <-. }
  intros Hin. apply list_elem_of_fmap in Hin as (a & -> & Ha).
  by apply search_candidates_idx in Ha.
Qed.

Lemma by_score_then_idx_total a b :
  by_score_then_idx a b = Gt → cmp_le by_score_then_idx b a.
Proof.
  unfold cmp_le, by_score_then_idx.
  destruct (Z.compare_spec (s_score b - s_score a) 0);
    destruct (Z.compare_spec (s_score a - s_score b) 0); try lia; try done.
  - destruct (Z.compare_spec (Z.of_nat (s_idx a) - Z.of_nat (s_idx b)) 0);
      destruct (Z.compare_spec (Z.of_nat (s_idx b) - Z.of_nat (s_idx a)) 0);
      try lia; done.
Qed.

Lemma by_score_then_idx_le a b :
  cmp_le by_score_then_idx a b ↔
  s_score b < s_score a ∨ (s_score a = s_score b ∧ (s_idx a ≤ s_idx b)%nat).
Proof.
  unfold cmp_le, by_score_then_idx.
  destruct (Z.compare_spec (s_score b - s_score a) 0).
  - destruct (Z.compare_spec (Z.of_nat (s_idx a) - Z.of_nat (s_idx b)) 0);
      split; try lia; try done; intros _; right; lia.
  - split; [intros _; left; lia | done].
  - split; [done | lia].
Qed.

Lemma by_score_then_idx_trans a b c :
  cmp_le by_score_then_idx a b → cmp_le by_score_then_idx b c →
  cmp_le by_score_then_idx a c.
Proof. rewrite !by_score_then_idx_le. lia. Qed.

Lemma sorted_strict (l : list scored) :
  StronglySorted (cmp_le by_score_then_idx) l → NoDup (s_idx <$> l) →
  StronglySorted ranks_above l.
Proof.
  induction 1 as [|x l Hs IH Hx]; intros Hnd; [constructor|].
  apply NoDup_cons in Hnd as [Hx' Hnd].
  constructor; [by apply IH|].
  rewrite Forall_forall in Hx. apply Forall_forall. intros z Hz.
  specialize (Hx z Hz). apply by_score_then_idx_le in Hx.
  assert (s_idx x ≠ s_idx z).
  { intros Heq. apply Hx'. rewrite Heq. apply list_elem_of_fmap. eauto. }
  unfold ranks_above. lia.
Qed.


End SearchProps.

Example sample_search_prefix_first :
  @getMatches ascii_toLowerCase Sample.the_view "A"
  = Some [{| s_idx := 0; s_score := 3 |}; {| s_idx := 1; s_score := 1 |}].
Proof. reflexivity. Qed.

Example sample_search_case_insensitive :
  @getMatches ascii_toLowerCase Sample.the_view "LYA"
  = Some [{| s_idx := 1; s_score := 1 |}].
Proof. reflexivity. Qed.


(** ** Numbers: comparisons and arithmetic on finite values *)

Section NumFacts.

Lemma Qltb_lt p q : Qltb p q = true ↔ (p < q)%Q.
Proof.
  unfold Qltb. rewrite negb_true_iff. split.
  - intros H. apply Qnot_le_lt. intros Hle.
    apply Qle_bool_iff in Hle. congruence.
  - intros H. destruct (Qle_bool q p) eqn:E; [|done].
    apply Qle_bool_iff in E. by apply Qlt_not_le in H.
Qed.

Lemma Qltb_ge p q : Qltb p q = false ↔ (q <= p)%Q.
Proof.
  unfold Qltb. rewrite negb_false_iff. apply Qle_bool_iff.
Qed.

Lemma leb_Fin p q : leb (Fin p) (Fin q) = true ↔ (p <= q)%Q.
Proof. apply Qle_bool_iff. Qed.

Lemma ltb_Fin p q : ltb (Fin p) (Fin q) = true ↔ (p < q)%Q.
Proof. apply Qltb_lt. Qed.

Lemma ltb_Fin_false p q : ltb (Fin p) (Fin q) = false ↔ (q <= p)%Q.
Proof. apply Qltb_ge. Qed.

Lemma abs_finite x : is_finite x = true → ∃ q, JSNum.abs x = Fin q ∧ (0 <= q)%Q.
Proof.
  destruct x as [| |q|]; try discriminate. intros _.
  exists (Qabs q). split; [done | apply Qabs_nonneg].
Qed.

Lemma div_1000 s : div (of_Z s) (of_Z 1000) = Fin (inject_Z s / inject_Z 1000).
Proof. reflexivity. Qed.

(** The threshold expression on finite bounds. *)
Lemma thresh_Fin a b s :
  add (Fin a) (mul (div (of_Z s) (of_Z 1000)) (sub (Fin b) (Fin a)))
  = Fin (a + inject_Z s / inject_Z 1000 * (b + - a)).
Proof. reflexivity. Qed.

Lemma by_v_desc_le a b p q :
  e_v a = Fin p → e_v b = Fin q →
  cmp_le by_v_desc a b ↔ (q <= p)%Q.
Proof.
  intros Ha Hb. unfold cmp_le, by_v_desc. rewrite Ha, Hb. simpl.
  rewrite <- Qle_alt. split; intros H; lra.
Qed.

End NumFacts.

(** ** Loops *)

Section Loops.

(** A loop whose body never throws is a left fold. *)
Lemma js_for_fold {S A} (body : S → A → option S) (g : S → A → S) xs s :
  (∀ s x, x ∈ xs → body s x = Some (g s x)) →
  js_for body s xs = Some (fold_left g xs s).
Proof.
  revert s. induction xs as [|x xs IH]; intros s H; simpl; [done|].
  rewrite (H s x) by (by left). simpl.
  apply IH. intros s' y Hy. apply H. by right.
Qed.

Lemma cell_indices_elem N r c :
  (r, c) ∈ cell_indices N ↔ (r < N)%nat ∧ (c < N)%nat.
Proof.
  unfold cell_indices. rewrite list_elem_of_In, in_flat_map. split.
  - intros (r' & Hr & Hc). apply in_map_iff in Hc as (c' & [= <- <-] & Hc).
    apply in_seq in Hr, Hc. lia.
  - intros [Hr Hc]. exists r. split; [apply in_seq; lia|].
    apply in_map_iff. exists c. split; [done | apply in_seq; lia].
Qed.

Lemma NoDup_pairs {A B} (rs : list A) (cs : list B) :
  NoDup rs → NoDup cs → NoDup (flat_map (λ r, map (λ c, (r, c)) cs) rs).
Proof.
  intros Hrs Hcs. induction Hrs as [|r rs Hr Hrs IH]; simpl; [constructor|].
  apply NoDup_app. split; [|split; [|exact IH]].
  - apply (NoDup_fmap_2 (λ c : B, (r, c))). exact Hcs.
  - intros [r' c'] H1 H2.
    apply list_elem_of_fmap in H1 as (c1 & [= -> ->] & _).
    rewrite list_elem_of_In, in_flat_map in H2.
    destruct H2 as (r2 & Hr2 & Hc2).
    apply in_map_iff in Hc2 as (c2 & [= -> _] & _).
    apply Hr. by rewrite list_elem_of_In.
Qed.

Lemma cell_indices_NoDup N : NoDup (cell_indices N).
Proof. apply NoDup_pairs; apply NoDup_seq. Qed.

End Loops.

(** ** The cell loops of [updateThreshLines] *)

Section Cells.

Lemma fold_left_fmap {S A B} (g : S → B → S) (h : A → B) (l : list A) (s : S) :
  fold_left g (map h l) s = fold_left (λ s x, g s (h x)) l s.
Proof. revert s. induction l as [|x l IH]; intros s; simpl; [done | apply IH]. Qed.

Lemma for_cells_fold_aux {S} (rs cs : list nat) (m : list (list num))
    (body : S → nat → nat → num → S) (s0 : S) :
  (∀ r, r ∈ rs → (r < length m)%nat) →
  js_for (λ s r,
    js_for (λ s c,
      js_index (Some m) r ≫= λ row,
      js_index row c ≫= λ cell,
      Some (body s r c (Math_abs cell))) s cs) s0 rs
  = Some (fold_left (λ s e, body s (e_r e) (e_c e) (e_v e))
            (map (λ rc, {| e_r := rc.1; e_c := rc.2;
                           e_v := abs_cell m rc.1 rc.2 |})
                 (flat_map (λ r, map (λ c, (r, c)) cs) rs)) s0).
Proof.
  revert s0. induction rs as [|r rs IH]; intros s0 Hrs; simpl; [done|].
  destruct (lookup_lt_is_Some_2 m r) as [row Hrow]; [apply Hrs; by left|].
  rewrite (js_for_fold _ (λ s c, body s r c (abs_cell m r c))).
  2:{ intros s c _. unfold abs_cell. rewrite Hrow. reflexivity. }
  simpl. rewrite IH by (intros r' Hr'; apply Hrs; by right).
  rewrite map_app, fold_left_app, map_map. do 2 f_equal.
  symmetry. apply (fold_left_fmap (λ s e, body s (e_r e) (e_c e) (e_v e))).
Qed.

(** On a matrix with at least [N] rows the loops never throw, and visit the
    cells in row-major order. *)
Lemma for_cells_fold {S} (N : nat) (m : list (list num))
    (body : S → nat → nat → num → S) (s0 : S) :
  (N ≤ length m)%nat →
  for_cells N (Some m) body s0
  = Some (fold_left (λ s e, body s (e_r e) (e_c e) (e_v e)) (all_cells N m) s0).
Proof.
  intros HN. apply for_cells_fold_aux.
  intros r Hr. apply elem_of_seq in Hr. lia.
Qed.

Lemma all_cells_elem N m e :
  e ∈ all_cells N m ↔
  (e_r e < N)%nat ∧ (e_c e < N)%nat ∧ e_v e = abs_cell m (e_r e) (e_c e).
Proof.
  unfold all_cells.
  change (map ?f ?l) with (f <$> l). rewrite list_elem_of_fmap. split.
  - intros ([r c] & -> & H). apply cell_indices_elem in H. simpl. tauto.
  - intros (Hr & Hc & Hv). exists (e_r e, e_c e).
    split; [|by apply cell_indices_elem].
    destruct e as [r c x]. simpl in *. by rewrite Hv.
Qed.

Lemma all_cells_NoDup N m : NoDup (all_cells N m).
Proof.
  unfold all_cells. change (map ?f ?l) with (f <$> l).
  apply NoDup_fmap_2_strong; [|apply cell_indices_NoDup].
  intros [r1 c1] [r2 c2] _ _ H. by injection H as -> ->.
Qed.

(** Every cell of a square matrix of finite numbers has a finite,
    non-negative magnitude. *)
Lemma all_cells_finite N m e :
  square_finite N m → e ∈ all_cells N m → ∃ q, e_v e = Fin q ∧ (0 <= q)%Q.
Proof.
  intros [Hlen Hrows] He. apply all_cells_elem in He as (Hr & Hc & ->).
  unfold abs_cell.
  destruct (lookup_lt_is_Some_2 m (e_r e)) as [row Hrow]; [lia|].
  rewrite Hrow. simpl.
  rewrite Forall_forall in Hrows.
  destruct (Hrows row) as [Hrl Hfin]; [by eapply list_elem_of_lookup_2|].
  destruct (lookup_lt_is_Some_2 row (e_c e)) as [x Hx]; [lia|].
  rewrite Hx. simpl. apply abs_finite.
  rewrite Forall_forall in Hfin. apply Hfin. by eapply list_elem_of_lookup_2.
Qed.

(** The second loop collects the qualifying entries in loop order. *)
Lemma push_fold thresh es acc :
  fold_left (λ s e, push_step thresh s (e_r e) (e_c e) (e_v e)) es acc
  = acc ++ filter (λ e, geb (e_v e) thresh = true) es.
Proof.
  revert acc. induction es as [|e es IH]; intros acc; simpl.
  { by rewrite app_nil_r. }
  rewrite IH. unfold push_step.
  rewrite filter_cons.
  destruct e as [r c x]; simpl.
  destruct (decide (geb x thresh = true)) as [Hx|Hx].
  - rewrite Hx. by rewrite <- app_assoc.
  - apply not_true_is_false in Hx. by rewrite Hx.
Qed.

(** The first loop leaves the least and the greatest magnitude. *)
Lemma minmax_fold es :
  es ≠ [] →
  (∀ e, e ∈ es → ∃ q, e_v e = Fin q) →
  ∃ a b,
    fold_left (λ s e, minmax_step s (e_r e) (e_c e) (e_v e)) es (PosInf, NegInf)
    = (Fin a, Fin b) ∧
    (∀ e q, e ∈ es → e_v e = Fin q → (a <= q <= b)%Q) ∧
    (∃ e, e ∈ es ∧ e_v e = Fin a) ∧ (∃ e, e ∈ es ∧ e_v e = Fin b).
Proof.
  induction es as [|e es IH] using rev_ind; intros Hne Hfin; [done|].
  assert (Hes : ∀ e, e ∈ es → ∃ q, e_v e = Fin q).
  { intros e' He'. apply Hfin. apply elem_of_app. by left. }
  specialize (λ H, IH H Hes).
  destruct (Hfin e) as [q Hq]; [apply elem_of_app; right; by left|].
  rewrite fold_left_app. simpl.
  destruct es as [|e1 es'].
  - simpl. rewrite Hq. simpl. exists q, q. split; [done|]. split.
    + intros e' q' He' Hq'. apply list_elem_of_singleton in He' as ->.
      rewrite Hq in Hq'. injection Hq' as <-. split; apply Qle_refl.
    + split; exists e; (split; [by left | done]).
  - destruct IH as (a & b & -> & Hbnd & (ea & Hea & Hva) & (eb & Heb & Hvb));
      [done|].
    set (es := e1 :: es') in *.
    unfold minmax_step. rewrite Hq. unfold gtb.
    destruct (ltb (Fin q) (Fin a)) eqn:Elt; destruct (ltb (Fin b) (Fin q)) eqn:Egt.
    + apply ltb_Fin in Elt, Egt.
      exists q, q. split; [done|]. split.
      * intros e' q' He' Hq'. apply elem_of_app in He' as [He'|He'].
        -- destruct (Hbnd e' q' He' Hq'). lra.
        -- apply list_elem_of_singleton in He' as ->.
           rewrite Hq in Hq'. injection Hq' as <-. lra.
      * split; exists e; (split; [apply elem_of_app; right; by left | done]).
    + apply ltb_Fin in Elt. apply ltb_Fin_false in Egt.
      exists q, b. split; [done|]. split.
      * intros e' q' He' Hq'. apply elem_of_app in He' as [He'|He'].
        -- destruct (Hbnd e' q' He' Hq'). lra.
        -- apply list_elem_of_singleton in He' as ->.
           rewrite Hq in Hq'. injection Hq' as <-. lra.
      * split; [exists e | exists eb];
          (split; [apply elem_of_app; auto; right; by left | done]).
    + apply ltb_Fin_false in Elt. apply ltb_Fin in Egt.
      exists a, q. split; [done|]. split.
      * intros e' q' He' Hq'. apply elem_of_app in He' as [He'|He'].
        -- destruct (Hbnd e' q' He' Hq'). lra.
        -- apply list_elem_of_singleton in He' as ->.
           rewrite Hq in Hq'. injection Hq' as <-. lra.
      * split; [exists ea | exists e];
          (split; [apply elem_of_app; auto; right; by left | done]).
    + apply ltb_Fin_false in Elt, Egt.
      exists a, b. split; [done|]. split.
      * intros e' q' He' Hq'. apply elem_of_app in He' as [He'|He'].
        -- destruct (Hbnd e' q' He' Hq'). lra.
        -- apply list_elem_of_singleton in He' as ->.
           rewrite Hq in Hq'. injection Hq' as <-. lra.
      * split; [exists ea | exists eb]; (split; [apply elem_of_app; auto | done]).
Qed.

End Cells.

(** ** Threshold edges *)

Section Threshold.

Variable v : view.
Variable l : nat.
Variable m : list (list num).
Hypothesis layer_exists : (l < vL v)%nat.
Hypothesis matrix_square : square_finite (vN v) m.

Local Abbreviation N := (vN v).
Local Abbreviation cells := (all_cells (vN v) m).

(** [updateThreshLines] in closed form. *)
Lemma updateThreshLines_eq (st : controls) (sv : Z) :
  getMatrix v st l = Some (Some m) →
  sl_thresh st !! l = Some sv →
  updateThreshLines v st l =
  let '(mn, mx) := minmax_of cells in
  let t := thresh_of mn mx sv in
  let entries := JS.sort by_v_desc (selected t cells) in
  Some {| tl_mn := mn; tl_mx := mx; tl_thresh := t; tl_entries := entries;
          tl_lines := map (λ e, (e, line_alpha t (sub mx t) e))
                          (JS.slice0 MAX_TL entries) |}.
Proof.
  intros Hm Hsv. unfold updateThreshLines.
  rewrite option_guard_True by exact layer_exists. simpl.
  rewrite Hm. simpl.
  destruct matrix_square as [Hlen _].
  rewrite for_cells_fold by lia. simpl.
  fold (minmax_of cells). destruct (minmax_of cells) as [mn mx].
  rewrite Hsv. simpl.
  rewrite for_cells_fold by lia. simpl.
  rewrite push_fold. reflexivity.
Qed.

Lemma cells_finite e : e ∈ cells → ∃ q, e_v e = Fin q.
Proof.
  intros He. destruct (all_cells_finite _ _ e matrix_square He) as (q & Hq & _).
  eauto.
Qed.

Lemma cells_nonempty : (0 < N)%nat → cells ≠ [].
Proof.
  intros HN Hnil.
  assert (H : {| e_r := 0; e_c := 0; e_v := abs_cell m 0 0 |} ∈ cells).
  { apply all_cells_elem. simpl. auto. }
  rewrite Hnil in H. by apply elem_of_nil in H.
Qed.

Lemma cells_empty : N = 0%nat → cells = [].
Proof. intros H. unfold all_cells, cell_indices. by rewrite H. Qed.

(** The minimum and maximum are those of the magnitudes. *)
Lemma minmax_of_cells :
  (0 < N)%nat →
  ∃ a b, minmax_of cells = (Fin a, Fin b) ∧ (0 <= a <= b)%Q ∧
    (∀ r c, (r < N)%nat → (c < N)%nat →
       ∃ q, abs_cell m r c = Fin q ∧ (a <= q <= b)%Q) ∧
    (∃ r c, (r < N)%nat ∧ (c < N)%nat ∧ abs_cell m r c = Fin a) ∧
    (∃ r c, (r < N)%nat ∧ (c < N)%nat ∧ abs_cell m r c = Fin b).
Proof.
  intros HN.
  destruct (minmax_fold cells (cells_nonempty HN) cells_finite)
    as (a & b & Heq & Hbnd & (ea & Hea & Hva) & (eb & Heb & Hvb)).
  exists a, b. split; [exact Heq|].
  split.
  { destruct (all_cells_finite _ _ ea matrix_square Hea) as (q & Hq & Hq0).
    rewrite Hva in Hq. injection Hq as <-.
    destruct (Hbnd ea a Hea Hva). split; lra. }
  split.
  { intros r c Hr Hc.
    set (e := {| e_r := r; e_c := c; e_v := abs_cell m r c |}).
    assert (He : e ∈ cells) by (apply all_cells_elem; simpl; auto).
    destruct (cells_finite e He) as [q Hq]. exists q. split; [exact Hq|].
    by apply (Hbnd e q He). }
  split.
  - apply all_cells_elem in Hea as (Hr & Hc & Hv).
    exists (e_r ea), (e_c ea). rewrite <- Hv. auto.
  - apply all_cells_elem in Heb as (Hr & Hc & Hv).
    exists (e_r eb), (e_c eb). rewrite <- Hv. auto.
Qed.

Lemma selected_elem t e :
  e ∈ selected t cells ↔
  (e_r e < N)%nat ∧ (e_c e < N)%nat ∧ e_v e = abs_cell m (e_r e) (e_c e) ∧
  geb (e_v e) t = true.
Proof.
  unfold selected. rewrite list_elem_of_filter, all_cells_elem. tauto.
Qed.

Lemma StronglySorted_on {A} (P : A → Prop) (R R' : A → A → Prop) (xs : list A) :
  (∀ a b, P a → P b → R a b → R' a b) →
  Forall P xs → StronglySorted R xs → StronglySorted R' xs.
Proof.
  intros HR HP Hs. induction Hs as [|x xs Hs IH Hx]; [constructor|].
  apply Forall_cons in HP as [Hpx HP].
  constructor; [by apply IH|].
  rewrite Forall_forall in Hx, HP. apply Forall_forall. intros z Hz.
  apply HR; auto.
Qed.

Lemma sorted_selected t :
  StronglySorted v_desc (JS.sort by_v_desc (selected t cells)).
Proof.
  set (P := λ e : entry, ∃ q, e_v e = Fin q).
  assert (HP : Forall P (selected t cells)).
  { apply Forall_forall. intros e He. apply list_elem_of_filter in He as [_ He].
    by apply cells_finite. }
  apply (StronglySorted_on P (cmp_le by_v_desc)).
  - intros a b [p Hp] [q Hq] H. unfold v_desc. rewrite Hp, Hq.
    apply leb_Fin. by apply (by_v_desc_le a b p q Hp Hq).
  - apply Forall_forall. intros e He. rewrite sort_elem_of in He.
    rewrite Forall_forall in HP. by apply HP.
  - apply (sort_sorted by_v_desc P); [| |exact HP].
    + intros a b [p Hp] [q Hq] Hgt.
      apply (by_v_desc_le b a q p Hq Hp).
      unfold by_v_desc in Hgt. rewrite Hp, Hq in Hgt. simpl in Hgt.
      apply Qgt_alt in Hgt. lra.
    + intros a b c [p Hp] [q Hq] [r Hr].
      rewrite (by_v_desc_le a b p q Hp Hq), (by_v_desc_le b c q r Hq Hr),
              (by_v_desc_le a c p r Hp Hr). lra.
Qed.


Lemma filter_length_mono {A} (P Q : A → Prop)
    `{∀ x, Decision (P x)} `{∀ x, Decision (Q x)} (xs : list A) :
  (∀ x, x ∈ xs → P x → Q x) →
  (length (filter P xs) ≤ length (filter Q xs))%nat.
Proof.
  induction xs as [|x xs IH]; intros HPQ; [done|].
  rewrite !filter_cons.
  assert (IH' : (length (filter P xs) ≤ length (filter Q xs))%nat).
  { apply IH. intros y Hy. apply HPQ. by right. }
  destruct (decide (P x)) as [HP|HP].
  - rewrite decide_True by (apply HPQ; [by left | exact HP]). simpl. lia.
  - destruct (decide (Q x)); simpl; lia.
Qed.

(** On an empty matrix the threshold never compares below anything. *)
Lemma thresh_of_empty s t : ltb (thresh_of PosInf NegInf s) t = false.
Proof.
  unfold thresh_of. simpl. unfold inf_times.
  destruct (- (inject_Z s / inject_Z 1000) ?= 0)%Q; by destruct t.
Qed.

(** C6: with the layer, head and batch fixed, raising the slider from [s1]
    to [s2] never lowers the threshold, and never increases the number of
    qualifying cells nor the number of lines drawn after the cap. *)
Theorem threshold_monotone (st1 st2 : controls) (s1 s2 : Z) :
  getMatrix v st1 l = Some (Some m) →
  getMatrix v st2 l = Some (Some m) →
  sl_thresh st1 !! l = Some s1 →
  sl_thresh st2 !! l = Some s2 →
  s1 ≤ s2 →
  ∃ tl1 tl2,
    updateThreshLines v st1 l = Some tl1 ∧
    updateThreshLines v st2 l = Some tl2 ∧
    ltb (tl_thresh tl2) (tl_thresh tl1) = false ∧
    ((0 < N)%nat → leb (tl_thresh tl1) (tl_thresh tl2) = true) ∧
    (length (tl_entries tl2) ≤ length (tl_entries tl1))%nat ∧
    (length (tl_lines tl2) ≤ length (tl_lines tl1))%nat.
Proof.
  intros Hm1 Hm2 Hs1 Hs2 Hle.
  rewrite (updateThreshLines_eq st1 s1 Hm1 Hs1), (updateThreshLines_eq st2 s2 Hm2 Hs2).
  destruct (minmax_of cells) as [mn mx] eqn:Emm.
  do 2 eexists. split; [reflexivity|]. split; [reflexivity|].
  cbn [tl_mn tl_mx tl_thresh tl_entries tl_lines].
  rewrite !length_map. unfold JS.slice0. rewrite !length_take, !sort_length.
  destruct (Nat.eq_dec N 0%nat) as [HN0|HN0].
  { rewrite (cells_empty HN0) in Emm |- *. injection Emm as <- <-.
    split; [apply thresh_of_empty|]. split; [lia|]. simpl. lia. }
  destruct minmax_of_cells as (a & b & Hab & Hab0 & _); [lia|].
  rewrite Emm in Hab. injection Hab as -> ->.
  unfold thresh_of. rewrite !thresh_Fin.
  assert (Hq : (inject_Z s1 / inject_Z 1000 <= inject_Z s2 / inject_Z 1000)%Q).
  { unfold Qdiv. apply Qmult_le_compat_r; [by rewrite <- Zle_Qle | discriminate]. }
  assert (Ht : (a + inject_Z s1 / inject_Z 1000 * (b + - a)
                <= a + inject_Z s2 / inject_Z 1000 * (b + - a))%Q) by nra.
  split; [by apply ltb_Fin_false|]. split; [intros _; by apply leb_Fin|].
  assert (Hlen :
    (length (selected (Fin (a + inject_Z s2 / inject_Z 1000 * (b + - a))) cells)
     ≤ length (selected (Fin (a + inject_Z s1 / inject_Z 1000 * (b + - a))) cells))%nat).
  { apply filter_length_mono. intros e He.
    destruct (cells_finite e He) as [q ->]. unfold geb.
    rewrite !leb_Fin. lra. }
  split; lia.
Qed.

End Threshold.

Lemma sample_matrix0 :
  getMatrix Sample.the_view (Sample.sliders 500) 0 = Some (Some Sample.matrix0).
Proof. reflexivity. Qed.

Lemma sample_matrix0_square : square_finite 3 Sample.matrix0.
Proof. split; [reflexivity|]. repeat constructor. Qed.

Example sample_threshold_max :
  tl_entries <$> updateThreshLines Sample.the_view (Sample.sliders 1000) 0
  = Some [{| e_r := 0; e_c := 1; e_v := Fin (900000 # 1000000) |}].
Proof. reflexivity. Qed.

Example sample_threshold_min_draws_all :
  (length ∘ tl_lines) <$> updateThreshLines Sample.the_view (Sample.sliders 0) 0
  = Some 9%nat.
Proof. reflexivity. Qed.


Lemma threshold_monotone_witness :
  ∃ tl1 tl2,
    updateThreshLines Sample.the_view (Sample.sliders 0) 0 = Some tl1 ∧
    updateThreshLines Sample.the_view (Sample.sliders 950) 0 = Some tl2 ∧
    leb (tl_thresh tl1) (tl_thresh tl2) = true ∧
    (length (tl_entries tl2) ≤ length (tl_entries tl1))%nat.
Proof.
  destruct (threshold_monotone Sample.the_view 0 Sample.matrix0
              (Nat.lt_0_1 : (0 < vL Sample.the_view)%nat) sample_matrix0_square
              (Sample.sliders 0) (Sample.sliders 950) 0 950
              eq_refl eq_refl eq_refl eq_refl)
    as (tl1 & tl2 & H1 & H2 & _ & Hle & Hlen & _).
  { lia. }
  exists tl1, tl2. split; [exact H1|]. split; [exact H2|].
  split; [apply Hle; change (vN Sample.the_view) with 3%nat; lia | exact Hlen].
Defined.

(** ** Bound bars *)

Section RedFills.

Variable v : view.
Variable st : controls.
Variable bv : list num.
Hypothesis bounds_row : boundsData v !! sl_batch st = Some bv.
Hypothesis bounds_length : length bv = vN v.
Hypothesis bounds_finite : Forall (λ x, is_finite x = true) bv.
Hypothesis width_nonneg : 0 ≤ nameBlockW v.

Lemma js_for_push {A B} (f : A → B) (xs : list A) (acc : list B) :
  js_for (λ ws i, Some (ws ++ [f i])) acc xs = Some (acc ++ map f xs).
Proof.
  revert acc. induction xs as [|x xs IH]; intros acc; simpl.
  { by rewrite app_nil_r. }
  rewrite IH. by rewrite <- app_assoc.
Qed.

Lemma updateRedFills_eq :
  updateRedFills v st =
  Some (map (λ i, mul (div (Math_abs (bv !! i))
                           (red_divisor (red_max bv (seq 0 (vN v)) NegInf)))
                      (of_Z (nameBlockW v)))
            (seq 0 (vN v))).
Proof.
  unfold updateRedFills. simpl. rewrite bounds_row. simpl.
  rewrite (js_for_fold _
    (λ mx i, if gtb (Math_abs (bv !! i)) mx then Math_abs (bv !! i) else mx))
    by done.
  simpl. fold (red_max bv (seq 0 (vN v)) NegInf).
  fold (red_divisor (red_max bv (seq 0 (vN v)) NegInf)).
  exact (js_for_push (λ i : nat, mul (div (Math_abs (bv !! i)) _) _) _ []).
Qed.

Lemma bounds_abs i x :
  bv !! i = Some x → ∃ q, x = Fin q ∧ Math_abs (bv !! i) = Fin (Qabs q).
Proof.
  intros Hx. rewrite Forall_forall in bounds_finite.
  assert (Hf : is_finite x = true).
  { apply bounds_finite. by eapply list_elem_of_lookup_2. }
  destruct x as [| |q|]; try discriminate. exists q. by rewrite Hx.
Qed.

(** After [n] rows the running maximum is the greatest magnitude seen. *)
Lemma red_max_prefix n :
  (n ≤ vN v)%nat →
  match n with
  | O => red_max bv (seq 0 n) NegInf = NegInf
  | S _ =>
      ∃ q, red_max bv (seq 0 n) NegInf = Fin q ∧
        (∀ i y, (i < n)%nat → bv !! i = Some (Fin y) → (Qabs y <= q)%Q) ∧
        (∃ i y, (i < n)%nat ∧ bv !! i = Some (Fin y) ∧ q = Qabs y)
  end.
Proof.
  induction n as [|n IH]; intros Hn; [done|].
  specialize (IH ltac:(lia)).
  rewrite seq_S. unfold red_max in *. rewrite fold_left_app. simpl.
  destruct (lookup_lt_is_Some_2 bv n) as [x Hx]; [lia|].
  destruct (bounds_abs n x Hx) as (y & -> & Habs). rewrite Habs.
  destruct n as [|n'].
  - simpl. exists (Qabs y). split; [done|]. split.
    + intros i y' Hi Hy'. assert (i = 0)%nat as -> by lia.
      rewrite Hx in Hy'. injection Hy' as <-. apply Qle_refl.
    + exists 0%nat, y. auto.
  - destruct IH as (q & -> & Hbnd & (j & yj & Hj & Hyj & Hq)).
    unfold gtb. destruct (ltb (Fin q) (Fin (Qabs y))) eqn:E.
    + apply ltb_Fin in E. exists (Qabs y). split; [done|]. split.
      * intros i y' Hi Hy'. destruct (decide (i = S n')) as [->|Hne].
        -- rewrite Hx in Hy'. injection Hy' as <-. apply Qle_refl.
        -- specialize (Hbnd i y' ltac:(lia) Hy'). lra.
      * exists (S n'), y. auto.
    + apply ltb_Fin_false in E. exists q. split; [done|]. split.
      * intros i y' Hi Hy'. destruct (decide (i = S n')) as [->|Hne].
        -- rewrite Hx in Hy'. injection Hy' as <-. exact E.
        -- apply (Hbnd i y'); [lia | exact Hy'].
      * exists j, yj. split; [lia | auto].
Qed.

(** The divisor is a positive rational: the greatest magnitude, or 1 when
    that is not positive. *)
Lemma red_divisor_spec :
  ∃ d, red_divisor (red_max bv (seq 0 (vN v)) NegInf) = Fin d ∧ (0 < d)%Q ∧
    (∀ i y, bv !! i = Some (Fin y) → (Qabs y <= d)%Q) ∧
    ((∀ i y, bv !! i = Some (Fin y) → (Qabs y <= 0)%Q) → d = 1%Q) ∧
    (∀ j mx, bv !! j = Some (Fin mx) → (0 < Qabs mx)%Q →
       (∀ i y, bv !! i = Some (Fin y) → (Qabs y <= Qabs mx)%Q) → d == Qabs mx).
Proof.
  pose proof (red_max_prefix (vN v) (le_n _)) as H.
  destruct (vN v) as [|n] eqn:EN.
  - rewrite H. exists 1%Q. split; [done|]. split; [reflexivity|].
    assert (Hnil : bv = []) by (apply nil_length_inv; lia). subst bv.
    split; [intros i y Hy; by rewrite lookup_nil in Hy|].
    split; [done|]. intros j mx Hj. by rewrite lookup_nil in Hj.
  - destruct H as (q & -> & Hbnd & (j & yj & Hj & Hyj & Hq)).
    assert (Hall : ∀ i y, bv !! i = Some (Fin y) → (Qabs y <= q)%Q).
    { intros i y Hy. apply (Hbnd i y); [|exact Hy].
      apply lookup_lt_Some in Hy. lia. }
    unfold red_divisor. destruct (leb (Fin q) (Fin 0)) eqn:E.
    + apply leb_Fin in E. exists 1%Q. split; [done|]. split; [reflexivity|].
      split; [|split; [done|]].
      * intros i y Hy. specialize (Hall i y Hy). lra.
      * intros k mx Hk Hpos _. specialize (Hall k mx Hk). lra.
    + assert (Hq0 : (0 < q)%Q).
      { apply Qnot_le_lt. intros Hle. apply leb_Fin in Hle. congruence. }
      exists q. split; [done|]. split; [exact Hq0|]. split; [exact Hall|].
      split.
      * intros Hzero. specialize (Hzero j yj Hyj). subst q. lra.
      * intros k mx Hk _ Hmax. specialize (Hall k mx Hk).
        specialize (Hmax j yj Hyj). subst q. lra.
Qed.

(** C10: [updateRedFills] always returns one width per row.  When no
    [|bounds[b][i]|] is positive the divisor is 1 and every width is 0;
    otherwise the width of row [i] is [|bounds[b][i]| / max * nameBlockW].
    Every width lies in [[0, nameBlockW]]. *)
Theorem red_fills_total :
  ∃ ws, updateRedFills v st = Some ws ∧ length ws = vN v ∧
    ∀ i x, bv !! i = Some (Fin x) →
      ∃ w, ws !! i = Some (Fin w) ∧
        (0 <= w <= inject_Z (nameBlockW v))%Q ∧
        ((∀ j y, bv !! j = Some (Fin y) → (Qabs y <= 0)%Q) →
           w = (Qabs x / 1 * inject_Z (nameBlockW v))%Q ∧ w == 0) ∧
        (∀ j mx, bv !! j = Some (Fin mx) → (0 < Qabs mx)%Q →
           (∀ k y, bv !! k = Some (Fin y) → (Qabs y <= Qabs mx)%Q) →
           w == Qabs x / Qabs mx * inject_Z (nameBlockW v)).
Proof.
  rewrite updateRedFills_eq.
  destruct red_divisor_spec as (d & -> & Hd & Hall & Hdeg & Hmax).
  eexists. split; [reflexivity|].
  split; [by rewrite length_map, length_seq|].
  intros i x Hx.
  assert (Hi : (i < vN v)%nat) by (apply lookup_lt_Some in Hx; lia).
  change (map ?f ?xs) with (f <$> xs).
  rewrite list_lookup_fmap, lookup_seq_lt by exact Hi. simpl.
  rewrite Hx. simpl.
  assert (Hd0 : Qeq_bool d 0 = false).
  { destruct (Qeq_bool d 0) eqn:E; [|done]. apply Qeq_bool_eq in E. lra. }
  rewrite Hd0. eexists. split; [reflexivity|].
  assert (HW : (0 <= inject_Z (nameBlockW v))%Q).
  { change 0%Q with (inject_Z 0). by rewrite <- Zle_Qle. }
  pose proof (Hall i x Hx) as Hxd. pose proof (Qabs_nonneg x) as Hx0.
  assert (Hr1 : (Qabs x / d <= 1)%Q) by (apply Qle_shift_div_r; lra).
  assert (Hr0 : (0 <= Qabs x / d)%Q) by (apply Qle_shift_div_l; lra).
  split; [split; nra|]. split.
  - intros Hzero. rewrite (Hdeg Hzero). split; [reflexivity|].
    specialize (Hzero i x Hx).
    assert (Qabs x == 0) as -> by lra. reflexivity.
  - intros j mx Hj Hpos Hmx. rewrite (Hmax j mx Hj Hpos Hmx). reflexivity.
Qed.

End RedFills.

Example sample_red_fills :
  updateRedFills Sample.the_view (Sample.sliders 500)
  = Some [Fin (100000000000000 # 1000000000000);
          Fin (200000000000000 # 1000000000000);
          Fin (0 # 1000000000000)].
Proof. reflexivity. Qed.

Lemma red_fills_total_witness :
  ∃ ws, updateRedFills Sample.the_view (Sample.sliders 500) = Some ws ∧
        length ws = 3%nat.
Proof.
  destruct (red_fills_total Sample.the_view (Sample.sliders 500)
              (map (λ k, Fin (k # 1000000)) [500000; -1000000; 0])
              eq_refl eq_refl)
    as (ws & Heq & Hlen & _).
  { repeat constructor. }
  { change (nameBlockW Sample.the_view) with 200. lia. }
  exists ws. split; [exact Heq | exact Hlen].
Defined.

(** ** Export: validation *)

Section ExportValidation.

Context {casts : Casts}.

Lemma layer_checks_ok (B H N : nat) (ts : list ndarray) (k : nat) :
  Forall (λ t, shape t = [B; H; N; N]) ts →
  ∃ us,
    for_each (λ '(i, t), assert (shape_eqb (shape t) [B; H; N; N])
                           (Some (MsgLayerShape i (shape t) B H N)))
             (enumerate_from k ts) = Ok us.
Proof.
  revert k. induction ts as [|t ts IH]; intros k Hts; [simpl; eauto|].
  apply Forall_cons in Hts as [Ht Hts].
  destruct (IH (S k) Hts) as [us Hus].
  cbn [enumerate_from for_each]. rewrite Hus.
  unfold shape_eqb. rewrite bool_decide_eq_true_2 by exact Ht. simpl. eauto.
Qed.

Lemma layer_checks_inv (B H N : nat) (ts : list ndarray) (k : nat) us :
  for_each (λ '(i, t), assert (shape_eqb (shape t) [B; H; N; N])
                         (Some (MsgLayerShape i (shape t) B H N)))
           (enumerate_from k ts) = Ok us →
  Forall (λ t, shape t = [B; H; N; N]) ts.
Proof.
  revert k us. induction ts as [|t ts IH]; intros k us Hus; [constructor|].
  cbn [enumerate_from for_each] in Hus.
  destruct (for_each _ (enumerate_from (S k) ts)) as [us'|] eqn:E'.
  - unfold shape_eqb in Hus.
    destruct (bool_decide (shape t = [B; H; N; N])) eqn:E; [|discriminate].
    apply bool_decide_eq_true in E.
    constructor; [exact E | by eapply IH].
  - unfold shape_eqb in Hus.
    by destruct (bool_decide (shape t = [B; H; N; N])).
Qed.

(** The first layer of another shape is reported with its index, its shape
    and the expected dimensions. *)
Lemma layer_checks_error (B H N : nat) (ts1 ts2 : list ndarray) (t : ndarray) (k : nat) :
  Forall (λ t, shape t = [B; H; N; N]) ts1 →
  shape t ≠ [B; H; N; N] →
  for_each (λ '(i, t), assert (shape_eqb (shape t) [B; H; N; N])
                         (Some (MsgLayerShape i (shape t) B H N)))
           (enumerate_from k (ts1 ++ t :: ts2))
  = Err (AssertionError
           (Some (MsgLayerShape (k + length ts1) (shape t) B H N))).
Proof.
  revert k. induction ts1 as [|t1 ts1 IH]; intros k Hts Ht.
  - cbn [app enumerate_from for_each].
    unfold shape_eqb. rewrite bool_decide_eq_false_2 by exact Ht. simpl.
    by rewrite Nat.add_0_r.
  - apply Forall_cons in Hts as [Ht1 Hts].
    cbn [app enumerate_from for_each]. rewrite (IH (S k) Hts Ht).
    unfold shape_eqb. rewrite bool_decide_eq_true_2 by exact Ht1. simpl.
    do 4 f_equal. lia.
Qed.

(** The float32 export succeeds exactly on consistent shapes. *)
Lemma export_attention_data_ok path ids0 names ts bounds0 B H N :
  ts ≠ [] → Forall (λ t, shape t = [B; H; N; N]) ts →
  shape bounds0 = [B; N] → length ids0 = N →
  export_attention_data path ids0 names ts bounds0 =
  Ok {| w_path := path;
        w_file :=
          {| a_header :=
               {| h_format := "attnbin_v1"; h_N := N; h_B := B; h_H := H;
                  h_L := length ts; h_dtype := None;
                  h_reaction_ids := ids0;
                  h_full_names := full_names_of names ids0 |};
             a_bounds := map to_float32 (data bounds0);
             a_layers := map (λ t, map to_float32 (data t)) ts |} |}.
Proof.
  intros Hne Hts Hb Hids. unfold export_attention_data.
  destruct ts as [|t0 ts']; [done|].
  pose proof Hts as Hts'. apply Forall_cons in Hts' as [Ht0 _].
  destruct (layer_checks_ok B H N (t0 :: ts') 0 Hts) as [us Hus].
  cbn [list_get lookup list_lookup mbind result_bind]. rewrite Ht0.
  cbn [unpack4 mbind result_bind]. rewrite Hus.
  rewrite Hids, Nat.eqb_refl.
  unfold shape_eqb. cbn [astype shape]. rewrite bool_decide_eq_true_2 by exact Hb.
  reflexivity.
Qed.

Lemma export_attention_data_inv path ids0 names ts bounds0 w :
  export_attention_data path ids0 names ts bounds0 = Ok w →
  ∃ B H N, ts ≠ [] ∧ Forall (λ t, shape t = [B; H; N; N]) ts ∧
           shape bounds0 = [B; N] ∧ length ids0 = N.
Proof.
  unfold export_attention_data. intros Hw.
  destruct ts as [|t0 ts']; [discriminate|].
  cbn [list_get lookup list_lookup mbind result_bind] in Hw.
  destruct (unpack4 (shape t0)) as [[[B H] N]|] eqn:Eu; [|discriminate].
  cbn [mbind result_bind] in Hw.
  destruct (length ids0 =? N)%nat eqn:Eids; [|discriminate].
  cbn [assert mbind result_bind astype shape] in Hw.
  destruct (shape_eqb (shape bounds0) [B; N]) eqn:Eb; [|discriminate].
  cbn [assert mbind result_bind] in Hw.
  destruct (for_each _ (enumerate_from 0 (t0 :: ts'))) as [us|] eqn:El;
    [|discriminate].
  exists B, H, N. split; [done|]. split; [by eapply layer_checks_inv|].
  split; [by apply bool_decide_eq_true in Eb | by apply Nat.eqb_eq].
Qed.

(** The float16 export checks the ids and the bounds, and the layers not at
    all beyond the first three dimensions of layer 0. *)
Lemma export_attention_data_fp16_ok path ids0 names t0 ts bounds0 B H N K :
  shape t0 = [B; H; N; K] →
  shape bounds0 = [B; N] → length ids0 = N →
  export_attention_data_fp16 path ids0 names (t0 :: ts) bounds0 =
  Ok {| w_path := path;
        w_file :=
          {| a_header :=
               {| h_format := "attnbin_v1"; h_N := N; h_B := B; h_H := H;
                  h_L := S (length ts); h_dtype := Some "float16";
                  h_reaction_ids := ids0;
                  h_full_names := full_names_of names ids0 |};
             a_bounds := map to_float32 (data bounds0);
             a_layers := map (λ t, map to_float16 (data t)) (t0 :: ts) |} |}.
Proof.
  intros Ht0 Hb Hids. unfold export_attention_data_fp16. simpl.
  rewrite Ht0. simpl. rewrite Hids, Nat.eqb_refl. simpl.
  unfold shape_eqb. rewrite bool_decide_eq_true_2 by exact Hb. reflexivity.
Qed.

(** C5 (fails on the float16 path): on a data set whose layer 1 has shape
    [(1,1,3,3)] where [(1,1,2,2)] is expected, [export_attention_data]
    raises the assertion naming layer 1 and both shapes, but
    [export_attention_data_fp16] validates no layer and writes a file whose
    header announces [N = 2], [L = 2] over layer blocks of 4 and 9
    elements. *)
Theorem fp16_export_skips_layer_validation :
  export_attention_data "out.attnbin" BadLayer.ids BadLayer.names
      BadLayer.tensors BadLayer.bounds
    = Err (AssertionError (Some (MsgLayerShape 1 [1; 1; 3; 3]%nat 1 1 2))) ∧
  ∃ w,
    export_attention_data_fp16 "out.attnbin" BadLayer.ids BadLayer.names
        BadLayer.tensors BadLayer.bounds = Ok w ∧
    h_N (a_header (w_file w)) = 2%nat ∧
    h_L (a_header (w_file w)) = 2%nat ∧
    length <$> a_layers (w_file w) = [4; 9]%nat.
Proof.
  split; [reflexivity|].
  eexists. split; [reflexivity|]. repeat split.
Qed.

End ExportValidation.

(** ** Export: subsets *)

Section Subset.

Context {casts : Casts}.

Lemma norm_index_valid (B : nat) (i : Z) :
  - Z.of_nat B ≤ i < Z.of_nat B → norm_index B i = Ok (batch_of B i).
Proof.
  intros Hi. unfold norm_index, batch_of.
  destruct (Z.leb_spec 0 i) as [H0|H0].
  - destruct (Z.ltb_spec i (Z.of_nat B)); [|lia]. simpl.
    by rewrite Z.mod_small by lia.
  - simpl. destruct (Z.leb_spec (- Z.of_nat B) i); [|lia].
    destruct (Z.ltb_spec i 0); [|lia]. simpl.
    do 2 f_equal. symmetry.
    rewrite <- (Z.mod_add i 1 (Z.of_nat B)) by lia.
    rewrite Z.mod_small by lia. lia.
Qed.

Lemma batch_of_lt (B : nat) (i : Z) :
  - Z.of_nat B ≤ i < Z.of_nat B → (batch_of B i < B)%nat.
Proof.
  intros Hi. unfold batch_of.
  assert (0 ≤ i `mod` Z.of_nat B < Z.of_nat B) by (apply Z.mod_pos_bound; lia).
  lia.
Qed.

Lemma batch_of_nonneg (B : nat) (i : Z) :
  0 ≤ i < Z.of_nat B → batch_of B i = Z.to_nat i.
Proof. intros Hi. unfold batch_of. by rewrite Z.mod_small. Qed.

Lemma norm_indices_valid (B : nat) (idxs : list Z) :
  (∀ i, i ∈ idxs → - Z.of_nat B ≤ i < Z.of_nat B) →
  for_each (norm_index B) idxs = Ok (map (batch_of B) idxs).
Proof.
  induction idxs as [|i idxs IH]; intros H; [done|].
  cbn [for_each]. rewrite norm_index_valid by (apply H; by left).
  rewrite IH by (intros j Hj; apply H; by right). reflexivity.
Qed.

(** Indexing with valid indices is the projection. *)
Lemma take0_project (B : nat) (t : ndarray) (idxs : list Z) :
  has_batches B t →
  (∀ i, i ∈ idxs → - Z.of_nat B ≤ i < Z.of_nat B) →
  take0 t idxs = Ok (project idxs t).
Proof.
  intros [_ HB] Hidx. unfold take0, project, batch_slice.
  destruct (shape t) as [|b rest]; [discriminate|].
  injection HB as ->. cbn [hd tail].
  rewrite norm_indices_valid by exact Hidx.
  cbn [mbind result_bind]. by rewrite map_map.
Qed.

Lemma take0_project_all (B : nat) (ts : list ndarray) (idxs : list Z) :
  Forall (has_batches B) ts →
  (∀ i, i ∈ idxs → - Z.of_nat B ≤ i < Z.of_nat B) →
  for_each (λ t, take0 t idxs) ts = Ok (map (project idxs) ts).
Proof.
  intros Hts Hidx. induction Hts as [|t ts Ht Hts IH]; [done|].
  cbn [for_each]. rewrite (take0_project B t idxs Ht Hidx), IH. reflexivity.
Qed.

Lemma slice_at_length {A} (s : nat) (xs : list A) (r : nat) :
  ((r + 1) * s ≤ length xs)%nat → length (slice_at s xs r) = s.
Proof.
  intros H. unfold slice_at. rewrite length_take, length_drop. lia.
Qed.

(** Cutting a concatenation of pieces of [s] elements returns the pieces. *)
Lemma slice_at_concat {A} (s : nat) (cs : list (list A)) (k : nat) (c : list A) :
  Forall (λ c, length c = s) cs → cs !! k = Some c →
  slice_at s (concat cs) k = c.
Proof.
  intros Hcs. revert k c. induction Hcs as [|c0 cs Hc0 Hcs IH]; intros k c Hk.
  { by rewrite lookup_nil in Hk. }
  unfold slice_at in *. destruct k as [|k]; simpl in Hk |- *.
  - injection Hk as ->. by rewrite drop_0, take_app_length'.
  - rewrite drop_app_add' by done. by apply IH.
Qed.

Lemma batch_slice_length (B : nat) (t : ndarray) (r : nat) :
  has_batches B t → (r < B)%nat →
  length (batch_slice t r) = size_of (tail (shape t)).
Proof.
  intros [Hwf HB] Hr. unfold batch_slice. apply slice_at_length.
  unfold wf in Hwf. rewrite Hwf.
  destruct (shape t) as [|b rest]; [discriminate|]. injection HB as ->.
  cbn [tail size_of foldr]. fold (size_of rest). nia.
Qed.

(** Batch [k] of the projection is batch [idxs[k]] of the array. *)
Lemma batch_slice_project (B : nat) (t : ndarray) (idxs : list Z) (k : nat) (i : Z) :
  has_batches B t →
  (∀ i, i ∈ idxs → - Z.of_nat B ≤ i < Z.of_nat B) →
  idxs !! k = Some i →
  batch_slice (project idxs t) k = batch_slice t (batch_of B i).
Proof.
  intros Ht Hidx Hk.
  assert (HB : hd 0%nat (shape t) = B).
  { destruct Ht as [_ HB]. by destruct (shape t) as [|b rest]; [|injection HB]. }
  unfold batch_slice at 1. unfold project. cbn [shape data tail]. rewrite HB.
  apply slice_at_concat.
  - apply Forall_forall. intros c Hc.
    change (map ?f ?xs) with (f <$> xs) in Hc.
    apply list_elem_of_fmap in Hc as (j & -> & Hj).
    apply (batch_slice_length B); [exact Ht|]. by apply batch_of_lt, Hidx.
  - change (map ?f ?xs) with (f <$> xs). by rewrite list_lookup_fmap, Hk.
Qed.

(** With valid indices the subset export is the export of the projection. *)
Lemma export_attention_subset_project (path : string) (ids0 : list string)
    (names : gmap string string) (tensors : list ndarray) (bounds0 : ndarray)
    (idxs : list Z) (fp16 : bool) (B : nat) :
  has_batches B bounds0 →
  Forall (has_batches B) tensors →
  (∀ i, i ∈ idxs → - Z.of_nat B ≤ i < Z.of_nat B) →
  export_attention_subset path ids0 names tensors bounds0 (Some idxs) fp16
    = (if fp16 then export_attention_data_fp16 else export_attention_data)
        path ids0 names (project idxs <$> tensors) (project idxs bounds0).
Proof.
  intros Hb Hts Hidx. unfold export_attention_subset.
  rewrite (take0_project B bounds0 idxs Hb Hidx).
  cbn [mbind result_bind].
  rewrite (take0_project_all B tensors idxs Hts Hidx).
  cbn [mbind result_bind]. by destruct fp16.
Qed.


End Subset.

(** ** Export: chunks *)

Section Chunked.

Context {casts : Casts}.

Lemma valid_has_batches ids0 ts bounds0 B H N :
  valid_dataset ids0 ts bounds0 B H N →
  has_batches B bounds0 ∧ Forall (has_batches B) ts.
Proof.
  intros (_ & Hts & Hb & Hwf & _). split.
  - split; [exact Hwf | by rewrite Hb].
  - eapply Forall_impl; [exact Hts|]. intros t [Hs Hw].
    split; [exact Hw | by rewrite Hs].
Qed.

(** On a valid data set the export of a list of batches in range succeeds,
    and writes the projected data set. *)
Lemma subset_export_ok path ids0 names ts bounds0 B H N idxs fp16 :
  valid_dataset ids0 ts bounds0 B H N →
  (∀ i, i ∈ idxs → - Z.of_nat B ≤ i < Z.of_nat B) →
  export_attention_subset path ids0 names ts bounds0 (Some idxs) fp16
  = Ok (written_for fp16 path ids0 names (project idxs <$> ts)
          (project idxs bounds0) (length idxs) H N).
Proof.
  intros Hv Hidx. destruct (valid_has_batches _ _ _ _ _ _ Hv) as [Hb Hts].
  rewrite (export_attention_subset_project path ids0 names ts bounds0 idxs fp16 B
             Hb Hts Hidx).
  destruct Hv as (Hne & Hshapes & Hbs & _ & Hids).
  assert (Hproj : Forall (λ t, shape t = [length idxs; H; N; N]) (project idxs <$> ts)).
  { apply Forall_fmap. eapply Forall_impl; [exact Hshapes|].
    intros t [Hs _]. unfold project, compose. cbn [shape]. by rewrite Hs. }
  assert (Hpb : shape (project idxs bounds0) = [length idxs; N]).
  { unfold project. cbn [shape]. by rewrite Hbs. }
  destruct fp16.
  - destruct ts as [|t0 ts']; [done|]. cbn [fmap list_fmap] in *.
    apply Forall_cons in Hproj as [Ht0 _].
    rewrite (export_attention_data_fp16_ok path ids0 names _ _ _
               (length idxs) H N N Ht0 Hpb Hids).
    reflexivity.
  - rewrite (export_attention_data_ok path ids0 names _ _ (length idxs) H N);
      [reflexivity| |exact Hproj|exact Hpb|exact Hids].
    by destruct ts.
Qed.

Lemma range_step1 (start stop : Z) :
  range start stop 1 = Ok (seqZ start (stop - start)).
Proof.
  unfold range, range_len. simpl. f_equal. unfold seqZ.
  destruct (Z.ltb_spec start stop).
  - rewrite Z.div_1_r. replace (stop - start - 1 + 1) with (stop - start) by lia.
    apply map_ext. intros i. lia.
  - by replace (Z.to_nat (stop - start)) with 0%nat by lia.
Qed.

Lemma range_chunk_starts (B : nat) (cs : Z) :
  1 ≤ cs →
  range 0 (Z.of_nat B) cs
  = Ok (map (chunk_start cs) (seq 0 (chunk_count B cs))).
Proof.
  intros Hcs. unfold range, range_len, chunk_count, chunk_start.
  destruct (Z.eqb_spec cs 0); [lia|].
  destruct (Z.ltb_spec 0 cs); [|lia]. f_equal.
  assert (Hn : (if 0 <? Z.of_nat B then (Z.of_nat B - 0 - 1) / cs + 1 else 0)
               = (Z.of_nat B + cs - 1) / cs).
  { destruct (Z.ltb_spec 0 (Z.of_nat B)).
    - replace (Z.of_nat B + cs - 1) with (Z.of_nat B - 0 - 1 + 1 * cs) by lia.
      by rewrite Z.div_add by lia.
    - replace (Z.of_nat B) with 0 by lia. simpl.
      symmetry. apply Z.div_small. lia. }
  rewrite Hn. apply map_ext. intros i. lia.
Qed.

(** The loop exports chunk after chunk, numbering the files from
    [chunk_idx]. *)
Lemma chunk_loop_for_each dir ids0 names ts bounds0 cs fp16 (B : nat) (k n : nat) :
  chunk_loop dir ids0 names ts bounds0 cs fp16 (Z.of_nat B)
    (map (chunk_start cs) (seq k n)) k
  = for_each (λ i, export_attention_subset (chunk_name dir i) ids0 names ts bounds0
                     (Some (chunk_batches B cs i)) fp16)
      (seq k n).
Proof.
  revert k. induction n as [|n IH]; intros k; [done|].
  cbn [seq map chunk_loop for_each]. rewrite range_step1.
  cbn [mbind result_bind]. rewrite IH.
  unfold chunk_batches, chunk_end, chunk_start.
  replace ((Z.of_nat k + 1) * cs) with (Z.of_nat k * cs + cs) by lia.
  reflexivity.
Qed.

Lemma for_each_ok {A B} (f : A → result B) (g : A → B) (xs : list A) :
  (∀ x, x ∈ xs → f x = Ok (g x)) → for_each f xs = Ok (map g xs).
Proof.
  induction xs as [|x xs IH]; intros H; [done|].
  cbn [for_each]. rewrite (H x) by (by left).
  rewrite IH by (intros y Hy; apply H; by right). reflexivity.
Qed.

(** The arithmetic of the chunk ranges. *)
Lemma chunk_bounds (B : nat) (cs : Z) (i : nat) :
  1 ≤ cs → (i < chunk_count B cs)%nat →
  0 ≤ chunk_start cs i < chunk_end B cs i ∧
  chunk_end B cs i ≤ Z.of_nat B ∧
  chunk_end B cs i - chunk_start cs i ≤ cs.
Proof.
  intros Hcs Hi. unfold chunk_count, chunk_start, chunk_end in *.
  assert (Hlt : Z.of_nat i < (Z.of_nat B + cs - 1) / cs).
  { destruct (Z.le_gt_cases 0 ((Z.of_nat B + cs - 1) / cs)); lia. }
  assert (Hmul : Z.of_nat i * cs < Z.of_nat B).
  { assert ((Z.of_nat i + 1) ≤ (Z.of_nat B + cs - 1) / cs) by lia.
    assert (cs * ((Z.of_nat B + cs - 1) / cs) ≤ Z.of_nat B + cs - 1)
      by (apply Z.mul_div_le; lia).
    nia. }
  split; [nia|]. split; lia.
Qed.

Lemma chunk_end_all (B : nat) (cs : Z) :
  1 ≤ cs → Z.of_nat B ≤ Z.of_nat (chunk_count B cs) * cs.
Proof.
  intros Hcs. unfold chunk_count.
  assert (0 ≤ (Z.of_nat B + cs - 1) / cs) by (apply Z.div_pos; lia).
  rewrite Z2Nat.id by done.
  pose proof (Z.mod_pos_bound (Z.of_nat B + cs - 1) cs ltac:(lia)).
  pose proof (Z.div_mod (Z.of_nat B + cs - 1) cs ltac:(lia)). nia.
Qed.

(** The first [n] chunk ranges, one after the other, count up from 0. *)
Lemma chunk_batches_concat (B : nat) (cs : Z) (n : nat) :
  1 ≤ cs →
  concat (map (chunk_batches B cs) (seq 0 n))
  = seqZ 0 (Z.min (Z.of_nat n * cs) (Z.of_nat B)).
Proof.
  intros Hcs. induction n as [|n IH].
  { simpl. rewrite Z.min_l by lia. reflexivity. }
  rewrite seq_S, map_app, concat_app, IH. cbn [map concat Nat.add].
  rewrite app_nil_r. unfold chunk_batches, chunk_start, chunk_end.
  destruct (Z.le_gt_cases (Z.of_nat B) (Z.of_nat n * cs)) as [Hge|Hlt].
  - rewrite !Z.min_r by nia.
    replace (Z.of_nat B - Z.of_nat n * cs) with (- (Z.of_nat n * cs - Z.of_nat B)) by lia.
    unfold seqZ at 2. replace (Z.to_nat _) with 0%nat by lia.
    by rewrite app_nil_r.
  - rewrite (Z.min_l (Z.of_nat n * cs)) by lia.
    replace (Z.min (Z.of_nat (S n) * cs) (Z.of_nat B))
      with (Z.of_nat n * cs
            + (Z.min ((Z.of_nat n + 1) * cs) (Z.of_nat B) - Z.of_nat n * cs)) by lia.
    rewrite seqZ_app by lia. reflexivity.
Qed.

Lemma chunk_batches_in_range (B : nat) (cs : Z) (i : nat) (j : Z) :
  1 ≤ cs → (i < chunk_count B cs)%nat →
  j ∈ chunk_batches B cs i → 0 ≤ j < Z.of_nat B.
Proof.
  intros Hcs Hi Hj. destruct (chunk_bounds B cs i Hcs Hi) as (H1 & H2 & H3).
  unfold chunk_batches in Hj. apply list_elem_of_lookup in Hj as [k Hk].
  apply lookup_seqZ in Hk as [-> Hk]. lia.
Qed.

(** The chunked export in closed form. *)
Lemma export_attention_chunked_eq dir ids0 names ts bounds0 cs fp16 B H N :
  valid_dataset ids0 ts bounds0 B H N → 1 ≤ cs →
  export_attention_chunked dir ids0 names ts bounds0 cs fp16
  = Ok (map (chunk_file fp16 dir ids0 names ts bounds0 B H N cs)
            (seq 0 (chunk_count B cs))).
Proof.
  intros Hv Hcs. unfold export_attention_chunked.
  pose proof Hv as (Hne & Hshapes & _).
  destruct ts as [|t0 ts'] eqn:Ets; [done|].
  cbn [list_get lookup list_lookup mbind result_bind].
  apply Forall_cons in Hshapes as [[Ht0 _] _]. rewrite Ht0.
  cbn [list_get lookup list_lookup mbind result_bind].
  rewrite range_chunk_starts by exact Hcs.
  cbn [mbind result_bind].
  rewrite chunk_loop_for_each. apply for_each_ok.
  intros i Hi. apply elem_of_seq in Hi.
  apply (subset_export_ok _ _ _ _ _ B H N); [exact Hv|].
  intros j Hj. apply (chunk_batches_in_range B cs i) in Hj; [lia|exact Hcs|lia].
Qed.

(** The slices of an array, one after the other, are the array. *)
Lemma slices_concat {A} (s : nat) (xs : list A) (n : nat) :
  concat (map (slice_at s xs) (seq 0 n)) = take (n * s) xs.
Proof.
  induction n as [|n IH]; [done|].
  rewrite seq_S, map_app, concat_app, IH. cbn [map concat Nat.add].
  rewrite app_nil_r. unfold slice_at.
  rewrite take_take_drop. f_equal. lia.
Qed.

Lemma concat_map_nested {A B C D} (f : C → D) (g : B → list C) (h : A → list B)
    (xs : list A) :
  concat (map (λ x, map f (concat (map g (h x)))) xs)
  = map f (concat (map g (concat (map h xs)))).
Proof.
  induction xs as [|x xs IH]; [done|].
  cbn [map concat]. by rewrite map_app, concat_app, map_app, IH.
Qed.

(** The batches of an array, one after the other, are the array. *)
Lemma all_batches_concat (B : nat) (t : ndarray) :
  has_batches B t →
  concat (map (λ i, batch_slice t (batch_of B i)) (seqZ 0 (Z.of_nat B))) = data t.
Proof.
  intros [Hwf HB]. unfold seqZ. change (?f <$> ?xs) with (map f xs).
  rewrite map_map, Nat2Z.id.
  rewrite (map_ext_in _ (slice_at (size_of (tail (shape t))) (data t))).
  - rewrite slices_concat. apply take_ge.
    unfold wf in Hwf. rewrite Hwf.
    destruct (shape t) as [|b rest]; [discriminate|]. injection HB as ->.
    cbn [tail size_of foldr]. done.
  - intros i Hi. apply in_seq in Hi. unfold batch_slice, batch_of. f_equal.
    rewrite Z.add_0_r, Z.mod_small by lia. lia.
Qed.

(** The bounds blocks of the chunk files, one after the other, are the bounds
    block of the full export; likewise the blocks of every layer. *)
Lemma chunked_blocks dir ids0 names ts bounds0 cs fp16 B H N ws :
  valid_dataset ids0 ts bounds0 B H N → 1 ≤ cs →
  export_attention_chunked dir ids0 names ts bounds0 cs fp16 = Ok ws →
  concat (map (λ w, a_bounds (w_file w)) ws) = map to_float32 (data bounds0) ∧
  ∀ l t, ts !! l = Some t →
    concat (map (λ w, default [] (a_layers (w_file w) !! l)) ws)
    = map (if fp16 then to_float16 else to_float32) (data t).
Proof.
  intros Hv Hcs Hws.
  rewrite (export_attention_chunked_eq _ _ _ _ _ _ _ B H N Hv Hcs) in Hws.
  injection Hws as <-.
  destruct (valid_has_batches _ _ _ _ _ _ Hv) as [Hb Hts].
  assert (HB : ∀ t, has_batches B t → hd 0%nat (shape t) = B).
  { intros t [_ Ht]. by destruct (shape t) as [|b rest]; [|injection Ht]. }
  assert (Hall : concat (map (chunk_batches B cs) (seq 0 (chunk_count B cs)))
                 = seqZ 0 (Z.of_nat B)).
  { rewrite chunk_batches_concat by exact Hcs.
    by rewrite Z.min_r by (by apply chunk_end_all). }
  split.
  - rewrite map_map. unfold chunk_file, written_for. cbn [w_file a_bounds].
    unfold project. cbn [data]. rewrite (HB _ Hb).
    rewrite (concat_map_nested to_float32
               (λ i, batch_slice bounds0 (batch_of B i)) (chunk_batches B cs)).
    by rewrite Hall, all_batches_concat.
  - intros l t Hl.
    assert (Ht : has_batches B t).
    { rewrite Forall_forall in Hts. apply Hts. by eapply list_elem_of_lookup_2. }
    rewrite map_map.
    rewrite (map_ext _ (λ i, map (if fp16 then to_float16 else to_float32)
               (concat (map (λ j, batch_slice t (batch_of B j))
                            (chunk_batches B cs i))))).
    + rewrite (concat_map_nested _ (λ j, batch_slice t (batch_of B j))
                 (chunk_batches B cs)).
      by rewrite Hall, all_batches_concat.
    + intros i. unfold chunk_file, written_for. cbn [w_file a_layers].
      change (map ?f (?g <$> ?xs)) with (f <$> (g <$> xs)).
      rewrite !list_lookup_fmap, Hl. cbn [fmap option_fmap option_map default].
      unfold project. cbn [data]. by rewrite (HB _ Ht).
Qed.


End Chunked.


Lemma five_batches_valid :
  valid_dataset FiveBatches.ids FiveBatches.tensors FiveBatches.bounds 5 1 2.
Proof.
  split; [done|]. split; [repeat constructor|]. repeat split.
Qed.


Example sample_chunk_files :
  match @export_attention_chunked Sample.exact_casts "chunks" FiveBatches.ids
          FiveBatches.names FiveBatches.tensors FiveBatches.bounds 2 true with
  | Ok ws => map (λ w, (w_path w, h_B (a_header (w_file w)))) ws
  | Err _ => []
  end
  = [("chunks/chunk_0.attnbin", 2%nat); ("chunks/chunk_1.attnbin", 2%nat);
     ("chunks/chunk_2.attnbin", 1%nat)].
Proof. reflexivity. Qed.

Example sample_chunk_size_zero :
  @export_attention_chunked Sample.exact_casts "chunks" FiveBatches.ids
     FiveBatches.names FiveBatches.tensors FiveBatches.bounds 0 true
  = Err ValueError.
Proof. reflexivity. Qed.

(** ** Rounding of the embedded data *)

Section Rounding.

(** [np.rint] returns a nearest integer. *)
Lemma Qrint_nearest (x : Q) : (Qabs (x - inject_Z (Qrint x)) <= 1 # 2)%Q.
Proof.
  unfold Qrint.
  pose proof (Qfloor_le x) as Hlo. pose proof (Qlt_floor x) as Hhi.
  rewrite inject_Z_plus in Hhi. change (inject_Z 1) with 1%Q in Hhi.
  set (f := Qfloor x) in *.
  apply Qabs_Qle_condition.
  destruct (x - inject_Z f ?= 1 # 2)%Q eqn:E.
  - apply Qeq_alt in E. destruct (Z.even f).
    + split; lra.
    + rewrite inject_Z_plus. change (inject_Z 1) with 1%Q. split; lra.
  - apply Qlt_alt in E. split; lra.
  - apply Qgt_alt in E. rewrite inject_Z_plus. change (inject_Z 1) with 1%Q.
    split; lra.
Qed.

(** [np.round(x, 6)] of a finite number is a multiple of [10^-6] within
    half a unit of the sixth decimal. *)
Lemma round6_spec (q : Q) :
  ∃ k : Z, round6 (Fin q) = Fin (inject_Z k / inject_Z 1000000) ∧
           (Qabs (q * inject_Z 1000000 - inject_Z k) <= 1 # 2)%Q.
Proof.
  exists (Qrint (q * inject_Z 1000000)). split; [reflexivity|].
  apply Qrint_nearest.
Qed.

Lemma chunks_elem_length {A} (n k : nat) (xs c : list A) :
  c ∈ chunks n k xs → (length c ≤ k)%nat.
Proof.
  revert xs. induction n as [|n IH]; intros xs Hc; simpl in Hc.
  { by apply elem_of_nil in Hc. }
  apply elem_of_cons in Hc as [->|Hc]; [|by eapply IH].
  rewrite length_take. lia.
Qed.

(** Reshaping loses no element. *)
Lemma concat_chunks {A} (n k : nat) (xs : list A) :
  concat (chunks n k xs) = take (n * k) xs.
Proof.
  revert xs. induction n as [|n IH]; intros xs; simpl; [done|].
  by rewrite IH, take_take_drop.
Qed.

Lemma concat_map_fixed {A} (f : list A → list A) (l : list (list A)) :
  (∀ x, x ∈ l → f x = x) → concat (map f l) = concat l.
Proof.
  induction l as [|x l IH]; intros H; simpl; [done|].
  rewrite (H x) by (by left). rewrite IH; [done|].
  intros y Hy. apply H. by right.
Qed.

Lemma concat_concat_map {A B} (f : A → list (list B)) (l : list A) :
  concat (concat (map f l)) = concat (map (λ x, concat (f x)) l).
Proof.
  induction l as [|x l IH]; simpl; [done|].
  by rewrite concat_app, IH.
Qed.

Lemma tolist2_flat (t : ndarray) (b n : nat) :
  shape t = [b; n] → wf t → concat (tolist2 t) = data t.
Proof.
  intros Hs Hwf. unfold tolist2. rewrite Hs, concat_chunks.
  apply take_ge. unfold wf in Hwf. rewrite Hwf, Hs. simpl. lia.
Qed.

Lemma tolist4_flat (t : ndarray) (b h n k : nat) :
  shape t = [b; h; n; k] → wf t →
  concat (concat (concat (tolist4 t))) = data t.
Proof.
  intros Hs Hwf. unfold tolist4. rewrite Hs.
  rewrite concat_concat_map, concat_concat_map.
  rewrite (concat_map_fixed _ (chunks b (h * (n * k)) (data t))).
  - rewrite concat_chunks. apply take_ge.
    unfold wf in Hwf. rewrite Hwf, Hs. simpl. lia.
  - intros bl Hbl. apply chunks_elem_length in Hbl.
    rewrite concat_concat_map.
    rewrite (concat_map_fixed _ (chunks h (n * k) bl)).
    + rewrite concat_chunks. by apply take_ge.
    + intros hl Hhl. apply chunks_elem_length in Hhl.
      rewrite concat_chunks. by apply take_ge.
Qed.


End Rounding.

Example sample_noisy_same_view :
  show_attention_graph Sample.ids Sample.names [Sample.layer0_noisy] Sample.bounds 8 1
  = Ok Sample.the_view.
Proof. reflexivity. Qed.


(** ** What the built view guarantees

    The hypotheses of the properties of the script hold in every view that
    [show_attention_graph] builds from a data set of consistent shapes and
    finite values. *)

Section ViewInvariants.

Lemma chunks_length {A} (n k : nat) (xs : list A) : length (chunks n k xs) = n.
Proof. revert xs. induction n as [|n IH]; intros xs; simpl; [done | by rewrite IH]. Qed.

Lemma chunks_elem_exact {A} (n k : nat) (xs c : list A) :
  (n * k ≤ length xs)%nat → c ∈ chunks n k xs → length c = k.
Proof.
  revert xs. induction n as [|n IH]; intros xs Hlen Hc; simpl in Hc.
  { by apply elem_of_nil in Hc. }
  apply elem_of_cons in Hc as [->|Hc].
  - rewrite length_take. lia.
  - apply (IH (drop k xs)); [|exact Hc]. rewrite length_drop. lia.
Qed.

Lemma chunks_elem_sub {A} (n k : nat) (xs c : list A) (x : A) :
  c ∈ chunks n k xs → x ∈ c → x ∈ xs.
Proof.
  revert xs. induction n as [|n IH]; intros xs Hc Hx; simpl in Hc.
  { by apply elem_of_nil in Hc. }
  apply elem_of_cons in Hc as [->|Hc].
  - rewrite <- (take_drop k xs). apply elem_of_app. by left.
  - rewrite <- (take_drop k xs). apply elem_of_app. right. by apply IH.
Qed.

Lemma round6_finite (x : num) : is_finite (round6 x) = is_finite x.
Proof. by destruct x. Qed.

Lemma np_round6_finite (t : ndarray) : all_finite t → all_finite (np_round6 t).
Proof.
  unfold all_finite, np_round6, astype. cbn [data]. intros H.
  apply Forall_forall. intros x Hx.
  change (map ?f ?xs) with (f <$> xs) in Hx.
  apply list_elem_of_fmap in Hx as (y & -> & Hy).
  rewrite round6_finite. rewrite Forall_forall in H. by apply H.
Qed.

(** Every matrix in the nested lists of a 4-D array is [n]-by-[k]. *)
Lemma tolist4_matrices (t : ndarray) (b h n k : nat) slab m :
  shape t = [b; h; n; k] → wf t → all_finite t →
  slab ∈ tolist4 t → m ∈ slab →
  length m = n ∧
  Forall (λ row, length row = k ∧ Forall (λ x, is_finite x = true) row) m.
Proof.
  intros Hs Hwf Hfin Hslab Hm. unfold tolist4 in Hslab. rewrite Hs in Hslab.
  change (map ?f ?xs) with (f <$> xs) in Hslab.
  apply list_elem_of_fmap in Hslab as (bl & -> & Hbl).
  change (map ?f ?xs) with (f <$> xs) in Hm.
  apply list_elem_of_fmap in Hm as (hl & -> & Hhl).
  assert (Hbl_len : length bl = (h * (n * k))%nat).
  { apply (chunks_elem_exact b _ (data t)); [|exact Hbl].
    unfold wf in Hwf. rewrite Hwf, Hs. simpl. lia. }
  assert (Hhl_len : length hl = (n * k)%nat).
  { apply (chunks_elem_exact h _ bl); [lia | exact Hhl]. }
  split; [apply chunks_length|].
  apply Forall_forall. intros row Hrow. split.
  - apply (chunks_elem_exact n _ hl); [lia | exact Hrow].
  - apply Forall_forall. intros x Hx.
    unfold all_finite in Hfin. rewrite Forall_forall in Hfin. apply Hfin.
    eapply chunks_elem_sub; [exact Hbl|].
    eapply chunks_elem_sub; [exact Hhl|].
    eapply chunks_elem_sub; [exact Hrow | exact Hx].
Qed.

Lemma tolist2_rows (t : ndarray) (b n : nat) row :
  shape t = [b; n] → wf t → all_finite t → row ∈ tolist2 t →
  length row = n ∧ Forall (λ x, is_finite x = true) row.
Proof.
  intros Hs Hwf Hfin Hrow. unfold tolist2 in Hrow. rewrite Hs in Hrow. split.
  - apply (chunks_elem_exact b _ (data t)); [|exact Hrow].
    unfold wf in Hwf. rewrite Hwf, Hs. simpl. lia.
  - apply Forall_forall. intros x Hx.
    unfold all_finite in Hfin. rewrite Forall_forall in Hfin. apply Hfin.
    eapply chunks_elem_sub; [exact Hrow | exact Hx].
Qed.

Variables (ids0 : list string) (names : gmap string string).
Variables (tensors : list ndarray) (bounds0 : ndarray) (node_h gap0 : Z).
Variable v : view.
Hypothesis built : show_attention_graph ids0 names tensors bounds0 node_h gap0 = Ok v.

(** The view's fields in terms of the arguments. *)
Lemma view_fields :
  ∃ t0 B H N K,
    tensors !! 0%nat = Some t0 ∧ shape t0 = [B; H; N; K] ∧
    shape bounds0 = [B; N] ∧ length ids0 = N ∧
    ids v = ids0 ∧ fullNames v = full_names_of names ids0 ∧
    attnData v = map (λ t, tolist4 (np_round6 t)) tensors ∧
    boundsData v = tolist2 (np_round6 bounds0) ∧
    vL v = length tensors ∧ vB v = B ∧ vH v = H ∧ vN v = N ∧
    nameBlockW v = 200.
Proof.
  pose proof built as Hshow. unfold show_attention_graph in Hshow.
  unfold list_get in Hshow.
  destruct (tensors !! 0%nat) as [t0|] eqn:Et0; [|discriminate].
  cbn [mbind result_bind] in Hshow.
  destruct (shape t0) as [|B [|H [|N [|K [|]]]]] eqn:Es; try discriminate.
  cbn [unpack4 mbind result_bind] in Hshow.
  destruct (N =? length ids0)%nat eqn:EN; [|discriminate].
  cbn [assert mbind result_bind] in Hshow.
  destruct (shape_eqb (shape bounds0) [B; N]) eqn:Eb; [|discriminate].
  cbn [assert mbind result_bind] in Hshow.
  injection Hshow as <-.
  apply Nat.eqb_eq in EN. apply bool_decide_eq_true in Eb.
  exists t0, B, H, N, K. cbn. repeat split; done.
Qed.

(** The search reads as many ids and names as there are rows. *)
Lemma view_names_lengths :
  length (ids v) = vN v ∧ length (fullNames v) = vN v.
Proof.
  destruct view_fields
    as (t0 & B & H & N & K & _ & _ & _ & Hn & -> & -> & _ & _ & _ & _ & _ & -> & _).
  unfold full_names_of. by rewrite length_map.
Qed.

(** Every bounds row has one finite number per row of the view. *)
Lemma view_bounds_rows (b : nat) (bv : list num) :
  wf bounds0 → all_finite bounds0 →
  boundsData v !! b = Some bv →
  length bv = vN v ∧ Forall (λ x, is_finite x = true) bv ∧ 0 ≤ nameBlockW v.
Proof.
  intros Hwf Hfin Hb.
  destruct view_fields
    as (t0 & B & H & N & K & _ & _ & Hbs & _ & _ & _ & _ & Hbd & _ & _ & _ & -> & ->).
  rewrite Hbd in Hb.
  destruct (tolist2_rows (np_round6 bounds0) B N bv) as [Hlen Hf].
  - exact Hbs.
  - unfold wf, np_round6, astype in *. cbn [data shape]. by rewrite length_map.
  - by apply np_round6_finite.
  - by eapply list_elem_of_lookup_2.
  - split; [exact Hlen|]. split; [exact Hf | lia].
Qed.

(** Every matrix the script can select is [N]-by-[N] and finite, when the
    layers have shape [(B,H,N,N)] and hold finite numbers. *)
Lemma view_matrix_square (st : controls) (l : nat) (m : list (list num)) :
  Forall (λ t, (∃ B H, shape t = [B; H; vN v; vN v]) ∧ wf t ∧ all_finite t) tensors →
  getMatrix v st l = Some (Some m) →
  (l < vL v)%nat ∧ square_finite (vN v) m.
Proof.
  intros Hts Hm.
  destruct view_fields
    as (t0 & B & H & N & K & _ & _ & _ & _ & _ & _ & Hattn & _ & HL & _ & _ & HN & _).
  unfold getMatrix in Hm. cbn [js_index mbind option_bind] in Hm.
  rewrite Hattn in Hm.
  change (map ?f ?xs) with (f <$> xs) in Hm. rewrite list_lookup_fmap in Hm.
  destruct (tensors !! l) as [t|] eqn:Et; [|discriminate]. cbn in Hm.
  destruct (tolist4 (np_round6 t) !! sl_batch st) as [slab|] eqn:Eslab;
    [|by destruct (sl_head st !! l)].
  destruct (sl_head st !! l) as [h|]; [|discriminate]. cbn in Hm.
  injection Hm as Hm.
  split; [rewrite HL; by eapply lookup_lt_Some|].
  rewrite Forall_forall in Hts.
  destruct (Hts t) as ((B' & H' & Hs) & Hwf & Hfin); [by eapply list_elem_of_lookup_2|].
  apply (tolist4_matrices (np_round6 t) B' H' (vN v) (vN v) slab m).
  - exact Hs.
  - unfold wf, np_round6, astype in *. cbn [data shape]. by rewrite length_map.
  - by apply np_round6_finite.
  - by eapply list_elem_of_lookup_2.
  - by eapply list_elem_of_lookup_2.
Qed.

End ViewInvariants.

(* ===================================================================== *)
(** * Part III: further properties of the code                            *)
(* ===================================================================== *)

(** ** Opacity of the threshold lines *)

Section Opacity.

Variable v : view.
Variable l : nat.
Variable m : list (list num).
Hypothesis layer_exists : (l < vL v)%nat.
Hypothesis matrix_square : square_finite (vN v) m.

Lemma line_alpha_Fin (t b q : Q) :
  (t <= q <= b)%Q →
  ∃ a, line_alpha (Fin t) (sub (Fin b) (Fin t))
         {| e_r := 0%nat; e_c := 0%nat; e_v := Fin q |} = Fin a ∧
       (5 # 100 <= a <= 1 # 2)%Q ∧
       ((b <= t)%Q → a = (8 # 100)%Q) ∧
       ((t < b)%Q → a == (5 # 100) + (q - t) / (b - t) * (45 # 100)).
Proof.
  intros [Htq Hqb]. unfold line_alpha, gtb. cbn [sub neg add e_v].
  destruct (ltb (Fin 0) (Fin (b + - t))) eqn:E.
  - apply ltb_Fin in E.
    assert (Hne : Qeq_bool (b + - t) 0 = false).
    { destruct (Qeq_bool (b + - t) 0) eqn:E0; [|done].
      apply Qeq_bool_eq in E0. lra. }
    cbn [div mul add]. rewrite Hne. cbn [mul add].
    eexists. split; [reflexivity|].
    assert (Hr0 : (0 <= (q + - t) / (b + - t))%Q) by (apply Qle_shift_div_l; lra).
    assert (Hr1 : ((q + - t) / (b + - t) <= 1)%Q) by (apply Qle_shift_div_r; lra).
    split; [split; lra|]. split; [intros; lra|].
    intros _. reflexivity.
  - apply ltb_Fin_false in E. eexists. split; [reflexivity|].
    split; [split; lra|]. split; [done|]. intros; lra.
Qed.

(** X1: every line [updateThreshLines] draws has a [stroke-opacity] between
    0.05 and 0.5: the fixed 0.08 when the maximum does not exceed the
    threshold, and otherwise [0.05 + (|v| - thresh) / (mx - thresh) * 0.45]. *)
Theorem line_opacity_range (st : controls) (sv : Z) :
  getMatrix v st l = Some (Some m) →
  sl_thresh st !! l = Some sv →
  ∃ tl mn mx t, updateThreshLines v st l = Some tl ∧
    ((tl_lines tl ≠ []) →
       tl_mn tl = Fin mn ∧ tl_mx tl = Fin mx ∧ tl_thresh tl = Fin t) ∧
    ∀ e α, (e, α) ∈ tl_lines tl →
      ∃ q a, e_v e = Fin q ∧ α = Fin a ∧ (t <= q <= mx)%Q ∧
        (5 # 100 <= a <= 1 # 2)%Q ∧
        ((mx <= t)%Q → a = (8 # 100)%Q) ∧
        ((t < mx)%Q → a == (5 # 100) + (q - t) / (mx - t) * (45 # 100)).
Proof.
  intros Hm Hsv.
  rewrite (updateThreshLines_eq v l m layer_exists matrix_square st sv Hm Hsv).
  destruct (Nat.eq_dec (vN v) 0%nat) as [HN0|HN0].
  { rewrite (cells_empty v m HN0). cbn.
    exists {| tl_mn := PosInf; tl_mx := NegInf;
              tl_thresh := thresh_of PosInf NegInf sv;
              tl_entries := []; tl_lines := [] |}, 0%Q, 0%Q, 0%Q.
    split; [reflexivity|]. split; [done|].
    intros e α H. by apply elem_of_nil in H. }
  destruct (minmax_of_cells v m matrix_square) as (a & b & Hab & Hab0 & Hbnd & _);
    [lia|].
  rewrite Hab. unfold thresh_of. rewrite thresh_Fin.
  set (t := (a + inject_Z sv / inject_Z 1000 * (b + - a))%Q).
  eexists _, a, b, t. split; [reflexivity|].
  cbn [tl_mn tl_mx tl_thresh tl_lines]. split; [done|].
  intros e α Hin.
  change (map ?f ?xs) with (f <$> xs) in Hin.
  apply list_elem_of_fmap in Hin as (e' & [= -> ->] & He).
  unfold JS.slice0 in He. apply elem_of_take in He as (i & He & _).
  apply list_elem_of_lookup_2 in He. rewrite sort_elem_of in He.
  apply (selected_elem v m) in He as (Hr & Hc & Hv & Hge).
  destruct (Hbnd _ _ Hr Hc) as (q & Hq & Hqab). rewrite <- Hv in Hq.
  rewrite Hq in Hge. unfold geb in Hge. apply leb_Fin in Hge.
  destruct (line_alpha_Fin t b q) as (x & Hx & Hrange & Hdeg & Hgen); [lra|].
  exists q, x. split; [exact Hq|]. split.
  { rewrite <- Hx. unfold line_alpha. by rewrite Hq. }
  split; [lra|]. split; [exact Hrange|]. split; [exact Hdeg | exact Hgen].
Qed.

End Opacity.

Lemma line_opacity_range_witness :
  ∃ tl, updateThreshLines Sample.the_view (Sample.sliders 500) 0 = Some tl ∧
    ∀ e α, (e, α) ∈ tl_lines tl → ∃ a, α = Fin a ∧ (5 # 100 <= a <= 1 # 2)%Q.
Proof.
  destruct (line_opacity_range Sample.the_view 0 Sample.matrix0
              (Nat.lt_0_1 : (0 < vL Sample.the_view)%nat) sample_matrix0_square
              (Sample.sliders 500) 500 eq_refl eq_refl)
    as (tl & mn & mx & t & Heq & _ & Hall).
  exists tl. split; [exact Heq|]. intros e α Hin.
  destruct (Hall e α Hin) as (q & a & _ & Ha & _ & Hr & _). eauto.
Defined.

(** ** Connecting segments *)

Section SegmentStyle.

Variable v : view.
Variable st : controls.
Variable l : nat.
Variable m : list (list num).
Hypothesis matrix_at : getMatrix v st l = Some (Some m).
Hypothesis matrix_square : square_finite (vN v) m.

(** The row loop of [makeSegment] leaves the least and greatest magnitude
    of the row. *)
Lemma row_minmax (keyIdx : nat) :
  (keyIdx < vN v)%nat →
  ∃ rmin rmax,
    js_for (λ s c,
        js_index (Some m) keyIdx ≫= λ row,
        js_index row c ≫= λ cell,
        Some (minmax_step s keyIdx c (Math_abs cell)))
      (PosInf, NegInf) (seq 0 (vN v))
    = Some (Fin rmin, Fin rmax) ∧
    (0 <= rmin <= rmax)%Q ∧
    (∀ c, (c < vN v)%nat →
       ∃ q, abs_cell m keyIdx c = Fin q ∧ (rmin <= q <= rmax)%Q) ∧
    (∃ c, (c < vN v)%nat ∧ abs_cell m keyIdx c = Fin rmin) ∧
    (∃ c, (c < vN v)%nat ∧ abs_cell m keyIdx c = Fin rmax).
Proof.
  intros Hk.
  destruct matrix_square as [Hlen Hrows].
  destruct (lookup_lt_is_Some_2 m keyIdx) as [row Hrow]; [lia|].
  set (mk := λ c : nat, {| e_r := keyIdx; e_c := c; e_v := abs_cell m keyIdx c |}).
  assert (Hcells : ∀ e, e ∈ map mk (seq 0 (vN v)) → e ∈ all_cells (vN v) m).
  { intros e He. change (map ?f ?xs) with (f <$> xs) in He.
    apply list_elem_of_fmap in He as (c & -> & Hc). apply elem_of_seq in Hc.
    apply all_cells_elem. cbn. split; [lia|]. split; [lia | done]. }
  destruct (minmax_fold (map mk (seq 0 (vN v))))
    as (a & b & Hfold & Hbnd & (ea & Hea & Hva) & (eb & Heb & Hvb)).
  { destruct (vN v); [lia | done]. }
  { intros e He. destruct (all_cells_finite _ _ e matrix_square (Hcells e He))
      as (q & Hq & _). eauto. }
  exists a, b. split.
  { rewrite (js_for_fold _ (λ s c, minmax_step s keyIdx c (abs_cell m keyIdx c))).
    - rewrite <- Hfold. f_equal. symmetry.
      apply (fold_left_fmap (λ s e, minmax_step s (e_r e) (e_c e) (e_v e)) mk).
    - intros s c _. cbn. unfold abs_cell. rewrite Hrow. reflexivity. }
  split.
  { destruct (all_cells_finite _ _ ea matrix_square (Hcells ea Hea)) as (q & Hq & Hq0).
    rewrite Hva in Hq. injection Hq as <-.
    destruct (Hbnd ea a Hea Hva). split; lra. }
  split.
  { intros c Hc.
    assert (He : mk c ∈ map mk (seq 0 (vN v))).
    { change (map ?f ?xs) with (f <$> xs). apply list_elem_of_fmap.
      exists c. split; [done|]. apply elem_of_seq. lia. }
    destruct (all_cells_finite _ _ (mk c) matrix_square (Hcells _ He)) as (q & Hq & _).
    exists q. split; [exact Hq|]. by apply (Hbnd (mk c) q He). }
  split.
  - change (map ?f ?xs) with (f <$> xs) in Hea.
    apply list_elem_of_fmap in Hea as (c & -> & Hc). apply elem_of_seq in Hc.
    exists c. split; [lia | exact Hva].
  - change (map ?f ?xs) with (f <$> xs) in Heb.
    apply list_elem_of_fmap in Heb as (c & -> & Hc). apply elem_of_seq in Hc.
    exists c. split; [lia | exact Hvb].
Qed.

Lemma makeSegment_defined (keyIdx queryIdx : nat) :
  (keyIdx < vN v)%nat → (queryIdx < vN v)%nat →
  is_Some (makeSegment v st l keyIdx queryIdx).
Proof.
  intros Hk Hq.
  destruct (row_minmax keyIdx Hk) as (rmin & rmax & Hloop & _).
  pose proof matrix_square as [Hlen Hrows].
  destruct (lookup_lt_is_Some_2 m keyIdx) as [row Hrow]; [lia|].
  rewrite Forall_forall in Hrows.
  destruct (Hrows row) as [Hrl _]; [by eapply list_elem_of_lookup_2|].
  destruct (lookup_lt_is_Some_2 row queryIdx) as [val Hval]; [lia|].
  assert (H1 : js_index (Some m) keyIdx = Some (Some row)) by (cbn; by rewrite Hrow).
  assert (H2 : js_index (Some row) queryIdx = Some (Some val)) by (cbn; by rewrite Hval).
  unfold makeSegment. rewrite matrix_at. cbn [mbind option_bind].
  rewrite Hloop, H1. cbn [mbind option_bind]. rewrite H2.
  cbn [mbind option_bind]. eauto.
Qed.

(** X2: on an [N]-by-[N] matrix of finite numbers [makeSegment] never
    throws.  The label is the signed cell [M[keyIdx][queryIdx]]; the stroke
    width is [0.3 + n * 7.7] and the opacity [0.2 + n * 0.45], where [n] is
    the position of [|M[keyIdx][queryIdx]|] between the least and the
    greatest magnitude of row [keyIdx], or 0.5 when the two coincide; so
    the width lies in [[0.3, 8]] and the opacity in [[0.2, 0.65]]. *)
Theorem segment_style (keyIdx queryIdx : nat) :
  (keyIdx < vN v)%nat → (queryIdx < vN v)%nat →
  ∃ s x n rmin rmax,
    makeSegment v st l keyIdx queryIdx = Some s ∧
    m !! keyIdx ≫= (.!! queryIdx) = Some (Fin x) ∧
    seg_val s = Fin x ∧
    (∀ c, (c < vN v)%nat →
       ∃ q, abs_cell m keyIdx c = Fin q ∧ (rmin <= q <= rmax)%Q) ∧
    (rmin <= Qabs x <= rmax)%Q ∧
    ((rmin < rmax)%Q → n == (Qabs x - rmin) / (rmax - rmin)) ∧
    ((rmax <= rmin)%Q → n = (1 # 2)%Q) ∧
    (0 <= n <= 1)%Q ∧
    seg_lw s = Fin ((3 # 10) + n * (77 # 10)) ∧
    seg_alpha s = Fin ((2 # 10) + n * (45 # 100)) ∧
    (3 # 10 <= (3 # 10) + n * (77 # 10) <= 8)%Q ∧
    (2 # 10 <= (2 # 10) + n * (45 # 100) <= 65 # 100)%Q.
Proof.
  intros Hk Hq.
  destruct (row_minmax keyIdx Hk) as (rmin & rmax & Hloop & Hmm & Hbnd & _).
  pose proof matrix_square as [Hlen Hrows].
  destruct (lookup_lt_is_Some_2 m keyIdx) as [row Hrow]; [lia|].
  rewrite Forall_forall in Hrows.
  destruct (Hrows row) as [Hrl Hfin]; [by eapply list_elem_of_lookup_2|].
  destruct (lookup_lt_is_Some_2 row queryIdx) as [val Hval]; [lia|].
  rewrite Forall_forall in Hfin.
  assert (Hvf : is_finite val = true).
  { apply Hfin. by eapply list_elem_of_lookup_2. }
  destruct val as [| |x|]; try discriminate.
  destruct (Hbnd queryIdx Hq) as (q & Habs & Hqr).
  unfold abs_cell in Habs. rewrite Hrow in Habs. cbn in Habs. rewrite Hval in Habs.
  cbn in Habs. injection Habs as <-.
  assert (Hn : ∃ n,
    (if gtb (Fin rmax) (Fin rmin)
     then div (sub (Math_abs (Some (Fin x))) (Fin rmin)) (sub (Fin rmax) (Fin rmin))
     else Fin (1 # 2)) = Fin n ∧
    ((rmin < rmax)%Q → n == (Qabs x - rmin) / (rmax - rmin)) ∧
    ((rmax <= rmin)%Q → n = (1 # 2)%Q) ∧ (0 <= n <= 1)%Q).
  { unfold gtb. destruct (ltb (Fin rmin) (Fin rmax)) eqn:E.
    - apply ltb_Fin in E. cbn [Math_abs JSNum.abs sub neg add div].
      assert (Hne : Qeq_bool (rmax + - rmin) 0 = false).
      { destruct (Qeq_bool (rmax + - rmin) 0) eqn:E0; [|done].
        apply Qeq_bool_eq in E0. lra. }
      rewrite Hne. eexists. split; [reflexivity|].
      split; [intros _; reflexivity|]. split; [intros; lra|].
      split; [apply Qle_shift_div_l; lra | apply Qle_shift_div_r; lra].
    - apply ltb_Fin_false in E. exists (1 # 2)%Q. split; [reflexivity|].
      split; [intros; lra|]. split; [done|]. split; lra. }
  destruct Hn as (n & Hn & Hgen & Hdeg & Hn01).
  exists {| seg_val := Fin x;
            seg_lw := Fin ((3 # 10) + n * (77 # 10));
            seg_alpha := Fin ((2 # 10) + n * (45 # 100)) |}, x, n, rmin, rmax.
  split.
  { assert (H1 : js_index (Some m) keyIdx = Some (Some row)).
    { cbn. by rewrite Hrow. }
    assert (H2 : js_index (Some row) queryIdx = Some (Some (Fin x))).
    { cbn. by rewrite Hval. }
    unfold makeSegment. rewrite matrix_at. cbn [mbind option_bind].
    rewrite Hloop, H1. cbn [mbind option_bind]. rewrite H2.
    cbn [mbind option_bind]. rewrite Hn. reflexivity. }
  split; [by rewrite Hrow; cbn; rewrite Hval|].
  split; [reflexivity|]. split; [exact Hbnd|]. split; [exact Hqr|].
  split; [exact Hgen|]. split; [exact Hdeg|]. split; [exact Hn01|].
  split; [reflexivity|]. split; [reflexivity|]. split; split; lra.
Qed.

End SegmentStyle.

Lemma segment_style_witness :
  ∃ s, makeSegment Sample.the_view (Sample.sliders 500) 0 0 1 = Some s ∧
       seg_val s = Fin (900000 # 1000000).
Proof.
  destruct (segment_style Sample.the_view (Sample.sliders 500) 0 Sample.matrix0
              eq_refl sample_matrix0_square 0 1)
    as (s & x & n & rmin & rmax & Hs & Hx & Hval & _).
  { change (vN Sample.the_view) with 3%nat. lia. }
  { change (vN Sample.the_view) with 3%nat. lia. }
  exists s. split; [exact Hs|]. rewrite Hval.
  cbn in Hx. by injection Hx as <-.
Defined.

(** ** The page stays in sync *)

Section PageLoops.

(** A loop that, at step [i], stores [ys[i]] at index [i] of the array it
    threads through, turns [xs] into [ys]. *)
Lemma js_for_pointwise_aux {A} (body : list A → nat → option (list A))
    (xs ys : list A) (j k : nat) :
  length ys = length xs → (k + j = length xs)%nat →
  (∀ acc i y, ys !! i = Some y → length acc = length xs → acc !! i = xs !! i →
     body acc i = Some (<[i := y]> acc)) →
  js_for body (take k ys ++ drop k xs) (seq k j) = Some ys.
Proof.
  intros Hlen. revert k. induction j as [|j IH]; intros k Hk Hbody; simpl.
  - rewrite take_ge, drop_ge by lia. by rewrite app_nil_r.
  - destruct (lookup_lt_is_Some_2 ys k) as [y Hy]; [lia|].
    destruct (lookup_lt_is_Some_2 xs k) as [x Hx]; [lia|].
    rewrite (Hbody _ k y Hy).
    + simpl.
      replace (<[k:=y]> (take k ys ++ drop k xs))
        with (take (S k) ys ++ drop (S k) xs); [apply IH; [lia | exact Hbody]|].
      rewrite insert_app_r_alt by (rewrite length_take; lia).
      rewrite length_take, Nat.min_l, Nat.sub_diag by lia.
      rewrite (drop_S xs x k Hx). cbn [insert list_insert].
      rewrite (take_S_r ys k y Hy), <- app_assoc. reflexivity.
    + rewrite length_app, length_take, length_drop. lia.
    + rewrite lookup_app_r by (rewrite length_take; lia).
      rewrite length_take, Nat.min_l, Nat.sub_diag by lia.
      by rewrite lookup_drop, Nat.add_0_r.
Qed.

Lemma js_for_pointwise {A} (body : list A → nat → option (list A))
    (xs ys : list A) :
  length ys = length xs →
  (∀ acc i y, ys !! i = Some y → length acc = length xs → acc !! i = xs !! i →
     body acc i = Some (<[i := y]> acc)) →
  js_for body xs (seq 0 (length xs)) = Some ys.
Proof.
  intros Hlen Hbody.
  exact (js_for_pointwise_aux body xs ys (length xs) 0 Hlen eq_refl Hbody).
Qed.

(** A list with prescribed entries. *)
Lemma tabulate_Some {A} (f : nat → option A) (n : nat) :
  (∀ i, (i < n)%nat → is_Some (f i)) →
  ∃ ys, length ys = n ∧ ∀ i, (i < n)%nat → ys !! i = f i.
Proof.
  induction n as [|n IH]; intros Hf.
  { exists []. split; [done|]. intros i Hi. lia. }
  destruct IH as (ys & Hlen & Hys); [intros i Hi; apply Hf; lia|].
  destruct (Hf n) as [y Hy]; [lia|].
  exists (ys ++ [y]). split; [rewrite length_app; simpl; lia|].
  intros i Hi. destruct (decide (i = n)) as [->|Hne].
  - rewrite lookup_app_r by lia. rewrite Hlen, Nat.sub_diag. by rewrite Hy.
  - rewrite lookup_app_l by lia. apply Hys. lia.
Qed.

End PageLoops.

Section PageSync.

Variable v : view.
Hypothesis Hv : view_ok v.

(** *** What a redraw reads *)

Lemma getMatrix_ext (st st' : controls) (l : nat) :
  sl_batch st' = sl_batch st → sl_head st' !! l = sl_head st !! l →
  getMatrix v st' l = getMatrix v st l.
Proof. intros Hb Hh. unfold getMatrix. by rewrite Hb, Hh. Qed.

Lemma drawThreshLines_ext (st st' : controls) (l : nat) :
  sl_batch st' = sl_batch st → sl_head st' !! l = sl_head st !! l →
  sl_thresh st' !! l = sl_thresh st !! l →
  Page.drawThreshLines v st' l = Page.drawThreshLines v st l.
Proof.
  intros Hb Hh Ht. unfold Page.drawThreshLines, updateThreshLines.
  by rewrite (getMatrix_ext st st' l Hb Hh), Ht.
Qed.

Lemma drawSegment_ext (st st' : controls) (l k q : nat) :
  sl_batch st' = sl_batch st → sl_head st' !! l = sl_head st !! l →
  Page.drawSegment v st' l k q = Page.drawSegment v st l k q.
Proof.
  intros Hb Hh. unfold Page.drawSegment, makeSegment.
  by rewrite (getMatrix_ext st st' l Hb Hh).
Qed.

Lemma updateRedFills_ext (st st' : controls) :
  sl_batch st' = sl_batch st → updateRedFills v st' = updateRedFills v st.
Proof. intros Hb. unfold updateRedFills. by rewrite Hb. Qed.

(** *** Redraws succeed within the sliders' ranges *)

Lemma getMatrix_ok (st : controls) (l : nat) :
  controls_ok v st → (l < vL v)%nat →
  ∃ m, getMatrix v st l = Some (Some m) ∧ square_finite (vN v) m.
Proof.
  intros (Hb & Hhl & Hh & _) Hl.
  destruct (lookup_lt_is_Some_2 (sl_head st) l) as [h Hhd]; [lia|].
  assert (Hh' : (h < vH v)%nat).
  { rewrite Forall_forall in Hh. apply Hh. by eapply list_elem_of_lookup_2. }
  destruct Hv as (_ & _ & Hm & _).
  destruct (Hm l (sl_batch st) h Hl Hb Hh') as (layer & slab & m & H1 & H2 & H3 & Hsq).
  exists m. split; [|exact Hsq].
  unfold getMatrix. cbn [js_index]. rewrite H1. cbn [mbind option_bind js_index].
  rewrite H2. cbn [mbind option_bind]. rewrite Hhd. cbn [mbind option_bind js_index].
  by rewrite H3.
Qed.

Lemma drawThreshLines_ok (st : controls) (l : nat) :
  controls_ok v st → (l < vL v)%nat → is_Some (Page.drawThreshLines v st l).
Proof.
  intros Hst Hl. destruct (getMatrix_ok st l Hst Hl) as (m & Hm & Hsq).
  destruct Hst as (_ & _ & _ & Htl).
  destruct (lookup_lt_is_Some_2 (sl_thresh st) l) as [sv Hsv]; [lia|].
  unfold Page.drawThreshLines.
  rewrite (updateThreshLines_eq v l m Hl Hsq st sv Hm Hsv).
  destruct (minmax_of _). cbn. eauto.
Qed.

Lemma drawSegment_ok (st : controls) (l k q : nat) :
  controls_ok v st → (l < vL v)%nat → (k < vN v)%nat → (q < vN v)%nat →
  is_Some (Page.drawSegment v st l k q).
Proof.
  intros Hst Hl Hk Hq. destruct (getMatrix_ok st l Hst Hl) as (m & Hm & Hsq).
  destruct (makeSegment_defined v st l m Hm Hsq k q Hk Hq) as [s Hs].
  unfold Page.drawSegment. rewrite Hs. cbn. eauto.
Qed.

Lemma updateRedFills_ok (st : controls) :
  controls_ok v st → is_Some (updateRedFills v st).
Proof.
  intros (Hb & _). destruct Hv as (_ & _ & _ & Hrows).
  destruct (Hrows _ Hb) as [bv Hbv].
  rewrite (updateRedFills_eq v st bv Hbv). eauto.
Qed.

(** [updateAllThresh] redraws every group. *)
Lemma updateAllThresh_ok (st : controls) (groups : list Page.group) :
  controls_ok v st → length groups = vL v →
  ∃ groups', Page.updateAllThresh v st groups = Some groups' ∧
    length groups' = vL v ∧
    ∀ l, (l < vL v)%nat → groups' !! l = Page.drawThreshLines v st l.
Proof.
  intros Hst Hlen.
  destruct (tabulate_Some (Page.drawThreshLines v st) (vL v)) as (ys & Hys & Hget).
  { intros l Hl. by apply drawThreshLines_ok. }
  exists ys. split; [|split; [exact Hys | exact Hget]].
  unfold Page.updateAllThresh. rewrite <- Hlen.
  apply js_for_pointwise; [lia|].
  intros acc l g Hg _ _.
  rewrite <- Hget, Hg by (apply lookup_lt_Some in Hg; lia). reflexivity.
Qed.

End PageSync.

Section PageChain.

Variable v : view.
Hypothesis Hv : view_ok v.

(** *** Chains and their links *)

Lemma chain_col_lookup (ch : list node) (first a : node) (i : nat) :
  chain_ok v ch → head ch = Some first → ch !! i = Some a →
  col a = (col first + i)%nat.
Proof.
  intros Hok Hf Ha. destruct (Hok first Hf) as [Hcont _].
  unfold contiguous_from in Hcont.
  assert (H : map col ch !! i = Some (col a)).
  { change (map col ch) with (col <$> ch). by rewrite list_lookup_fmap, Ha. }
  rewrite Hcont in H. apply lookup_seq in H as [H _]. exact H.
Qed.

Lemma link_at_Some (ch : list node) (i : nat) (a b : node) :
  link_at ch i = Some (a, b) ↔ ch !! i = Some a ∧ ch !! S i = Some b.
Proof.
  unfold link_at. split.
  - destruct (ch !! i) as [a'|]; [|discriminate]. cbn.
    destruct (ch !! S i) as [b'|]; [|discriminate]. cbn.
    intros [= -> ->]. done.
  - intros [-> ->]. reflexivity.
Qed.

Lemma link_at_None (ch : list node) (i : nat) :
  (length ch ≤ S i)%nat → link_at ch i = None.
Proof.
  intros Hi. unfold link_at.
  rewrite (lookup_ge_None_2 ch (S i)) by lia.
  by destruct (ch !! i).
Qed.

Lemma link_at_is_Some (ch : list node) (i : nat) :
  (S i < length ch)%nat → is_Some (link_at ch i).
Proof.
  intros Hi. unfold link_at.
  destruct (lookup_lt_is_Some_2 ch i) as [a ->]; [lia|].
  destruct (lookup_lt_is_Some_2 ch (S i)) as [b ->]; [lia|].
  cbn. eauto.
Qed.

(** A link of a chain lies inside the graph and spans one layer. *)
Lemma link_ok (ch : list node) (i : nat) (a b : node) :
  nodes_ok v ch → chain_ok v ch → link_at ch i = Some (a, b) →
  (col a < vL v)%nat ∧ (idx a < vN v)%nat ∧ (idx b < vN v)%nat ∧ col b = S (col a).
Proof.
  intros Hn Hok [Ha Hb]%link_at_Some.
  unfold nodes_ok in Hn. rewrite Forall_forall in Hn.
  destruct (Hn a) as [_ Hia]; [by eapply list_elem_of_lookup_2|].
  destruct (Hn b) as [Hcb Hib]; [by eapply list_elem_of_lookup_2|].
  destruct ch as [|first rest]; [discriminate Ha|].
  pose proof (chain_col_lookup _ first a i Hok eq_refl Ha).
  pose proof (chain_col_lookup _ first b (S i) Hok eq_refl Hb).
  lia.
Qed.

Lemma link_draw_ok (st : controls) (ch : list node) (i : nat) :
  controls_ok v st → nodes_ok v ch → chain_ok v ch → (S i < length ch)%nat →
  is_Some (link_at ch i ≫= λ '(a, b), Page.drawSegment v st (col a) (idx a) (idx b)).
Proof.
  intros Hst Hn Hok Hi. destruct (link_at_is_Some ch i Hi) as [[a b] Hl].
  rewrite Hl. cbn. destruct (link_ok ch i a b Hn Hok Hl) as (H1 & H2 & H3 & _).
  by apply drawSegment_ok.
Qed.

(** One segment per link. *)
Lemma segments_ok_length (st : controls) (ch : list node) (segs : list Page.seg_art) :
  controls_ok v st → nodes_ok v ch → chain_ok v ch → segments_ok v st ch segs →
  length segs = (length ch - 1)%nat.
Proof.
  intros Hst Hn Hok Hs.
  destruct (Nat.lt_trichotomy (length segs) (length ch - 1)) as [Hlt|[Heq|Hgt]];
    [|exact Heq|].
  - pose proof (Hs (length segs)) as H.
    rewrite (lookup_ge_None_2 segs) in H by lia.
    destruct (link_draw_ok st ch (length segs) Hst Hn Hok) as [s Hs']; [lia|].
    rewrite Hs' in H. discriminate.
  - pose proof (Hs (length ch - 1)%nat) as H.
    rewrite link_at_None in H by lia.
    apply lookup_ge_None_1 in H. lia.
Qed.

Lemma segments_ok_ext (st st' : controls) (ch : list node) (segs : list Page.seg_art) :
  sl_batch st' = sl_batch st → sl_head st' = sl_head st →
  segments_ok v st ch segs → segments_ok v st' ch segs.
Proof.
  intros Hb Hh Hs i. rewrite (Hs i).
  destruct (link_at ch i) as [[a b]|]; [|done]. cbn.
  symmetry. apply drawSegment_ext; [done | by rewrite Hh].
Qed.

(** *** Redrawing the segments *)

Lemma redrawAllSegments_ok (st st' : controls) (ch : list node)
    (segs : list Page.seg_art) :
  controls_ok v st → controls_ok v st' → nodes_ok v ch → chain_ok v ch →
  segments_ok v st ch segs →
  ∃ segs', Page.redrawAllSegments v st' ch segs = Some segs' ∧
           segments_ok v st' ch segs'.
Proof.
  intros Hst Hst' Hn Hok Hs.
  pose proof (segments_ok_length st ch segs Hst Hn Hok Hs) as Hlen.
  set (f := λ i, link_at ch i ≫=
                 λ '(a, b), Page.drawSegment v st' (col a) (idx a) (idx b)).
  destruct (tabulate_Some f (length segs)) as (ys & Hys & Hget).
  { intros i Hi. apply link_draw_ok; [done..|lia]. }
  exists ys. split.
  - unfold Page.redrawAllSegments. apply js_for_pointwise; [exact Hys|].
    intros acc i y Hy _ _.
    assert (Hi : (i < length segs)%nat) by (apply lookup_lt_Some in Hy; lia).
    rewrite (Hget i Hi) in Hy. unfold f in Hy.
    destruct (link_at ch i) as [[a b]|] eqn:Hl; [|discriminate]. cbn in Hy.
    apply link_at_Some in Hl as [Ha Hb].
    unfold Page.redrawSegment. rewrite Ha. cbn. rewrite Hb. cbn. rewrite Hy.
    reflexivity.
  - intros i. destruct (decide (i < length segs)%nat) as [Hi|Hi].
    + by rewrite (Hget i Hi).
    + rewrite (lookup_ge_None_2 ys) by lia.
      rewrite link_at_None by lia. reflexivity.
Qed.

Lemma redrawSegmentsForLayer_ok (st st' : controls) (ch : list node)
    (segs : list Page.seg_art) (l : nat) :
  controls_ok v st → controls_ok v st' → nodes_ok v ch → chain_ok v ch →
  sl_batch st' = sl_batch st →
  (∀ k, k ≠ l → sl_head st' !! k = sl_head st !! k) →
  segments_ok v st ch segs →
  ∃ segs', Page.redrawSegmentsForLayer v st' ch segs l = Some segs' ∧
           segments_ok v st' ch segs'.
Proof.
  intros Hst Hst' Hn Hok Hb Hh Hs.
  pose proof (segments_ok_length st ch segs Hst Hn Hok Hs) as Hlen.
  set (f := λ i, link_at ch i ≫=
                 λ '(a, b), Page.drawSegment v st' (col a) (idx a) (idx b)).
  destruct (tabulate_Some f (length segs)) as (ys & Hys & Hget).
  { intros i Hi. apply link_draw_ok; [done..|lia]. }
  exists ys. split.
  - unfold Page.redrawSegmentsForLayer. apply js_for_pointwise; [exact Hys|].
    intros acc i y Hy Hacc Hsame.
    assert (Hi : (i < length segs)%nat) by (apply lookup_lt_Some in Hy; lia).
    rewrite (Hget i Hi) in Hy. unfold f in Hy.
    destruct (link_at ch i) as [[a b]|] eqn:Hl; [|discriminate]. cbn in Hy.
    pose proof Hl as [Ha Hb']%link_at_Some.
    rewrite Ha. cbn. destruct (col a =? l)%nat eqn:E.
    + unfold Page.redrawSegmentAt.
      destruct (length acc <=? i)%nat eqn:E'; [apply Nat.leb_le in E'; lia|].
      unfold Page.redrawSegment. rewrite Ha. cbn. rewrite Hb'. cbn. rewrite Hy.
      reflexivity.
    + apply Nat.eqb_neq in E. f_equal. symmetry. apply list_insert_id.
      rewrite Hsame, (Hs i), Hl. cbn. rewrite <- Hy. symmetry.
      apply drawSegment_ext; [exact Hb | by apply Hh].
  - intros i. destruct (decide (i < length segs)%nat) as [Hi|Hi].
    + by rewrite (Hget i Hi).
    + rewrite (lookup_ge_None_2 ys) by lia.
      rewrite link_at_None by lia. reflexivity.
Qed.

End PageChain.

Section PageOps.

Variable v : view.
Hypothesis Hv : view_ok v.

(** *** The chain operations on the drawn segments *)

Lemma last_List_last {A} (l : list A) (d : A) :
  l ≠ [] → last l = Some (List.last l d).
Proof.
  intros Hne. destruct (exists_last Hne) as (l' & x & ->).
  by rewrite last_snoc, last_last.
Qed.

Lemma segments_ok_single (st : controls) (n : node) :
  segments_ok v st [n] [].
Proof. intros i. by rewrite link_at_None by (simpl; lia). Qed.

Lemma segments_ok_extend (st : controls) (ch : list node)
    (segs : list Page.seg_art) (prev n : node) (s : Page.seg_art) :
  last ch = Some prev → length segs = (length ch - 1)%nat →
  segments_ok v st ch segs →
  Page.drawSegment v st (col prev) (idx prev) (idx n) = Some s →
  segments_ok v st (ch ++ [n]) (segs ++ [s]).
Proof.
  intros Hlast Hlen Hs Hd i.
  assert (Hne : (0 < length ch)%nat).
  { destruct ch; [discriminate Hlast | simpl; lia]. }
  rewrite last_lookup in Hlast.
  destruct (Nat.lt_trichotomy i (length segs)) as [Hi|[->|Hi]].
  - rewrite lookup_app_l by lia. rewrite (Hs i). unfold link_at.
    by rewrite !lookup_app_l by lia.
  - rewrite lookup_app_r, Nat.sub_diag by lia. unfold link_at.
    rewrite (lookup_app_l ch [n] (length segs)) by lia.
    replace (length segs) with (Init.Nat.pred (length ch)) by lia.
    rewrite Hlast. cbn [mbind option_bind]. rewrite lookup_app_r by lia.
    replace (S (Init.Nat.pred (length ch)) - length ch)%nat with 0%nat by lia.
    change ([n] !! 0%nat) with (Some n). cbn [mbind option_bind].
    by rewrite Hd.
  - rewrite lookup_ge_None_2 by (rewrite length_app; simpl; lia).
    by rewrite link_at_None by (rewrite length_app; simpl; lia).
Qed.

Lemma segments_ok_truncate (st : controls) (ch : list node)
    (segs : list Page.seg_art) (pos : nat) :
  segments_ok v st ch segs →
  segments_ok v st (take pos ch) (take (Nat.max 0 (pos - 1)) segs).
Proof.
  intros Hs i. rewrite Nat.max_r by lia. rewrite lookup_take.
  case_decide as Hi.
  - rewrite (Hs i). unfold link_at. rewrite !lookup_take.
    rewrite !decide_True by lia. reflexivity.
  - rewrite link_at_None; [done|]. rewrite length_take. lia.
Qed.

(** The two blocks of [replaceAt] redraw exactly the segments that touch
    the replaced element. *)
Lemma replace_segments_ok (p : Page.page) (pos c i : nat) (old : node) :
  in_sync v p → Page.p_chain p !! pos = Some old → col old = c →
  (i < vN v)%nat →
  ∃ segs1 segs2,
    Page.replace_incoming v p pos i = Some segs1 ∧
    Page.replace_outgoing v p segs1 pos c i = Some segs2 ∧
    segments_ok v (Page.p_controls p)
      (<[pos := {| col := c; idx := i |}]> (Page.p_chain p)) segs2.
Proof.
  intros (Hst & Hn & Hok & _ & Hs & _) Hold Hc Hi.
  set (st := Page.p_controls p) in *. set (ch := Page.p_chain p) in *.
  set (segs := Page.p_segments p) in *.
  pose proof (segments_ok_length v Hv st ch segs Hst Hn Hok Hs) as Hlen.
  assert (Hpos : (pos < length ch)%nat) by (by eapply lookup_lt_Some).
  (* incoming *)
  assert (Hin : ∃ segs1, Page.replace_incoming v p pos i = Some segs1 ∧
            length segs1 = length segs ∧
            (∀ j, S j ≠ pos → segs1 !! j = segs !! j) ∧
            (∀ j a, S j = pos → ch !! j = Some a →
               segs1 !! j = Page.drawSegment v st (col a) (idx a) i)).
  { unfold Page.replace_incoming. fold st ch segs.
    destruct (0 <? pos)%nat eqn:E.
    - apply Nat.ltb_lt in E.
      destruct (lookup_lt_is_Some_2 segs (pos - 1)) as [s0 Hs0]; [lia|].
      destruct (lookup_lt_is_Some_2 ch (pos - 1)) as [a Ha]; [lia|].
      destruct (link_ok v ch (pos - 1) a old Hn Hok) as (Hca & Hia & _ & _).
      { apply link_at_Some. split; [exact Ha|].
        by replace (S (pos - 1)) with pos by lia. }
      destruct (drawSegment_ok v Hv st (col a) (idx a) i Hst Hca Hia Hi) as [s1 Hs1].
      rewrite Hs0. cbn [mbind option_bind col idx]. rewrite Ha. cbn [mbind option_bind col idx]. rewrite Hs1. cbn [mbind option_bind col idx].
      eexists. split; [reflexivity|]. split; [by rewrite length_insert|]. split.
      + intros j Hj. apply list_lookup_insert_ne. lia.
      + intros j a' Hj Ha'. replace (pos - 1)%nat with j in * by lia.
        rewrite list_lookup_insert_eq by lia.
        rewrite Ha in Ha'. by injection Ha' as <-.
    - apply Nat.ltb_ge in E. exists segs. split; [done|]. split; [done|].
      split; [done|]. intros j a' Hj. lia. }
  destruct Hin as (segs1 & Hin & Hlen1 & Hsame1 & Hnew1).
  exists segs1. rewrite Hin.
  (* outgoing *)
  assert (Hcl : (S pos < length ch)%nat → (c < vL v)%nat ∧
            ∃ b, ch !! S pos = Some b ∧ (idx b < vN v)%nat).
  { intros Hlt. destruct (lookup_lt_is_Some_2 ch (S pos)) as [b Hb]; [lia|].
    destruct (link_ok v ch pos old b Hn Hok) as (Hca & _ & Hib & _).
    { by apply link_at_Some. }
    split; [lia|]. by exists b. }
  unfold Page.replace_outgoing. fold st ch.
  destruct (pos <? length ch - 1)%nat eqn:E.
  - apply Nat.ltb_lt in E. destruct Hcl as (Hcl & b & Hb & Hib); [lia|].
    destruct (lookup_lt_is_Some_2 segs1 pos) as [s0 Hs0]; [lia|].
    destruct (drawSegment_ok v Hv st c i (idx b) Hst Hcl Hi Hib) as [s2 Hs2].
    rewrite Hs0. cbn [mbind option_bind col idx]. replace (pos + 1)%nat with (S pos) by lia.
    rewrite Hb. cbn [mbind option_bind col idx]. rewrite Hs2. cbn [mbind option_bind col idx].
    eexists. split; [done|]. split; [reflexivity|].
    intros j. unfold link_at. destruct (decide (j = pos)) as [->|Hj].
    + rewrite !list_lookup_insert_eq by lia. cbn [mbind option_bind col idx].
      rewrite list_lookup_insert_ne by lia. rewrite Hb. cbn [mbind option_bind col idx]. by rewrite Hs2.
    + rewrite (list_lookup_insert_ne segs1) by done.
      rewrite (list_lookup_insert_ne ch pos j) by done.
      destruct (decide (S j = pos)) as [Hj'|Hj'].
      * destruct (lookup_lt_is_Some_2 ch j) as [a Ha]; [lia|].
        rewrite (Hnew1 j a Hj' Ha), Ha. cbn [mbind option_bind col idx].
        rewrite Hj', list_lookup_insert_eq by lia.
        reflexivity.
      * rewrite (list_lookup_insert_ne ch pos (S j)) by lia.
        rewrite (Hsame1 j Hj'). apply Hs.
  - apply Nat.ltb_ge in E. eexists. split; [done|]. split; [reflexivity|].
    intros j. unfold link_at. destruct (decide (j = pos)) as [->|Hj].
    + rewrite (lookup_ge_None_2 segs1) by lia.
      rewrite (lookup_ge_None_2 _ (S pos)) by (rewrite length_insert; lia).
      by destruct (<[pos:=_]> ch !! pos).
    + rewrite (list_lookup_insert_ne ch pos j) by done.
      destruct (decide (S j = pos)) as [Hj'|Hj'].
      * destruct (lookup_lt_is_Some_2 ch j) as [a Ha]; [lia|].
        rewrite (Hnew1 j a Hj' Ha), Ha. cbn [mbind option_bind col idx].
        rewrite Hj', list_lookup_insert_eq by lia.
        reflexivity.
      * rewrite (list_lookup_insert_ne ch pos (S j)) by lia.
        rewrite (Hsame1 j Hj'). apply Hs.
Qed.

End PageOps.

Section PageHandlers.

Variable v : view.
Hypothesis Hv : view_ok v.

(** *** The handlers *)

Local Ltac sync_split :=
  unfold in_sync;
  cbn [Page.start Page.clearChain Page.truncateFrom Page.p_controls Page.p_chain
       Page.p_hlRects Page.p_segments Page.p_threshGroups Page.p_redRects app];
  split_and!; try done.

Lemma initial_controls_ok : controls_ok v (Page.initial_controls v).
Proof.
  destruct Hv as (HB & HH & _). unfold controls_ok, Page.initial_controls. cbn.
  rewrite !length_replicate. repeat split; try done.
  apply Forall_replicate. exact HH.
Qed.

Lemma load_ok :
  ∃ p, Page.load v = Some p ∧ in_sync v p ∧ Page.ui_of p = initial_ui.
Proof.
  pose proof initial_controls_ok as Hst.
  destruct (updateRedFills_ok v Hv _ Hst) as [red Hred].
  destruct (updateAllThresh_ok v Hv _ (replicate (vL v) Page.empty_group) Hst)
    as (groups & Hg & Hglen & Hgl); [by rewrite length_replicate|].
  unfold Page.load. rewrite Hred. cbn [mbind option_bind]. rewrite Hg.
  cbn [mbind option_bind]. eexists. split; [reflexivity|]. split; [|reflexivity].
  sync_split. apply Forall_nil_2.
Qed.

Lemma on_batch_ok (p : Page.page) (b : nat) :
  in_sync v p → (b < vB v)%nat →
  ∃ p', Page.on_batch v p b = Some p' ∧ in_sync v p' ∧ Page.ui_of p' = Page.ui_of p.
Proof.
  intros (Hst & Hn & Hok & Hhl & Hs & (Hglen & Hg) & Hred) Hb.
  set (st' := {| sl_batch := b; sl_head := sl_head (Page.p_controls p);
                 sl_thresh := sl_thresh (Page.p_controls p) |}).
  assert (Hst' : controls_ok v st').
  { destruct Hst as (_ & H1 & H2 & H3). by repeat split. }
  destruct (updateRedFills_ok v Hv _ Hst') as [red Hred'].
  destruct (updateAllThresh_ok v Hv _ (Page.p_threshGroups p) Hst' Hglen)
    as (groups & Hgs & Hglen' & Hg').
  destruct (redrawAllSegments_ok v Hv _ st' _ _ Hst Hst' Hn Hok Hs)
    as (segs & Hsegs & Hs').
  unfold Page.on_batch. fold st'. rewrite Hred'. cbn [mbind option_bind].
  rewrite Hgs. cbn [mbind option_bind]. rewrite Hsegs. cbn [mbind option_bind].
  eexists. split; [reflexivity|]. split; [|reflexivity].
  sync_split.
Qed.

Lemma groups_ok_update (st st' : controls) (groups : list Page.group) (layer : nat) :
  controls_ok v st' → (layer < vL v)%nat →
  sl_batch st' = sl_batch st →
  (∀ k, k ≠ layer → sl_head st' !! k = sl_head st !! k) →
  (∀ k, k ≠ layer → sl_thresh st' !! k = sl_thresh st !! k) →
  groups_ok v st groups →
  ∃ g, Page.drawThreshLines v st' layer = Some g ∧
       groups_ok v st' (<[layer := g]> groups).
Proof.
  intros Hst' Hl Hb Hh Ht (Hglen & Hg).
  destruct (drawThreshLines_ok v Hv st' layer Hst' Hl) as [g Hgd].
  exists g. split; [exact Hgd|]. split; [by rewrite length_insert|].
  intros l Hl'. destruct (decide (l = layer)) as [->|Hne].
  - rewrite list_lookup_insert_eq by lia. by rewrite Hgd.
  - rewrite list_lookup_insert_ne by done. rewrite (Hg l Hl').
    symmetry. apply drawThreshLines_ext; [done | by apply Hh | by apply Ht].
Qed.

Lemma on_head_ok (p : Page.page) (layer h : nat) :
  in_sync v p → (layer < vL v)%nat → (h < vH v)%nat →
  ∃ p', Page.on_head v p layer h = Some p' ∧ in_sync v p' ∧
        Page.ui_of p' = Page.ui_of p.
Proof.
  intros (Hst & Hn & Hok & Hhl & Hs & Hg & Hred) Hl Hh.
  set (st' := {| sl_batch := sl_batch (Page.p_controls p);
                 sl_head := <[layer := h]> (sl_head (Page.p_controls p));
                 sl_thresh := sl_thresh (Page.p_controls p) |}).
  assert (Hst' : controls_ok v st').
  { destruct Hst as (H0 & H1 & H2 & H3). repeat split; try done.
    - cbn. by rewrite length_insert.
    - cbn. by apply Forall_insert. }
  assert (Hne : ∀ k, k ≠ layer → sl_head st' !! k = sl_head (Page.p_controls p) !! k).
  { intros k Hk. cbn. by apply list_lookup_insert_ne. }
  destruct (groups_ok_update (Page.p_controls p) st' _ layer Hst' Hl eq_refl Hne (λ _ _, eq_refl) Hg)
    as (g & Hgd & Hg').
  destruct (redrawSegmentsForLayer_ok v Hv (Page.p_controls p) st' _ _ layer Hst Hst' Hn Hok eq_refl Hne Hs)
    as (segs & Hsegs & Hs').
  unfold Page.on_head. fold st'. rewrite Hgd. cbn [mbind option_bind].
  rewrite Hsegs. cbn [mbind option_bind].
  eexists. split; [reflexivity|]. split; [|reflexivity].
  sync_split.
Qed.

Lemma on_thresh_ok (p : Page.page) (layer : nat) (s : Z) :
  in_sync v p → (layer < vL v)%nat →
  ∃ p', Page.on_thresh v p layer s = Some p' ∧ in_sync v p' ∧
        Page.ui_of p' = Page.ui_of p.
Proof.
  intros (Hst & Hn & Hok & Hhl & Hs & Hg & Hred) Hl.
  set (st' := {| sl_batch := sl_batch (Page.p_controls p);
                 sl_head := sl_head (Page.p_controls p);
                 sl_thresh := <[layer := s]> (sl_thresh (Page.p_controls p)) |}).
  assert (Hst' : controls_ok v st').
  { destruct Hst as (H0 & H1 & H2 & H3). repeat split; try done.
    cbn. by rewrite length_insert. }
  assert (Hne : ∀ k, k ≠ layer →
            sl_thresh st' !! k = sl_thresh (Page.p_controls p) !! k).
  { intros k Hk. cbn. by apply list_lookup_insert_ne. }
  destruct (groups_ok_update (Page.p_controls p) st' _ layer Hst' Hl eq_refl (λ _ _, eq_refl) Hne Hg)
    as (g & Hgd & Hg').
  unfold Page.on_thresh. fold st'. rewrite Hgd. cbn [mbind option_bind].
  eexists. split; [reflexivity|]. split; [|reflexivity].
  sync_split.
Qed.

(** A click on a node: the handler returns, the artifacts follow the chain,
    and the chain is the one [click_node] computes. *)
Lemma click_node_sync (p : Page.page) (c i : nat) :
  in_sync v p → (c ≤ vL v)%nat → (i < vN v)%nat →
  ∃ p', Page.click_node v p c i = Some p' ∧ in_sync v p' ∧
        Page.p_chain p' = click_node v (Page.p_chain p) c i ∧
        Page.p_pinnedIdx p' = Page.p_pinnedIdx p ∧
        Page.p_searchValue p' = Page.p_searchValue p.
Proof.
  intros Hsync Hc Hi.
  pose proof Hsync as (Hst & Hn & Hok & Hhl & Hs & Hg & Hred).
  pose proof (segments_ok_length v Hv _ _ _ Hst Hn Hok Hs) as Hlen.
  pose proof (click_node_ok v (Page.p_chain p) c i Hc Hok) as Hok'.
  assert (Hnew : (col {| col := c; idx := i |} ≤ vL v)%nat ∧
                 (idx {| col := c; idx := i |} < vN v)%nat) by done.
  unfold Page.click_node. unfold click_node in Hok' |- *.
  destruct (Page.p_chain p) as [|first rest] eqn:Hch.
  { eexists. split; [reflexivity|]. split; [|by cbn; rewrite Hch].
    unfold Page.start. rewrite Hhl, Hch. sync_split.
    - by apply Forall_singleton.
    - destruct (Page.p_segments p); [|discriminate Hlen].
      apply segments_ok_single. }
  rewrite <- Hch in *.
  assert (Hne : Page.p_chain p ≠ []) by (by rewrite Hch).
  set (ch := Page.p_chain p) in *.
  destruct ((Z.of_nat c - Z.of_nat (col first) =? Z.of_nat (length ch))
            && (col (List.last ch first) <? vL v)%nat) eqn:E1.
  { apply andb_true_iff in E1 as [Epos Elast]. apply Nat.ltb_lt in Elast.
    pose proof (last_List_last ch first Hne) as Hlast.
    assert (Hprev : (idx (List.last ch first) < vN v)%nat).
    { unfold nodes_ok in Hn. rewrite Forall_forall in Hn.
      apply Hn. rewrite last_lookup in Hlast. by eapply list_elem_of_lookup_2. }
    destruct (drawSegment_ok v Hv _ _ _ i Hst Elast Hprev Hi) as [s Hsd].
    unfold Page.extend. fold ch. rewrite Hlast. cbn [mbind option_bind].
    rewrite Hsd. cbn [mbind option_bind].
    eexists. split; [reflexivity|]. split; [|done].
    rewrite Hhl. fold ch. sync_split.
    - apply Forall_app_2; [exact Hn | by apply Forall_singleton].
    - by apply (segments_ok_extend v _ ch _ (List.last ch first)). }
  destruct ((0 <=? Z.of_nat c - Z.of_nat (col first))
            && (Z.of_nat c - Z.of_nat (col first) <? Z.of_nat (length ch))) eqn:E2.
  2:{ eexists. split; [reflexivity|]. split; [|done].
      sync_split.
      - by apply Forall_singleton.
      - apply segments_ok_single. }
  apply andb_true_iff in E2 as [E0 Elt].
  apply Z.leb_le in E0. apply Z.ltb_lt in Elt.
  set (pos := Z.to_nat (Z.of_nat c - Z.of_nat (col first))) in *.
  assert (Hpos : (pos < length ch)%nat) by (unfold pos; lia).
  destruct (lookup_lt_is_Some_2 ch pos Hpos) as [e He].
  rewrite He in Hok' |- *. cbn [mbind option_bind].
  destruct (idx e =? i)%nat.
  - eexists. split; [reflexivity|]. split; [|done].
    unfold Page.truncateFrom. rewrite Hhl. fold ch. sync_split.
    + by apply Forall_take.
    + by apply segments_ok_truncate.
  - assert (Hce : col e = c).
    { assert (Hhd : head ch = Some first) by (by rewrite Hch).
      rewrite (chain_col_lookup v ch first e pos Hok Hhd He). unfold pos. lia. }
    destruct (replace_segments_ok v Hv p pos c i e Hsync He Hce Hi)
      as (segs1 & segs2 & Hin & Hout & Hs').
    unfold Page.replaceAt. rewrite Hhl. fold ch. rewrite He.
    cbn [mbind option_bind]. rewrite Hin. cbn [mbind option_bind].
    rewrite Hout. cbn [mbind option_bind].
    eexists. split; [reflexivity|]. split; [|done].
    sync_split.
    by apply Forall_insert.
Qed.

Lemma on_click_ok (p : Page.page) (t : target) :
  in_sync v p → event_ok v (Page.Click t) →
  ∃ p', Page.on_click v p t = Some p' ∧ in_sync v p' ∧
        Page.ui_of p' = click v (Page.ui_of p) t.
Proof.
  intros Hsync Ht. destruct t as [nbar|c i|]; cbn [Page.on_click].
  - eexists. split; [reflexivity|]. split; [exact Hsync|].
    unfold Page.ui_of, click, pinRow. cbn.
    by destruct (bool_decide (Page.p_pinnedIdx p = Some nbar)).
  - destruct Ht as [Hc Hi].
    destruct (click_node_sync p c i Hsync Hc Hi) as (p' & Hp' & Hs' & Hch & Hpin & Hsv).
    exists p'. split; [exact Hp'|]. split; [exact Hs'|].
    unfold Page.ui_of, click. cbn. by rewrite Hch, Hpin, Hsv.
  - exists p. split; [reflexivity|]. split; [exact Hsync | reflexivity].
Qed.

Lemma handle_ok (p : Page.page) (e : Page.event) :
  in_sync v p → event_ok v e →
  ∃ p', Page.handle v p e = Some p' ∧ in_sync v p' ∧
        Page.ui_of p' = clicks v (Page.ui_of p) (Page.clicks_of [e]).
Proof.
  intros Hsync He. destruct e as [b|layer h|layer s|t]; cbn [Page.handle].
  - by apply on_batch_ok.
  - destruct He. by apply on_head_ok.
  - by apply on_thresh_ok.
  - by apply on_click_ok.
Qed.

Lemma handle_all_ok (es : list Page.event) (p : Page.page) :
  in_sync v p → Forall (event_ok v) es →
  ∃ p', js_for (Page.handle v) p es = Some p' ∧ in_sync v p' ∧
        Page.ui_of p' = clicks v (Page.ui_of p) (Page.clicks_of es).
Proof.
  revert p. induction es as [|e es IH]; intros p Hsync Hes.
  { exists p. split; [reflexivity|]. split; [exact Hsync | reflexivity]. }
  apply Forall_cons in Hes as [He Hes].
  destruct (handle_ok p e Hsync He) as (p1 & Hp1 & Hs1 & Hu1).
  destruct (IH p1 Hs1 Hes) as (p' & Hp' & Hs' & Hu').
  exists p'. cbn [js_for]. rewrite Hp1. cbn [mbind option_bind].
  split; [exact Hp'|]. split; [exact Hs'|].
  rewrite Hu', Hu1. unfold clicks, Page.clicks_of.
  change (e :: es) with ([e] ++ es). rewrite omap_app, fold_left_app. reflexivity.
Qed.

Lemma run_ok (es : list Page.event) :
  Forall (event_ok v) es →
  ∃ p, Page.run v es = Some p ∧ in_sync v p ∧
       Page.ui_of p = clicks v initial_ui (Page.clicks_of es).
Proof.
  intros Hes. destruct load_ok as (p0 & Hp0 & Hs0 & Hu0).
  destruct (handle_all_ok es p0 Hs0 Hes) as (p & Hp & Hs & Hu).
  exists p. unfold Page.run. rewrite Hp0. cbn [mbind option_bind].
  split; [exact Hp|]. split; [exact Hs|]. by rewrite Hu, Hu0.
Qed.

End PageHandlers.

(** ** From the data set to the page *)

Section BuiltView.

Variables (ids0 : list string) (names : gmap string string).
Variables (tensors : list ndarray) (bounds0 : ndarray) (node_h gap0 : Z).
Variable v : view.
Hypothesis built : show_attention_graph ids0 names tensors bounds0 node_h gap0 = Ok v.

(** A view built from layers of one shape with finite entries, at least
    one batch and at least one head, is one every handler can draw. *)
Lemma built_view_ok :
  Forall (λ t, shape t = [vB v; vH v; vN v; vN v] ∧ wf t ∧ all_finite t) tensors →
  wf bounds0 → (0 < vB v)%nat → (0 < vH v)%nat → view_ok v.
Proof.
  intros Hts Hwfb HB HH.
  destruct (view_fields ids0 names tensors bounds0 node_h gap0 v built)
    as (t0 & B & H & N & K & Ht0 & Hs0 & Hbs & _ & _ & _ & Hattn & Hbd & HL & HBv & HHv & HN & _).
  split; [exact HB|]. split; [exact HH|]. split.
  - intros l b h Hl Hb Hh. rewrite HL in Hl.
    destruct (lookup_lt_is_Some_2 tensors l Hl) as [t Ht].
    rewrite Forall_forall in Hts.
    destruct (Hts t) as (Hs & Hwf & Hfin); [by eapply list_elem_of_lookup_2|].
    assert (Hs' : shape (np_round6 t) = [vB v; vH v; vN v; vN v]) by exact Hs.
    assert (Hwf' : wf (np_round6 t)).
    { unfold wf, np_round6, astype in *. cbn [data shape]. by rewrite length_map. }
    assert (Hl4 : length (tolist4 (np_round6 t)) = vB v).
    { unfold tolist4. rewrite Hs'. by rewrite length_map, chunks_length. }
    destruct (lookup_lt_is_Some_2 (tolist4 (np_round6 t)) b) as [slab Hslab]; [lia|].
    assert (Hlslab : length slab = vH v).
    { pose proof Hslab as Hslab'. unfold tolist4 in Hslab'. rewrite Hs' in Hslab'.
      change (map ?f ?xs) with (f <$> xs) in Hslab'.
      rewrite list_lookup_fmap in Hslab'.
      destruct (chunks _ _ _ !! b) as [bl|]; [|discriminate].
      injection Hslab' as <-. by rewrite length_map, chunks_length. }
    destruct (lookup_lt_is_Some_2 slab h) as [m Hm]; [lia|].
    exists (tolist4 (np_round6 t)), slab, m. split; [|split; [exact Hslab|split; [exact Hm|]]].
    + rewrite Hattn. change (map ?f ?xs) with (f <$> xs).
      by rewrite list_lookup_fmap, Ht.
    + apply (tolist4_matrices (np_round6 t) (vB v) (vH v) (vN v) (vN v) slab m);
        [exact Hs' | exact Hwf' | by apply np_round6_finite
        | by eapply list_elem_of_lookup_2 | by eapply list_elem_of_lookup_2].
  - intros b Hb. apply lookup_lt_is_Some_2. rewrite Hbd. unfold tolist2.
    change (shape (np_round6 bounds0)) with (shape bounds0). rewrite Hbs.
    rewrite chunks_length. lia.
Qed.

End BuiltView.

Lemma sample_view_ok : view_ok Sample.the_view.
Proof.
  apply (built_view_ok Sample.ids Sample.names [Sample.layer0] Sample.bounds 8 1);
    [reflexivity | | reflexivity | vm_compute; lia | vm_compute; lia].
  apply Forall_singleton. split; [reflexivity|]. split; [reflexivity|].
  unfold all_finite. cbn. repeat constructor.
Qed.

(** ** Results on the page *)

(** X3: in a view whose matrices are all present, square and finite, with
    at least one batch and one head, no sequence of slider moves and clicks
    the rendered page can produce makes a handler throw, and after every
    event the drawing is consistent with the state: there is one highlight
    rectangle per chain element, one segment per pair of consecutive chain
    elements, and every segment, every layer's threshold lines and label
    and every red bar is what a full redraw from the current slider values
    would draw. *)
Theorem page_stays_in_sync (v : view) (es : list Page.event) :
  view_ok v → Forall (event_ok v) es →
  ∃ p, Page.run v es = Some p ∧ in_sync v p.
Proof.
  intros Hv Hes. destruct (run_ok v Hv es Hes) as (p & Hp & Hs & _).
  exists p. by split.
Qed.

Lemma page_stays_in_sync_witness :
  ∃ p, Page.run Sample.the_view
         [Page.Click (Node 0 1); Page.Click (Node 1 2); Page.ThreshInput 0 0;
          Page.HeadInput 0 0; Page.BatchInput 0; Page.Click (Node 1 0);
          Page.Click (NameBar 2)] = Some p ∧
       in_sync Sample.the_view p.
Proof.
  apply page_stays_in_sync; [exact sample_view_ok|].
  repeat constructor; vm_compute; lia.
Defined.

(** X4: the chain, the pinned row and the search text after any sequence
    of events are those the click handler alone computes from the clicks
    among them: moving a slider never changes the chain, the pin or the
    search text, and redrawing never feeds back into the chain. *)
Theorem page_chain_follows_clicks (v : view) (es : list Page.event) :
  view_ok v → Forall (event_ok v) es →
  Page.ui_of <$> Page.run v es = Some (clicks v initial_ui (Page.clicks_of es)).
Proof.
  intros Hv Hes. destruct (run_ok v Hv es Hes) as (p & Hp & _ & Hu).
  rewrite Hp. cbn. by rewrite Hu.
Qed.

Lemma page_chain_follows_clicks_witness :
  Page.ui_of <$> Page.run Sample.the_view
     [Page.Click (Node 0 1); Page.HeadInput 0 0; Page.Click (Node 1 2);
      Page.BatchInput 0; Page.Click (NameBar 2)]
  = Some (clicks Sample.the_view initial_ui
            [Node 0 1; Node 1 2; NameBar 2]).
Proof.
  apply (page_chain_follows_clicks Sample.the_view
     [Page.Click (Node 0 1); Page.HeadInput 0 0; Page.Click (Node 1 2);
      Page.BatchInput 0; Page.Click (NameBar 2)]); [exact sample_view_ok|].
  repeat constructor; vm_compute; lia.
Defined.



(** X6: the chain never outgrows the graph: after any events the rendered
    page can produce it holds at most one node per column, hence at most
    [L + 1] nodes, with one highlight rectangle per node and one segment
    less than there are nodes. *)
Theorem page_chain_bounds (v : view) (es : list Page.event) :
  view_ok v → Forall (event_ok v) es →
  ∃ p, Page.run v es = Some p ∧
       (length (Page.p_chain p) ≤ vL v + 1)%nat ∧
       NoDup (map col (Page.p_chain p)) ∧
       length (Page.p_hlRects p) = length (Page.p_chain p) ∧
       length (Page.p_segments p) = (length (Page.p_chain p) - 1)%nat.
Proof.
  intros Hv Hes. destruct (run_ok v Hv es Hes) as (p & Hp & Hs & _).
  exists p. split; [exact Hp|].
  destruct Hs as (Hst & Hn & Hok & Hhl & Hsegs & _).
  split_and!.
  - destruct (Page.p_chain p) as [|first rest] eqn:Hch; [simpl; lia|].
    rewrite <- Hch in *.
    assert (Hne : Page.p_chain p ≠ []) by (by rewrite Hch).
    pose proof (last_List_last _ first Hne) as Hlast.
    rewrite last_lookup in Hlast.
    assert (Hhd : head (Page.p_chain p) = Some first) by (by rewrite Hch).
    pose proof (chain_col_lookup v _ first _ _ Hok Hhd Hlast) as Hcol.
    unfold nodes_ok in Hn. rewrite Forall_forall in Hn.
    destruct (Hn (List.last (Page.p_chain p) first)) as [Hle _];
      [by eapply list_elem_of_lookup_2|].
    assert (0 < length (Page.p_chain p))%nat by (rewrite Hch; simpl; lia).
    lia.
  - destruct (Page.p_chain p) as [|first rest] eqn:Hch; [constructor|].
    rewrite <- Hch in *. destruct (Hok first) as [Hcont _]; [by rewrite Hch|].
    unfold contiguous_from in Hcont. rewrite Hcont. apply NoDup_seq.
  - by rewrite Hhl.
  - by apply (segments_ok_length v Hv (Page.p_controls p)).
Qed.

Lemma page_chain_bounds_witness :
  ∃ p, Page.run Sample.the_view
         [Page.Click (Node 0 1); Page.Click (Node 1 2); Page.Click (Node 1 0)]
       = Some p ∧
       (length (Page.p_chain p) ≤ vL Sample.the_view + 1)%nat ∧
       NoDup (map col (Page.p_chain p)) ∧
       length (Page.p_hlRects p) = length (Page.p_chain p) ∧
       length (Page.p_segments p) = (length (Page.p_chain p) - 1)%nat.
Proof.
  apply page_chain_bounds; [exact sample_view_ok|].
  repeat constructor; vm_compute; lia.
Defined.

(** The branches of the node click, by the position of the clicked column. *)
Lemma click_node_extend_eq (v : view) (p : Page.page) (c i : nat) (first : node) :
  head (Page.p_chain p) = Some first →
  c = (col first + length (Page.p_chain p))%nat →
  (col (List.last (Page.p_chain p) first) < vL v)%nat →
  Page.click_node v p c i = Page.extend v p c i.
Proof.
  intros Hhd Hc Hlast. unfold Page.click_node.
  destruct (Page.p_chain p) as [|f r]; [discriminate Hhd|].
  injection Hhd as ->.
  replace (Z.of_nat c - Z.of_nat (col first) =? Z.of_nat (length (first :: r)))
    with true by (symmetry; apply Z.eqb_eq; lia).
  replace (col (List.last (first :: r) first) <? vL v)%nat with true
    by (symmetry; by apply Nat.ltb_lt).
  reflexivity.
Qed.

Lemma click_node_truncate_eq (v : view) (p : Page.page) (c i pos : nat)
    (first e : node) :
  head (Page.p_chain p) = Some first → c = (col first + pos)%nat →
  Page.p_chain p !! pos = Some e → idx e = i →
  Page.click_node v p c i = Some (Page.truncateFrom p pos).
Proof.
  intros Hhd Hc He Hi. unfold Page.click_node.
  pose proof (lookup_lt_Some _ _ _ He) as Hpos.
  destruct (Page.p_chain p) as [|f r]; [discriminate Hhd|].
  injection Hhd as ->.
  replace (Z.of_nat c - Z.of_nat (col first) =? Z.of_nat (length (first :: r)))
    with false by (symmetry; apply Z.eqb_neq; lia).
  cbn [andb].
  replace (0 <=? Z.of_nat c - Z.of_nat (col first)) with true
    by (symmetry; apply Z.leb_le; lia).
  replace (Z.of_nat c - Z.of_nat (col first) <? Z.of_nat (length (first :: r)))
    with true by (symmetry; apply Z.ltb_lt; lia).
  cbn [andb].
  replace (Z.to_nat (Z.of_nat c - Z.of_nat (col first))) with pos by lia.
  rewrite He. cbn [mbind option_bind]. rewrite Hi, Nat.eqb_refl. reflexivity.
Qed.

Lemma sample_page_sync : in_sync Sample.the_view sample_page.
Proof.
  destruct (run_ok Sample.the_view sample_view_ok [Page.Click (Node 0 1)])
    as (p & Hp & Hs & _); [repeat constructor; vm_compute; lia|].
  unfold sample_page. rewrite Hp. exact Hs.
Qed.

(** X7: a click that starts the chain, or extends it by a node of the next
    column, is undone by clicking the same node again: the chain, the
    highlight rectangles and the segments are back to what they were, and
    nothing else on the page has changed. *)
Theorem reclick_undoes_extension (v : view) (p : Page.page) (c i : nat) :
  view_ok v → in_sync v p → (c ≤ vL v)%nat → (i < vN v)%nat →
  (∀ first, head (Page.p_chain p) = Some first →
     c = (col first + length (Page.p_chain p))%nat) →
  ∃ p1, Page.click_node v p c i = Some p1 ∧
        Page.p_chain p1 = Page.p_chain p ++ [{| col := c; idx := i |}] ∧
        Page.click_node v p1 c i = Some p.
Proof.
  intros Hv Hsync Hc Hi Hnext.
  pose proof Hsync as (Hst & Hn & Hok & Hhl & Hs & Hg & Hred).
  pose proof (segments_ok_length v Hv _ _ _ Hst Hn Hok Hs) as Hlen.
  set (n := {| col := c; idx := i |}).
  destruct (head (Page.p_chain p)) as [first|] eqn:Hhd.
  2:{ assert (Hch : Page.p_chain p = []) by (by destruct (Page.p_chain p)).
      exists (Page.start p c i). split; [unfold Page.click_node; by rewrite Hch|].
      split; [reflexivity|].
      rewrite (click_node_truncate_eq v (Page.start p c i) c i 0 n n);
        cbn [Page.start Page.p_chain]; rewrite ?Hch; [|done|cbn; lia|done|done].
      destruct p as [st ch hl segs groups red pin sv].
      cbn [Page.p_controls Page.p_chain Page.p_hlRects Page.p_segments] in *.
      subst ch hl. destruct segs; [|discriminate Hlen]. reflexivity. }
  pose proof (Hnext first eq_refl) as Hcol.
  assert (Hne : Page.p_chain p ≠ []) by (by destruct (Page.p_chain p)).
  assert (Hlen0 : (0 < length (Page.p_chain p))%nat).
  { destruct (Page.p_chain p); [done | simpl; lia]. }
  pose proof (last_List_last _ first Hne) as Hlast.
  assert (Hlastcol : col (List.last (Page.p_chain p) first)
                     = (col first + (length (Page.p_chain p) - 1))%nat).
  { rewrite last_lookup in Hlast.
    rewrite (chain_col_lookup v _ first _ _ Hok Hhd Hlast). lia. }
  assert (Elast : (col (List.last (Page.p_chain p) first) < vL v)%nat) by lia.
  assert (Hprev : (idx (List.last (Page.p_chain p) first) < vN v)%nat).
  { unfold nodes_ok in Hn. rewrite Forall_forall in Hn.
    apply Hn. rewrite last_lookup in Hlast. by eapply list_elem_of_lookup_2. }
  destruct (drawSegment_ok v Hv _ _ _ i Hst Elast Hprev Hi) as [s Hsd].
  rewrite (click_node_extend_eq v p c i first Hhd Hcol Elast).
  unfold Page.extend. rewrite Hlast. cbn [mbind option_bind].
  rewrite Hsd. cbn [mbind option_bind].
  eexists. split; [reflexivity|]. split; [reflexivity|].
  match goal with |- Page.click_node v ?q c i = _ =>
    rewrite (click_node_truncate_eq v q c i (length (Page.p_chain p)) first n)
  end; cbn [Page.p_chain].
  - destruct p as [st ch hl segs groups red pin sv].
    cbn [Page.p_controls Page.p_chain Page.p_hlRects Page.p_segments] in *.
    subst hl. unfold Page.truncateFrom. cbn [Page.p_chain Page.p_controls
      Page.p_hlRects Page.p_segments Page.p_threshGroups Page.p_redRects
      Page.p_pinnedIdx Page.p_searchValue].
    rewrite take_app_length. rewrite Nat.max_r by lia.
    rewrite <- Hlen, take_app_length. reflexivity.
  - destruct (Page.p_chain p); [done | exact Hhd].
  - exact Hcol.
  - rewrite lookup_app_r, Nat.sub_diag by lia. reflexivity.
  - reflexivity.
Qed.

Lemma reclick_undoes_extension_witness :
  ∃ p1, Page.click_node Sample.the_view sample_page 1 2 = Some p1 ∧
        Page.p_chain p1 = Page.p_chain sample_page ++ [{| col := 1; idx := 2 |}] ∧
        Page.click_node Sample.the_view p1 1 2 = Some sample_page.
Proof.
  apply (reclick_undoes_extension Sample.the_view sample_page 1 2 sample_view_ok
           sample_page_sync); [vm_compute; lia | vm_compute; lia|].
  intros first Hf. vm_compute in Hf. injection Hf as <-. reflexivity.
Defined.

(** ** The dropdown under the keyboard *)

Section Keyboard.

Import Dropdown.

Lemma highlighted_tail (it : item) (rest : list item) (a : option nat) :
  highlighted (it :: rest) a → highlighted rest (tail_pos a).
Proof.
  intros H k it' Hk. rewrite (H (S k) it' Hk).
  destruct a as [[|j]|]; cbn [tail_pos].
  - by rewrite !bool_decide_false.
  - apply bool_decide_ext. split; intros [= ->]; done.
  - by rewrite !bool_decide_false.
Qed.

Lemma first_active_highlighted (items : list item) (a : option nat) :
  highlighted items a → (∀ k, a = Some k → (k < length items)%nat) →
  first_active items = a.
Proof.
  revert a. induction items as [|it rest IH]; intros a H Ha.
  { destruct a as [k|]; [|done]. specialize (Ha k eq_refl). simpl in Ha. lia. }
  cbn [first_active]. rewrite (H 0%nat it eq_refl).
  destruct a as [[|j]|].
  - by rewrite bool_decide_true.
  - rewrite bool_decide_false by done.
    rewrite (IH (Some j)); [done| |].
    + exact (highlighted_tail it rest (Some (S j)) H).
    + intros k [= <-]. specialize (Ha (S j) eq_refl). simpl in Ha. lia.
  - rewrite bool_decide_false by done.
    rewrite (IH None); [done | exact (highlighted_tail it rest None H) | done].
Qed.

Lemma last_active_fold (items : list item) (a : option nat) (j : nat) (acc : Z) :
  (∀ k it, items !! k = Some it → kb_active it = bool_decide (a = Some (j + k)%nat)) →
  fold_left (λ ai '(i, it), if kb_active it then Z.of_nat i else ai)
            (zip (seq j (length items)) items) acc
  = match a with
    | Some k => if bool_decide (j ≤ k < j + length items)%nat then Z.of_nat k else acc
    | None => acc
    end.
Proof.
  revert j acc. induction items as [|it rest IH]; intros j acc H.
  { cbn. destruct a as [k|]; [|done]. rewrite bool_decide_false; [done | lia]. }
  cbn [length seq zip zip_with fold_left].
  rewrite (IH (S j)).
  2:{ intros k it' Hk. rewrite (H (S k) it' Hk).
      apply bool_decide_ext. split; intros [= ->]; f_equal; lia. }
  rewrite (H 0%nat it eq_refl), Nat.add_0_r.
  destruct a as [k|]; [|by rewrite bool_decide_false].
  destruct (decide (k = j)) as [->|Hne].
  - rewrite (bool_decide_true (Some j = Some j)) by done.
    rewrite (bool_decide_false (S j ≤ j < _)%nat) by lia.
    rewrite bool_decide_true by lia. done.
  - rewrite (bool_decide_false (Some k = Some j)) by (intros [= ->]; done).
    apply (f_equal (λ b : bool, if b then Z.of_nat k else acc)).
    apply bool_decide_ext. lia.
Qed.

Lemma last_active_highlighted (items : list item) (a : option nat) :
  highlighted items a → (∀ k, a = Some k → (k < length items)%nat) →
  last_active items = match a with Some k => Z.of_nat k | None => -1 end.
Proof.
  intros H Ha. unfold last_active. rewrite (last_active_fold items a 0 (-1)).
  - destruct a as [k|]; [|done]. rewrite bool_decide_true; [done|].
    specialize (Ha k eq_refl). lia.
  - intros k it Hk. by rewrite (H k it Hk).
Qed.

Lemma map_idx_alter (b : bool) (k : nat) (items : list item) :
  map it_idx (alter (set_active b) k items) = map it_idx items.
Proof.
  change (map it_idx ?l) with (it_idx <$> l).
  apply list_eq. intros j. rewrite !list_lookup_fmap.
  destruct (decide (j = k)) as [->|Hne].
  - rewrite list_lookup_alter_eq. by destruct (items !! k).
  - by rewrite list_lookup_alter_ne.
Qed.

Lemma remove_active_highlighted (items : list item) (a : option nat) :
  highlighted items a → (∀ k, a = Some k → (k < length items)%nat) →
  highlighted (remove_active items) None ∧
  map it_idx (remove_active items) = map it_idx items.
Proof.
  intros H Ha. unfold remove_active. rewrite (first_active_highlighted items a H Ha).
  destruct a as [k|]; [|done]. split; [|apply map_idx_alter].
  intros j it Hj. rewrite bool_decide_false by done.
  destruct (decide (j = k)) as [->|Hne].
  - rewrite list_lookup_alter_eq in Hj.
    destruct (items !! k); [|discriminate]. by injection Hj as <-.
  - rewrite list_lookup_alter_ne in Hj by done.
    rewrite (H j it Hj). apply bool_decide_false. intros [= ->]. done.
Qed.

Lemma set_active_highlighted (items : list item) (k : nat) :
  highlighted items None →
  highlighted (alter (set_active true) k items) (Some k).
Proof.
  intros H j it Hj. destruct (decide (j = k)) as [->|Hne].
  - rewrite list_lookup_alter_eq in Hj.
    destruct (items !! k); [|discriminate]. injection Hj as <-.
    by rewrite bool_decide_true.
  - rewrite list_lookup_alter_ne in Hj by done.
    rewrite (H j it Hj). rewrite !bool_decide_false; [done | | done].
    intros [= ->]. done.
Qed.

(** Two dropdowns with the same rows and the same highlight are equal. *)
Lemma highlighted_unique (l1 l2 : list item) (a : option nat) :
  map it_idx l1 = map it_idx l2 → highlighted l1 a → highlighted l2 a → l1 = l2.
Proof.
  intros Hm H1 H2. apply list_eq. intros k.
  assert (Hk : it_idx <$> l1 !! k = it_idx <$> l2 !! k).
  { change (map it_idx ?l) with (it_idx <$> l) in Hm.
    by rewrite <- !list_lookup_fmap, Hm. }
  destruct (l1 !! k) as [i1|] eqn:E1, (l2 !! k) as [i2|] eqn:E2;
    try discriminate; [|done].
  f_equal. pose proof (H1 k i1 E1). pose proof (H2 k i2 E2).
  destruct i1, i2. cbn in *. injection Hk as ->. congruence.
Qed.

Lemma next_pos_lt (n : nat) (a : option nat) : (0 < n)%nat → (next_pos n a < n)%nat.
Proof.
  intros Hn. destruct a as [k|]; cbn [next_pos]; [|exact Hn].
  apply Nat.mod_upper_bound. lia.
Qed.

Lemma prev_pos_lt (n : nat) (a : option nat) :
  (0 < n)%nat → (∀ k, a = Some k → (k < n)%nat) → (prev_pos n a < n)%nat.
Proof.
  intros Hn Ha. destruct a as [[|k]|]; cbn [prev_pos]; [lia| |lia].
  specialize (Ha (S k) eq_refl). lia.
Qed.

Variable v : view.

Lemma keydown_down (s : box) (a : option nat) :
  b_items s ≠ [] → highlighted (b_items s) a →
  (∀ k, a = Some k → (k < length (b_items s))%nat) →
  let s' := keydown v s ArrowDown in
  highlighted (b_items s') (Some (next_pos (length (b_items s)) a)) ∧
  map it_idx (b_items s') = map it_idx (b_items s) ∧
  b_ui s' = b_ui s ∧ b_open s' = b_open s.
Proof.
  intros Hne H Ha. unfold keydown.
  assert (Hn : (0 < length (b_items s))%nat).
  { destruct (b_items s); [done | simpl; lia]. }
  destruct (length (b_items s) =? 0)%nat eqn:E; [apply Nat.eqb_eq in E; lia|].
  cbn [b_items b_ui b_open].
  destruct (remove_active_highlighted _ a H Ha) as [Hr Hm].
  rewrite (last_active_highlighted _ a H Ha).
  set (n := length (b_items s)) in *.
  assert (Hpos : Z.to_nat ((match a with Some k => Z.of_nat k | None => -1 end + 1)
                           `mod` Z.of_nat n) = next_pos n a).
  { destruct a as [k|]; cbn [next_pos].
    - replace (Z.of_nat k + 1) with (Z.of_nat (S k)) by lia.
      rewrite <- Nat2Z.inj_mod. apply Nat2Z.id.
    - change (-1 + 1) with 0. by rewrite Z.mod_0_l by lia. }
  rewrite Hpos. split_and!; [|by rewrite map_idx_alter|done|done].
  by apply set_active_highlighted.
Qed.

Lemma keydown_up (s : box) (a : option nat) :
  b_items s ≠ [] → highlighted (b_items s) a →
  (∀ k, a = Some k → (k < length (b_items s))%nat) →
  let s' := keydown v s ArrowUp in
  highlighted (b_items s') (Some (prev_pos (length (b_items s)) a)) ∧
  map it_idx (b_items s') = map it_idx (b_items s) ∧
  b_ui s' = b_ui s ∧ b_open s' = b_open s.
Proof.
  intros Hne H Ha. unfold keydown.
  assert (Hn : (0 < length (b_items s))%nat).
  { destruct (b_items s); [done | simpl; lia]. }
  destruct (length (b_items s) =? 0)%nat eqn:E; [apply Nat.eqb_eq in E; lia|].
  cbn [b_items b_ui b_open].
  destruct (remove_active_highlighted _ a H Ha) as [Hr Hm].
  rewrite (last_active_highlighted _ a H Ha).
  set (n := length (b_items s)) in *.
  set (ai := match a with Some k => Z.of_nat k | None => -1 end).
  assert (Hpos : Z.to_nat (if ai <=? 0 then Z.of_nat n - 1 else ai - 1)
                 = prev_pos n a).
  { unfold ai. destruct a as [[|k]|]; cbn [prev_pos].
    - change (Z.of_nat 0 <=? 0) with true. cbn iota. lia.
    - destruct (Z.of_nat (S k) <=? 0) eqn:E'; [apply Z.leb_le in E'; lia|]. lia.
    - change (-1 <=? 0) with true. cbn iota. lia. }
  rewrite Hpos. split_and!; [|by rewrite map_idx_alter|done|done].
  by apply set_active_highlighted.
Qed.

Lemma keydown_enter (s : box) (a : option nat) (it : item) :
  highlighted (b_items s) a →
  (∀ k, a = Some k → (k < length (b_items s))%nat) →
  b_items s !! default 0%nat a = Some it →
  keydown v s Enter = selectResult v s (it_idx it).
Proof.
  intros H Ha Hit. unfold keydown.
  destruct (length (b_items s) =? 0)%nat eqn:E.
  { apply Nat.eqb_eq in E. apply lookup_lt_Some in Hit. lia. }
  rewrite (last_active_highlighted _ a H Ha).
  destruct a as [k|]; cbn in Hit.
  - destruct (0 <=? Z.of_nat k) eqn:E'; [|apply Z.leb_gt in E'; lia].
    by rewrite Nat2Z.id, Hit.
  - change (0 <=? -1) with false. cbn iota. by rewrite Hit.
Qed.

End Keyboard.

Section KeyboardResults.

Import Dropdown.

Variable v : view.

Lemma renderDropdown_fresh (s : box) (matches : list scored) :
  highlighted (b_items (renderDropdown s matches)) None ∧
  map it_idx (b_items (renderDropdown s matches)) = map s_idx matches.
Proof.
  cbn [renderDropdown b_items]. split.
  - intros k it Hk. change (map ?f ?l) with (f <$> l) in Hk.
    rewrite list_lookup_fmap in Hk.
    destruct (matches !! k); [|discriminate]. by injection Hk as <-.
  - rewrite map_map. reflexivity.
Qed.

(** The highlight after [k] presses of [ArrowDown] on a fresh dropdown. *)
Lemma downs_highlight (s : box) (matches : list scored) (k : nat) :
  matches ≠ [] →
  let sk := keys v (renderDropdown s matches) (replicate k ArrowDown) in
  highlighted (b_items sk)
    (if k is O then None else Some ((k - 1) mod length matches)%nat) ∧
  map it_idx (b_items sk) = map s_idx matches ∧
  b_ui sk = b_ui s.
Proof.
  intros Hne. induction k as [|k IH].
  { destruct (renderDropdown_fresh s matches) as [H1 H2]. by split_and!. }
  cbn zeta in *. destruct IH as (Hh & Hm & Hu).
  rewrite replicate_S_end. unfold keys in *. rewrite fold_left_app.
  cbn [fold_left].
  set (sk := fold_left (keydown v) (replicate k ArrowDown) (renderDropdown s matches)) in *.
  assert (Hlen : length (b_items sk) = length matches).
  { rewrite <- (length_map it_idx), Hm. apply length_map. }
  assert (Hn : (0 < length matches)%nat) by (destruct matches; [done | simpl; lia]).
  assert (Hne' : b_items sk ≠ []).
  { intros E. rewrite E in Hlen. simpl in Hlen. lia. }
  destruct (keydown_down v sk _ Hne' Hh) as (Hh' & Hm' & Hu' & _).
  { destruct k; [done|]. intros j [= <-]. rewrite Hlen.
    apply Nat.mod_upper_bound. lia. }
  split_and!; [|by rewrite Hm'|by rewrite Hu'].
  replace ((S k - 1) mod length matches)%nat
    with (next_pos (length (b_items sk))
            (if k is O then None else Some ((k - 1) mod length matches)%nat));
    [exact Hh'|].
  rewrite Hlen. destruct k as [|k]; cbn [next_pos].
  - symmetry. apply Nat.Div0.mod_0_l.
  - replace (S (S k) - 1)%nat with (S k - 1 + 1)%nat by lia.
    rewrite <- (Nat.Div0.add_mod_idemp_l (S k - 1) 1).
    f_equal. lia.
Qed.

(** X8: the arrow keys move one highlight through the dropdown.  With at
    most one item highlighted, [ArrowDown] highlights exactly the next item
    (the first one from no highlight or from the last item) and [ArrowUp]
    exactly the previous one (the last one from no highlight or from the
    first item); neither changes the rows listed, and from a highlighted
    item each key undoes the other. *)
Theorem arrow_keys_cycle (s : box) (a : option nat) :
  b_items s ≠ [] → highlighted (b_items s) a →
  (∀ k, a = Some k → (k < length (b_items s))%nat) →
  let n := length (b_items s) in
  let down := keydown v s ArrowDown in
  let up := keydown v s ArrowUp in
  highlighted (b_items down) (Some (next_pos n a)) ∧ (next_pos n a < n)%nat ∧
  highlighted (b_items up) (Some (prev_pos n a)) ∧ (prev_pos n a < n)%nat ∧
  map it_idx (b_items down) = map it_idx (b_items s) ∧
  map it_idx (b_items up) = map it_idx (b_items s) ∧
  (is_Some a → keydown v down ArrowUp = s ∧ keydown v up ArrowDown = s).
Proof.
  intros Hne H Ha n down up.
  assert (Hn : (0 < n)%nat) by (unfold n; destruct (b_items s); [done | simpl; lia]).
  destruct (keydown_down v s a Hne H Ha) as (Hd & Hdm & Hdu & Hdo).
  destruct (keydown_up v s a Hne H Ha) as (Hu & Hum & Huu & Huo).
  fold n down in Hd, Hdm, Hdu, Hdo. fold n up in Hu, Hum, Huu, Huo.
  pose proof (next_pos_lt n a Hn) as Hnl.
  pose proof (prev_pos_lt n a Hn Ha) as Hpl.
  split_and!; try done.
  intros [k ->]. specialize (Ha k eq_refl). fold n in Ha.
  assert (Hdl : length (b_items down) = n).
  { rewrite <- (length_map it_idx), Hdm. apply length_map. }
  assert (Hul : length (b_items up) = n).
  { rewrite <- (length_map it_idx), Hum. apply length_map. }
  split.
  - destruct (keydown_up v down (Some (next_pos n (Some k)))) as (H1 & H2 & H3 & H4).
    { intros E. rewrite E in Hdl. simpl in Hdl. lia. }
    { exact Hd. }
    { intros j [= <-]. by rewrite Hdl. }
    rewrite Hdl in H1.
    assert (Hback : prev_pos n (Some (next_pos n (Some k))) = k).
    { cbn [next_pos]. destruct (decide (S k = n)) as [E|E].
      - rewrite E, Nat.Div0.mod_same. cbn [prev_pos]. lia.
      - rewrite Nat.mod_small by lia. reflexivity. }
    rewrite Hback in H1.
    destruct (keydown v down ArrowUp) as [ui' items' open'] eqn:E.
    destruct s as [ui0 items0 open0]. cbn [b_items b_ui b_open] in *.
    f_equal; [congruence| |congruence].
    apply (highlighted_unique _ _ (Some k)); [congruence | exact H1 | exact H].
  - destruct (keydown_down v up (Some (prev_pos n (Some k)))) as (H1 & H2 & H3 & H4).
    { intros E. rewrite E in Hul. simpl in Hul. lia. }
    { exact Hu. }
    { intros j [= <-]. by rewrite Hul. }
    rewrite Hul in H1.
    assert (Hback : next_pos n (Some (prev_pos n (Some k))) = k).
    { destruct k as [|k]; cbn [prev_pos next_pos].
      - replace (S (n - 1)) with n by lia. apply Nat.Div0.mod_same.
      - apply Nat.mod_small. lia. }
    rewrite Hback in H1.
    destruct (keydown v up ArrowDown) as [ui' items' open'] eqn:E.
    destruct s as [ui0 items0 open0]. cbn [b_items b_ui b_open] in *.
    f_equal; [congruence| |congruence].
    apply (highlighted_unique _ _ (Some k)); [congruence | exact H1 | exact H].
Qed.

(** X9: [Enter] after [k] presses of [ArrowDown] on a freshly rendered
    dropdown selects match number [(k - 1) mod n] of the [n] matches (the
    first match when no arrow key was pressed): that row is pinned, its id
    is written to the search box, the dropdown is closed and the chain is
    left alone. *)
Theorem enter_selects_highlighted (s : box) (matches : list scored) (k : nat)
    (m : scored) :
  matches !! ((k - 1) mod length matches)%nat = Some m →
  let s' := keys v (renderDropdown s matches) (replicate k ArrowDown ++ [Enter]) in
  pinnedIdx (b_ui s') = Some (s_idx m) ∧
  searchValue (b_ui s') = default "undefined" (ids v !! s_idx m) ∧
  chain (b_ui s') = chain (b_ui s) ∧
  b_open s' = false.
Proof.
  intros Hm s'.
  assert (Hne : matches ≠ []) by (intros ->; discriminate Hm).
  destruct (downs_highlight s matches k Hne) as (Hh & Hmap & Hu).
  unfold s', keys in *. rewrite fold_left_app. cbn [fold_left].
  set (sk := fold_left (keydown v) (replicate k ArrowDown) (renderDropdown s matches)) in *.
  assert (Hlen : length (b_items sk) = length matches).
  { rewrite <- (length_map it_idx), Hmap. apply length_map. }
  assert (Hn : (0 < length matches)%nat) by (destruct matches; [done | simpl; lia]).
  assert (Hit : ∃ it, b_items sk !! ((k - 1) mod length matches)%nat = Some it ∧
                      it_idx it = s_idx m).
  { assert (H : it_idx <$> b_items sk !! ((k - 1) mod length matches)%nat
                = Some (s_idx m)).
    { rewrite <- list_lookup_fmap. change (it_idx <$> ?l) with (map it_idx l).
      rewrite Hmap. change (map ?f ?l) with (f <$> l).
      by rewrite list_lookup_fmap, Hm. }
    destruct (b_items sk !! _) as [it|]; [|discriminate].
    exists it. split; [done|]. by injection H. }
  destruct Hit as (it & Hit & Hidx).
  rewrite (keydown_enter v sk _ it Hh).
  - rewrite Hidx. cbn [selectResult b_ui b_open pinRow pinnedIdx searchValue chain].
    by rewrite Hu.
  - destruct k; [done|]. intros j [= <-]. rewrite Hlen.
    apply Nat.mod_upper_bound. lia.
  - destruct k as [|k]; cbn [default]; [|exact Hit].
    change (0 - 1)%nat with 0%nat in Hit. by rewrite Nat.Div0.mod_0_l in Hit.
Qed.

End KeyboardResults.

Lemma arrow_keys_cycle_witness :
  let s := {| Dropdown.b_ui := initial_ui;
              Dropdown.b_items :=
                [{| Dropdown.it_idx := 2; Dropdown.kb_active := false |};
                 {| Dropdown.it_idx := 0; Dropdown.kb_active := true |}];
              Dropdown.b_open := true |} in
  Dropdown.b_items (Dropdown.keydown Sample.the_view s Dropdown.ArrowDown)
    = [{| Dropdown.it_idx := 2; Dropdown.kb_active := true |};
       {| Dropdown.it_idx := 0; Dropdown.kb_active := false |}] ∧
  Dropdown.keydown Sample.the_view
    (Dropdown.keydown Sample.the_view s Dropdown.ArrowDown) Dropdown.ArrowUp = s.
Proof.
  intros s.
  destruct (arrow_keys_cycle Sample.the_view s (Some 1%nat)) as (_ & _ & _ & _ & _ & _ & H).
  - done.
  - intros [|[|k]] it Hk; [| |done]; injection Hk as <-; reflexivity.
  - intros k [= <-]. simpl. lia.
  - split; [reflexivity|]. by destruct H as [H _].
Defined.

Lemma enter_selects_highlighted_witness :
  let s := {| Dropdown.b_ui := initial_ui; Dropdown.b_items := [];
              Dropdown.b_open := false |} in
  let matches := [{| s_idx := 2; s_score := 3 |}; {| s_idx := 0; s_score := 1 |}] in
  let s' := Dropdown.keys Sample.the_view (Dropdown.renderDropdown s matches)
              (replicate 4 Dropdown.ArrowDown ++ [Dropdown.Enter]) in
  pinnedIdx (Dropdown.b_ui s') = Some 0%nat ∧
  searchValue (Dropdown.b_ui s') = "A" ∧
  chain (Dropdown.b_ui s') = [] ∧
  Dropdown.b_open s' = false.
Proof.
  intros s matches.
  exact (enter_selects_highlighted Sample.the_view s matches 4
           {| s_idx := 0; s_score := 1 |} eq_refl).
Defined.

(** ** Further properties of the exporters *)

Section ExportChecks.

Context {casts : Casts}.

Lemma export_attention_data_first (path : string) (ids0 : list string)
    (names : gmap string string) (t0 : ndarray) (rest : list ndarray)
    (bounds0 : ndarray) (B H N K : nat) :
  shape t0 = [B; H; N; K] →
  export_attention_data path ids0 names (t0 :: rest) bounds0
  = (_ ← assert (length ids0 =? N)%nat (Some (MsgIdsLength (length ids0) N));
     _ ← assert (shape_eqb (shape bounds0) [B; N])
           (Some (MsgBoundsShape (shape bounds0) B N));
     _ ← for_each (λ '(i, t), assert (shape_eqb (shape t) [B; H; N; N])
                                (Some (MsgLayerShape i (shape t) B H N)))
           (enumerate_from 0 (t0 :: rest));
     Ok (written_for false path ids0 names (t0 :: rest) bounds0 B H N)).
Proof.
  intros Hs. unfold export_attention_data, list_get.
  cbn [lookup list_lookup mbind result_bind]. rewrite Hs.
  cbn [unpack4 mbind result_bind]. reflexivity.
Qed.

(** X10: the float32 export writes a file exactly for the data sets of
    consistent shapes; otherwise it raises before writing, and the failing
    assertion is the first in the order ids, bounds, layers: a wrong number
    of ids is reported whatever the bounds and layers are, a wrong bounds
    shape whatever the layers are, and among the layers the first one of
    the wrong shape, with its index and shape. *)
Theorem fp32_export_checks (path : string) (ids0 : list string)
    (names : gmap string string) (tensors : list ndarray) (bounds0 : ndarray) :
  ((∃ w, export_attention_data path ids0 names tensors bounds0 = Ok w) ↔
   ∃ B H N, tensors ≠ [] ∧ Forall (λ t, shape t = [B; H; N; N]) tensors ∧
            shape bounds0 = [B; N] ∧ length ids0 = N) ∧
  ∀ t0 rest B H N K, tensors = t0 :: rest → shape t0 = [B; H; N; K] →
    (length ids0 ≠ N →
     export_attention_data path ids0 names tensors bounds0
     = Err (AssertionError (Some (MsgIdsLength (length ids0) N)))) ∧
    (length ids0 = N → shape bounds0 ≠ [B; N] →
     export_attention_data path ids0 names tensors bounds0
     = Err (AssertionError (Some (MsgBoundsShape (shape bounds0) B N)))) ∧
    (length ids0 = N → shape bounds0 = [B; N] →
     ∀ ts1 t ts2, tensors = ts1 ++ t :: ts2 →
       Forall (λ t, shape t = [B; H; N; N]) ts1 → shape t ≠ [B; H; N; N] →
       export_attention_data path ids0 names tensors bounds0
       = Err (AssertionError (Some (MsgLayerShape (length ts1) (shape t) B H N)))).
Proof.
  split.
  - split.
    + intros [w Hw]. destruct (export_attention_data_inv _ _ _ _ _ _ Hw)
        as (B & H & N & H1 & H2 & H3 & H4).
      exists B, H, N. by repeat split.
    + intros (B & H & N & H1 & H2 & H3 & H4).
      eexists. by apply (export_attention_data_ok path ids0 names tensors bounds0 B H N).
  - intros t0 rest B H N K -> Hs0.
    rewrite (export_attention_data_first path ids0 names t0 rest bounds0 B H N K Hs0).
    split_and!.
    + intros Hids. apply Nat.eqb_neq in Hids. by rewrite Hids.
    + intros Hids Hb. rewrite Hids, Nat.eqb_refl. cbn [assert mbind result_bind].
      unfold shape_eqb. by rewrite bool_decide_false.
    + intros Hids Hb ts1 t ts2 Hts Hok Hbad.
      rewrite Hids, Nat.eqb_refl. cbn [assert mbind result_bind].
      replace (shape_eqb (shape bounds0) [B; N]) with true
        by (symmetry; by apply bool_decide_eq_true_2).
      cbn [assert mbind result_bind]. rewrite Hts.
      by rewrite (layer_checks_error B H N ts1 ts2 t 0 Hok Hbad).
Qed.

End ExportChecks.

Section ExportEdges.

Context {casts : Casts}.

(** The projection to all batches, in order, is the array itself. *)
Lemma project_all (B : nat) (t : ndarray) :
  has_batches B t → project (seqZ 0 (Z.of_nat B)) t = t.
Proof.
  intros Hb. pose proof Hb as [Hwf Hhd]. unfold project.
  destruct t as [sh d]. cbn [shape data] in *.
  destruct sh as [|b rest]; [discriminate Hhd|]. injection Hhd as ->.
  cbn [hd tail]. f_equal.
  - rewrite length_seqZ. by rewrite Nat2Z.id.
  - exact (all_batches_concat B {| shape := B :: rest; data := d |} Hb).
Qed.

(** Counting the batches from the end names the same batches. *)
Lemma project_negative (B : nat) (t : ndarray) :
  has_batches B t →
  project (seqZ (- Z.of_nat B) (Z.of_nat B)) t = project (seqZ 0 (Z.of_nat B)) t.
Proof.
  intros [_ Hhd]. unfold project. rewrite !length_seqZ. f_equal. f_equal.
  destruct (shape t) as [|b rest]; [discriminate Hhd|]. injection Hhd as ->.
  cbn [hd]. unfold seqZ. change (map ?f ?l) with (f <$> l).
  rewrite <- !list_fmap_compose.
  apply list_fmap_ext. intros i k Hk. cbn.
  apply lookup_seq in Hk as [-> Hk]. f_equal. unfold batch_of. f_equal.
  change (0 + i)%nat with i. rewrite Z.add_0_r.
  replace (Z.of_nat i + - Z.of_nat B) with (Z.of_nat i + (-1) * Z.of_nat B) by lia.
  apply Z_mod_plus_full.
Qed.

Lemma seqZ_indices_valid (B : nat) (m : Z) :
  m = 0 ∨ m = - Z.of_nat B →
  ∀ i, i ∈ seqZ m (Z.of_nat B) → - Z.of_nat B ≤ i < Z.of_nat B.
Proof. intros Hm i Hi. apply elem_of_seqZ in Hi. lia. Qed.

Lemma subset_None (path : string) (ids0 : list string) (names : gmap string string)
    (tensors : list ndarray) (bounds0 : ndarray) (fp16 : bool) :
  export_attention_subset path ids0 names tensors bounds0 None fp16
  = (if fp16 then export_attention_data_fp16 else export_attention_data)
      path ids0 names tensors bounds0.
Proof. unfold export_attention_subset. cbn [mbind result_bind]. by destruct fp16. Qed.

Lemma project_all_map (B : nat) (ts : list ndarray) :
  Forall (has_batches B) ts → project (seqZ 0 (Z.of_nat B)) <$> ts = ts.
Proof.
  intros H. induction H as [|t ts Ht _ IH]; [done|].
  cbn. by rewrite (project_all B t Ht), IH.
Qed.

Lemma project_negative_map (B : nat) (ts : list ndarray) :
  Forall (has_batches B) ts →
  project (seqZ (- Z.of_nat B) (Z.of_nat B)) <$> ts = ts.
Proof.
  intros H. induction H as [|t ts Ht _ IH]; [done|].
  cbn. by rewrite (project_negative B t Ht), (project_all B t Ht), IH.
Qed.

(** X11: exporting the subset of all batches in their order is the full
    export: [batch_indices = range(B)], [batch_indices = range(-B, 0)] and
    [batch_indices = None] write the same file. *)
Theorem subset_of_all_batches (path : string) (ids0 : list string)
    (names : gmap string string) (tensors : list ndarray) (bounds0 : ndarray)
    (fp16 : bool) (B : nat) :
  has_batches B bounds0 → Forall (has_batches B) tensors →
  export_attention_subset path ids0 names tensors bounds0
    (Some (seqZ 0 (Z.of_nat B))) fp16
  = export_attention_subset path ids0 names tensors bounds0 None fp16 ∧
  export_attention_subset path ids0 names tensors bounds0
    (Some (seqZ (- Z.of_nat B) (Z.of_nat B))) fp16
  = export_attention_subset path ids0 names tensors bounds0 None fp16.
Proof.
  intros Hb Hts. rewrite subset_None. split.
  - rewrite (export_attention_subset_project path ids0 names tensors bounds0 _ fp16 B
               Hb Hts (seqZ_indices_valid B 0 (or_introl eq_refl))).
    by rewrite (project_all B bounds0 Hb), (project_all_map B tensors Hts).
  - rewrite (export_attention_subset_project path ids0 names tensors bounds0 _ fp16 B
               Hb Hts (seqZ_indices_valid B _ (or_intror eq_refl))).
    by rewrite (project_negative B bounds0 Hb), (project_all B bounds0 Hb),
               (project_negative_map B tensors Hts).
Qed.

(** An index outside [[-B, B)] stops the indexing. *)
Lemma norm_indices_error (B : nat) (idxs : list Z) (i : Z) :
  i ∈ idxs → ¬ (- Z.of_nat B ≤ i < Z.of_nat B) →
  for_each (norm_index B) idxs = Err IndexError.
Proof.
  assert (Hn : ∀ j, norm_index B j = Err IndexError ∨
                    ∃ r, norm_index B j = Ok r ∧ - Z.of_nat B ≤ j < Z.of_nat B).
  { intros j. unfold norm_index.
    destruct ((0 <=? j) && (j <? Z.of_nat B)) eqn:E1.
    { right. apply andb_true_iff in E1 as [?%Z.leb_le ?%Z.ltb_lt].
      eexists. split; [reflexivity | lia]. }
    destruct ((- Z.of_nat B <=? j) && (j <? 0)) eqn:E2; [|by left].
    right. apply andb_true_iff in E2 as [?%Z.leb_le ?%Z.ltb_lt].
    eexists. split; [reflexivity | lia]. }
  intros Hi Hbad. induction idxs as [|j idxs IH]; [by apply elem_of_nil in Hi|].
  change (for_each (norm_index B) (j :: idxs))
    with (y ← norm_index B j; ys ← for_each (norm_index B) idxs; Ok (y :: ys)).
  destruct (Hn j) as [->|(r & -> & Hj)]; [done|].
  cbn [mbind result_bind]. apply elem_of_cons in Hi as [->|Hi]; [done|].
  by rewrite (IH Hi).
Qed.

(** X12: a batch index outside [[-B, B)] makes the subset export raise
    [IndexError] when it indexes the bounds, before anything is validated
    or written. *)
Theorem subset_index_out_of_range (path : string) (ids0 : list string)
    (names : gmap string string) (tensors : list ndarray) (bounds0 : ndarray)
    (idxs : list Z) (fp16 : bool) (B : nat) (rest : list nat) (i : Z) :
  shape bounds0 = B :: rest → i ∈ idxs → ¬ (- Z.of_nat B ≤ i < Z.of_nat B) →
  export_attention_subset path ids0 names tensors bounds0 (Some idxs) fp16
  = Err IndexError.
Proof.
  intros Hs Hi Hbad. unfold export_attention_subset, take0. rewrite Hs.
  by rewrite (norm_indices_error B idxs i Hi Hbad).
Qed.

Lemma chunk_count_one (B : nat) (cs : Z) :
  (1 ≤ B)%nat → Z.of_nat B ≤ cs → chunk_count B cs = 1%nat.
Proof.
  intros HB Hcs. unfold chunk_count.
  replace ((Z.of_nat B + cs - 1) `div` cs) with 1; [done|].
  apply Z.div_unique with (r := Z.of_nat B - 1); lia.
Qed.

(** X13: with a chunk size of at least the number of batches, the chunked
    export of a consistent data set writes the single file [chunk_0], and
    its content is that of the full export. *)
Theorem chunked_single_chunk (dir : string) (ids0 : list string)
    (names : gmap string string) (tensors : list ndarray) (bounds0 : ndarray)
    (chunk_size : Z) (fp16 : bool) (B H N : nat) :
  valid_dataset ids0 tensors bounds0 B H N → (1 ≤ B)%nat → Z.of_nat B ≤ chunk_size →
  ∃ w, export_attention_chunked dir ids0 names tensors bounds0 chunk_size fp16
         = Ok [w] ∧
       export_attention_subset (chunk_name dir 0) ids0 names tensors bounds0 None fp16
         = Ok w.
Proof.
  intros Hvalid HB Hcs.
  destruct (valid_has_batches ids0 tensors bounds0 B H N Hvalid) as [Hb Hts].
  rewrite (export_attention_chunked_eq dir ids0 names tensors bounds0 chunk_size fp16
             B H N Hvalid) by lia.
  rewrite (chunk_count_one B chunk_size HB Hcs). cbn [seq map].
  eexists. split; [reflexivity|].
  assert (Hall : chunk_batches B chunk_size 0 = seqZ 0 (Z.of_nat B)).
  { unfold chunk_batches, chunk_start, chunk_end. f_equal; lia. }
  rewrite subset_None.
  rewrite <- (project_all B bounds0 Hb) at 1.
  rewrite <- (project_all_map B tensors Hts) at 1.
  rewrite <- (export_attention_subset_project (chunk_name dir 0) ids0 names tensors
                bounds0 _ fp16 B Hb Hts (seqZ_indices_valid B 0 (or_introl eq_refl))).
  rewrite <- Hall.
  rewrite (subset_export_ok (chunk_name dir 0) ids0 names tensors bounds0 B H N
             (chunk_batches B chunk_size 0) fp16 Hvalid); [reflexivity|].
  rewrite Hall. apply (seqZ_indices_valid B 0). by left.
Qed.

End ExportEdges.

Section ExportDegenerate.

Context {casts : Casts}.

(** X14: the chunked export validates nothing by itself.  With a chunk size
    of 0 it raises [ValueError] (the step of [range]); with a negative chunk
    size, or with a first layer of no batches, the loop does not run: the
    call returns without writing a file and without checking a shape,
    whatever the data set is; without any layer it raises [IndexError]. *)
Theorem chunked_export_degenerate (dir : string) (ids0 : list string)
    (names : gmap string string) (tensors : list ndarray) (bounds0 : ndarray)
    (fp16 : bool) :
  (tensors = [] → ∀ cs,
     export_attention_chunked dir ids0 names tensors bounds0 cs fp16
     = Err IndexError) ∧
  ∀ t0 rest B sh, tensors = t0 :: rest → shape t0 = B :: sh →
    export_attention_chunked dir ids0 names tensors bounds0 0 fp16
    = Err ValueError ∧
    (∀ cs, cs < 0 →
       export_attention_chunked dir ids0 names tensors bounds0 cs fp16 = Ok []) ∧
    (B = 0%nat → ∀ cs, cs ≠ 0 →
       export_attention_chunked dir ids0 names tensors bounds0 cs fp16 = Ok []).
Proof.
  split; [by intros ->|].
  intros t0 rest B sh -> Hs. unfold export_attention_chunked, list_get.
  cbn [lookup list_lookup mbind result_bind]. rewrite Hs.
  cbn [lookup list_lookup mbind result_bind]. split_and!.
  - reflexivity.
  - intros cs Hcs. unfold range, range_len.
    destruct (cs =? 0) eqn:E0; [apply Z.eqb_eq in E0; lia|].
    destruct (0 <? cs) eqn:E1; [apply Z.ltb_lt in E1; lia|].
    destruct (cs <? 0) eqn:E2; [|apply Z.ltb_ge in E2; lia].
    destruct (Z.of_nat B <? 0) eqn:E3; [apply Z.ltb_lt in E3; lia|].
    reflexivity.
  - intros -> cs Hcs. unfold range, range_len.
    destruct (cs =? 0) eqn:E0; [apply Z.eqb_eq in E0; lia|].
    change (Z.of_nat 0) with 0. change (0 <? 0) with false.
    by destruct (0 <? cs), (cs <? 0).
Qed.

Lemma sum_lengths (f : num → num) (ts : list ndarray) (n : nat) :
  Forall (λ t, length (data t) = n) ts →
  sum_list (map length (map (λ t, map f (data t)) ts)) = (length ts * n)%nat.
Proof.
  intros H. induction H as [|t ts Ht _ IH]; [done|].
  cbn [map sum_list length]. rewrite IH, length_map, Ht. unfold id. lia.
Qed.

(** X15: for a consistent data set with at least one batch, the estimate
    [estimate_file_size(N, B, H, L, fp16)] is 4 bytes of length prefix, the
    rough header figure [500 + 20 N], and exactly the bytes the export
    writes after the header: 4 per bound and 2 ([fp16]) or 4 per attention
    value.  With [B = 0] the call raises instead of returning. *)
Theorem estimate_matches_payload (path : string) (ids0 : list string)
    (names : gmap string string) (tensors : list ndarray) (bounds0 : ndarray)
    (fp16 : bool) (B H N : nat) (w : written) :
  valid_dataset ids0 tensors bounds0 B H N → (0 < B)%nat →
  export_attention_subset path ids0 names tensors bounds0 None fp16 = Ok w →
  estimate_file_size (Z.of_nat N) (Z.of_nat B) (Z.of_nat H)
    (Z.of_nat (length tensors)) fp16
  = Some (4 + (500 + Z.of_nat N * 20) + payload_bytes fp16 (w_file w)) ∧
  estimate_file_size (Z.of_nat N) 0 (Z.of_nat H) (Z.of_nat (length tensors)) fp16
  = None.
Proof.
  intros Hvalid HB Hw. split; [|reflexivity].
  pose proof Hvalid as (Hne & Hts & Hbs & Hwfb & Hids).
  rewrite subset_None in Hw.
  assert (Hw' : w = written_for fp16 path ids0 names tensors bounds0 B H N).
  { destruct fp16.
    - destruct tensors as [|t0 rest]; [done|].
      pose proof Hts as [[Hs0 _] _]%Forall_cons.
      rewrite (export_attention_data_fp16_ok path ids0 names t0 rest bounds0 B H N N
                 Hs0 Hbs Hids) in Hw.
      by injection Hw as <-.
    - rewrite (export_attention_data_ok path ids0 names tensors bounds0 B H N) in Hw;
        [|done|eapply Forall_impl; [exact Hts|by intros t [? _]]|done|done].
      by injection Hw as <-. }
  subst w. unfold estimate_file_size, payload_bytes.
  cbn [written_for w_file a_bounds a_layers].
  destruct (Z.of_nat B =? 0) eqn:E; [apply Z.eqb_eq in E; lia|]. f_equal.
  rewrite length_map. unfold wf in Hwfb. rewrite Hwfb, Hbs.
  rewrite (sum_lengths _ tensors (B * (H * (N * (N * 1))))%nat).
  2:{ eapply Forall_impl; [exact Hts|]. intros t [Hs Hwf].
      unfold wf in Hwf. by rewrite Hwf, Hs. }
  cbn [size_of foldr]. destruct fp16; nia.
Qed.

End ExportDegenerate.

Lemma fp32_export_checks_witness :
  @export_attention_data Sample.exact_casts "out.attnbin" BadLayer.ids BadLayer.names
     BadLayer.tensors BadLayer.bounds
  = Err (AssertionError (Some (MsgLayerShape 1 [1; 1; 3; 3]%nat 1 1 2))).
Proof.
  destruct (@fp32_export_checks Sample.exact_casts "out.attnbin" BadLayer.ids
              BadLayer.names BadLayer.tensors BadLayer.bounds) as [_ H].
  destruct (H (zeros [1; 1; 2; 2]%nat) [zeros [1; 1; 3; 3]%nat] 1%nat 1%nat 2%nat 2%nat
              eq_refl eq_refl) as (_ & _ & H3).
  apply (H3 eq_refl eq_refl [zeros [1; 1; 2; 2]%nat] (zeros [1; 1; 3; 3]%nat) [] eq_refl).
  - by apply Forall_singleton.
  - discriminate.
Defined.

Lemma five_batches_has_batches :
  has_batches 5 FiveBatches.bounds ∧ Forall (has_batches 5) FiveBatches.tensors.
Proof.
  exact (valid_has_batches FiveBatches.ids FiveBatches.tensors FiveBatches.bounds
           5 1 2 five_batches_valid).
Qed.

Lemma subset_of_all_batches_witness :
  @export_attention_subset Sample.exact_casts "all.attnbin" FiveBatches.ids
     FiveBatches.names FiveBatches.tensors FiveBatches.bounds
     (Some [0; 1; 2; 3; 4]) true
  = @export_attention_subset Sample.exact_casts "all.attnbin" FiveBatches.ids
     FiveBatches.names FiveBatches.tensors FiveBatches.bounds None true.
Proof.
  exact (proj1 (@subset_of_all_batches Sample.exact_casts "all.attnbin"
                  FiveBatches.ids FiveBatches.names FiveBatches.tensors
                  FiveBatches.bounds true 5
                  (proj1 five_batches_has_batches) (proj2 five_batches_has_batches))).
Defined.

Lemma subset_index_out_of_range_witness :
  @export_attention_subset Sample.exact_casts "bad.attnbin" FiveBatches.ids
     FiveBatches.names FiveBatches.tensors FiveBatches.bounds (Some [0; 5]) false
  = Err IndexError.
Proof.
  apply (@subset_index_out_of_range Sample.exact_casts "bad.attnbin" FiveBatches.ids
           FiveBatches.names FiveBatches.tensors FiveBatches.bounds [0; 5] false
           5 [2%nat] 5); [reflexivity | set_solver | cbn; lia].
Defined.

Lemma chunked_single_chunk_witness :
  ∃ w, @export_attention_chunked Sample.exact_casts "chunks" FiveBatches.ids
         FiveBatches.names FiveBatches.tensors FiveBatches.bounds 7 true = Ok [w] ∧
       @export_attention_subset Sample.exact_casts "chunks/chunk_0.attnbin"
         FiveBatches.ids FiveBatches.names FiveBatches.tensors FiveBatches.bounds
         None true = Ok w.
Proof.
  apply (@chunked_single_chunk Sample.exact_casts "chunks" FiveBatches.ids
           FiveBatches.names FiveBatches.tensors FiveBatches.bounds 7 true 5 1 2
           five_batches_valid); cbn; lia.
Defined.

Lemma chunked_export_degenerate_witness :
  @export_attention_chunked Sample.exact_casts "chunks" BadLayer.ids BadLayer.names
     BadLayer.tensors BadLayer.bounds (-3) true = Ok [].
Proof.
  destruct (@chunked_export_degenerate Sample.exact_casts "chunks" BadLayer.ids
              BadLayer.names BadLayer.tensors BadLayer.bounds true) as [_ H].
  destruct (H (zeros [1; 1; 2; 2]%nat) [zeros [1; 1; 3; 3]%nat] 1%nat [1; 2; 2]%nat
              eq_refl eq_refl) as (_ & H2 & _).
  apply H2. lia.
Defined.

Lemma estimate_matches_payload_witness :
  estimate_file_size 2 5 1 1 true = Some (4 + (500 + 2 * 20) + (4 * 10 + 2 * 20)).
Proof.
  exact (proj1 (@estimate_matches_payload Sample.exact_casts "full.attnbin"
                  FiveBatches.ids FiveBatches.names FiveBatches.tensors
                  FiveBatches.bounds true 5 1 2 _ five_batches_valid
                  ltac:(lia) eq_refl)).
Defined.

(** ** Layout: everything drawn is inside the picture *)

Section LayoutBounds.

Lemma py_colX_last (L : nat) :
  py_last (py_colX L) = py_col0_x + Z.of_nat L * py_colSpacing.
Proof.
  unfold py_last, py_colX. replace (L + 1)%nat with (S L) by lia.
  rewrite seq_S, map_app. cbn [map]. by rewrite last_last.
Qed.

Lemma show_attention_graph_extent ids0 names tensors bounds node_h gap0 v :
  show_attention_graph ids0 names tensors bounds node_h gap0 = Ok v →
  nodeW v = py_nodeW ∧ bandX v = py_nameBlockX ∧
  bandW v = py_last (py_colX (length tensors)) + py_nodeW - py_nameBlockX ∧
  total_width v = py_last (py_colX (length tensors)) + py_nodeW + 30 ∧
  svg_height v = py_topPad + Z.of_nat (length ids0) * (node_h + gap0) + py_botPad.
Proof.
  unfold show_attention_graph. intros H.
  destruct (list_get tensors 0) as [t0|]; simpl in H; [|discriminate].
  destruct (unpack4 (shape t0)) as [[[B H0] N]|]; simpl in H; [|discriminate].
  destruct (N =? length ids0)%nat eqn:EN; simpl in H; [|discriminate].
  destruct (shape_eqb (shape bounds) [B; N]); simpl in H; [|discriminate].
  inversion H; subst; simpl. apply Nat.eqb_eq in EN. rewrite EN. tauto.
Qed.

(** X16: in the view [show_attention_graph] builds with a non-negative node
    height and row gap, every node rectangle lies inside the picture and
    none overlaps another: the columns start right of the name block, each
    ends before the next one starts, and the last one ends where the row
    band ends, 30 units before the right border; the rows start at the top
    padding, each ends at or before the start of the next, and the last one
    ends at or above the bottom padding. *)
Theorem layout_contained ids0 names tensors bounds node_h gap0 v :
  show_attention_graph ids0 names tensors bounds node_h gap0 = Ok v →
  0 ≤ node_h → 0 ≤ gap0 →
  (∀ c x, colX v !! c = Some x →
     nameBlockX v + nameBlockW v < x ∧
     x + nodeW v ≤ bandX v + bandW v ∧
     bandX v + bandW v = total_width v - 30 ∧
     (∀ x', colX v !! S c = Some x' → x + nodeW v < x')) ∧
  (∀ i y, yPos v !! i = Some y →
     topPad v ≤ y ∧
     y + nodeH v ≤ svg_height v - py_botPad ∧
     (∀ y', yPos v !! S i = Some y' → y + nodeH v ≤ y')).
Proof.
  intros Hshow Hh Hg.
  destruct (show_attention_graph_layout _ _ _ _ _ _ _ Hshow)
    as (HX & HL & HT & HH & HG & HW & HBX & HN).
  destruct (show_attention_graph_extent _ _ _ _ _ _ _ Hshow)
    as (HnW & HbX & HbW & Htot & Hsvg).
  split.
  - intros c x Hc. rewrite HX in Hc |- *.
    assert (Hcl : (c ≤ length tensors)%nat).
    { apply lookup_lt_Some in Hc. unfold py_colX in Hc.
      rewrite length_map, length_seq in Hc. lia. }
    rewrite py_colX_lookup in Hc by exact Hcl. injection Hc as <-.
    rewrite HW, HBX, HnW, HbX, HbW, Htot, py_colX_last.
    unfold py_col0_x, py_nameBlockX, py_nameBlockW, py_guideGap, py_nodeW,
      py_colSpacing.
    split_and!; [lia | nia | lia |].
    intros x' Hx'.
    assert (Hcl' : (S c ≤ length tensors)%nat).
    { apply lookup_lt_Some in Hx'. unfold py_colX in Hx'.
      rewrite length_map, length_seq in Hx'. lia. }
    rewrite py_colX_lookup in Hx' by exact Hcl'. injection Hx' as <-.
    unfold py_col0_x, py_nameBlockX, py_nameBlockW, py_guideGap, py_colSpacing. lia.
  - intros i y Hi. unfold yPos in Hi |- *.
    rewrite HT, HH, HG, HN in *. rewrite Hsvg.
    change (map ?f ?l) with (f <$> l) in *.
    rewrite list_lookup_fmap in Hi.
    destruct (seq 0 (length ids0) !! i) as [k|] eqn:Ek; [|discriminate].
    apply lookup_seq in Ek as [-> Hk]. cbn in Hi. injection Hi as <-.
    unfold py_topPad. split_and!; [nia | nia |].
    intros y' Hy'. rewrite list_lookup_fmap in Hy'.
    destruct (seq 0 (length ids0) !! S i) as [k|] eqn:Ek; [|discriminate].
    apply lookup_seq in Ek as [-> Hk']. cbn in Hy'. injection Hy' as <-.
    unfold py_topPad. nia.
Qed.

Lemma layout_contained_witness :
  nameBlockX Sample.the_view + nameBlockW Sample.the_view < 230 ∧
  230 + nodeW Sample.the_view < 405 ∧
  405 + nodeW Sample.the_view ≤ bandX Sample.the_view + bandW Sample.the_view.
Proof.
  destruct (layout_contained Sample.ids Sample.names [Sample.layer0] Sample.bounds
              8 1 Sample.the_view eq_refl ltac:(lia) ltac:(lia)) as [H _].
  destruct (H 0%nat 230 eq_refl) as (H1 & _ & _ & H4).
  destruct (H 1%nat 405 eq_refl) as (_ & H2 & _).
  split; [exact H1|]. split; [exact (H4 405 eq_refl) | exact H2].
Defined.

End LayoutBounds.

(** ** The threshold slider at its ends *)

Section ThresholdEnds.

Lemma filter_all {A} (P : A → Prop) `{∀ x, Decision (P x)} (xs : list A) :
  (∀ x, x ∈ xs → P x) → filter P xs = xs.
Proof.
  induction xs as [|x xs IH]; intros Hall; [done|].
  rewrite filter_cons_True by (apply Hall; by left).
  f_equal. apply IH. intros y Hy. apply Hall. by right.
Qed.

Lemma filter_none {A} (P : A → Prop) `{∀ x, Decision (P x)} (xs : list A) :
  (∀ x, x ∈ xs → ¬ P x) → filter P xs = [].
Proof.
  induction xs as [|x xs IH]; intros Hall; [done|].
  rewrite filter_cons_False by (apply Hall; by left).
  apply IH. intros y Hy. apply Hall. by right.
Qed.

Lemma all_cells_length (N : nat) (m : list (list num)) :
  length (all_cells N m) = (N * N)%nat.
Proof.
  unfold all_cells, cell_indices. rewrite length_map.
  rewrite (flat_map_constant_length (c := N)).
  - by rewrite length_seq.
  - intros r _. by rewrite length_map, length_seq.
Qed.

Lemma slider_fraction (sv : Z) :
  0 ≤ sv ≤ 1000 → (0 <= inject_Z sv / inject_Z 1000 <= 1)%Q.
Proof.
  intros [H0 H1]. split.
  - apply Qle_shift_div_l; [reflexivity|]. rewrite Qmult_0_l.
    change 0%Q with (inject_Z 0). by rewrite <- Zle_Qle.
  - apply Qle_shift_div_r; [reflexivity|]. rewrite Qmult_1_l.
    by rewrite <- Zle_Qle.
Qed.

Variable v : view.
Variable l : nat.
Variable m : list (list num).
Hypothesis layer_exists : (l < vL v)%nat.
Hypothesis matrix_square : square_finite (vN v) m.
Hypothesis rows : (0 < vN v)%nat.


End ThresholdEnds.


(** ** What [show_attention_graph] checks *)

(** X18: [show_attention_graph] returns a view exactly when there is a
    first layer of rank 4 whose third axis has as many entries as there are
    ids and the bounds have shape [(B, N)]; the last axis of the first layer
    and the shapes of the other layers are not inspected.  Without a layer
    it raises [IndexError], with a first layer of another rank [ValueError],
    and on a wrong number of ids or a wrong bounds shape an
    [AssertionError] without message. *)
Theorem show_attention_graph_checks (ids0 : list string) (names : gmap string string)
    (tensors : list ndarray) (bounds0 : ndarray) (node_h gap0 : Z) :
  ((∃ v, show_attention_graph ids0 names tensors bounds0 node_h gap0 = Ok v) ↔
   ∃ t0 B H N K, tensors !! 0%nat = Some t0 ∧ shape t0 = [B; H; N; K] ∧
                 length ids0 = N ∧ shape bounds0 = [B; N]) ∧
  (tensors = [] →
   show_attention_graph ids0 names tensors bounds0 node_h gap0 = Err IndexError) ∧
  (∀ t0 rest, tensors = t0 :: rest → length (shape t0) ≠ 4%nat →
   show_attention_graph ids0 names tensors bounds0 node_h gap0 = Err ValueError) ∧
  (∀ t0 rest B H N K, tensors = t0 :: rest → shape t0 = [B; H; N; K] →
   length ids0 ≠ N ∨ shape bounds0 ≠ [B; N] →
   show_attention_graph ids0 names tensors bounds0 node_h gap0
   = Err (AssertionError None)).
Proof.
  split_and!.
  - split.
    + intros [v Hv].
      destruct (view_fields ids0 names tensors bounds0 node_h gap0 v Hv)
        as (t0 & B & H & N & K & Ht0 & Hs0 & Hbs & Hn & _).
      by exists t0, B, H, N, K.
    + intros (t0 & B & H & N & K & Ht0 & Hs0 & Hn & Hbs).
      unfold show_attention_graph, list_get. rewrite Ht0.
      cbn [mbind result_bind]. rewrite Hs0. cbn [unpack4 mbind result_bind].
      rewrite Hn, Nat.eqb_refl. cbn [assert mbind result_bind].
      replace (shape_eqb (shape bounds0) [B; N]) with true
        by (symmetry; by apply bool_decide_eq_true_2).
      cbn [assert mbind result_bind]. eauto.
  - by intros ->.
  - intros t0 rest -> Hrank. unfold show_attention_graph, list_get.
    cbn [lookup list_lookup mbind result_bind].
    destruct (shape t0) as [|a [|b [|c [|d [|e r]]]]]; try reflexivity.
    by cbn in Hrank.
  - intros t0 rest B H N K -> Hs0 Hbad. unfold show_attention_graph, list_get.
    cbn [lookup list_lookup mbind result_bind]. rewrite Hs0.
    cbn [unpack4 mbind result_bind].
    destruct (N =? length ids0)%nat eqn:E; [|reflexivity].
    apply Nat.eqb_eq in E. cbn [assert mbind result_bind].
    destruct Hbad as [Hbad|Hbad]; [by rewrite E in Hbad|].
    replace (shape_eqb (shape bounds0) [B; N]) with false
      by (symmetry; by apply bool_decide_eq_false_2).
    reflexivity.
Qed.

Lemma show_attention_graph_checks_witness :
  ∃ v, show_attention_graph BadLayer.ids BadLayer.names BadLayer.tensors
         BadLayer.bounds 8 1 = Ok v.
Proof.
  apply (proj1 (show_attention_graph_checks BadLayer.ids BadLayer.names
                  BadLayer.tensors BadLayer.bounds 8 1)).
  exists (zeros [1; 1; 2; 2]%nat), 1%nat, 1%nat, 2%nat, 2%nat. by repeat split.
Defined.

(** ** Where a displayed value comes from *)

Section CellOffsets.

Lemma chunks_lookup {A} (n k : nat) (xs : list A) (b : nat) :
  (b < n)%nat → chunks n k xs !! b = Some (take k (drop (b * k) xs)).
Proof.
  revert xs b. induction n as [|n IH]; intros xs b Hb; [lia|].
  destruct b as [|b]; cbn [chunks lookup list_lookup].
  - by rewrite drop_0.
  - change (chunks n k (drop k xs) !! b = Some (take k (drop (S b * k) xs))).
    rewrite IH by lia. rewrite drop_drop. reflexivity.
Qed.

(** Element [i] of piece [b] is element [b * k + i] of the list. *)
Lemma chunks_lookup_elem {A} (n k : nat) (xs c : list A) (b i : nat) (x : A) :
  chunks n k xs !! b = Some c → c !! i = Some x →
  (i < k)%nat ∧ xs !! (b * k + i)%nat = Some x.
Proof.
  intros Hc Hx.
  assert (Hb : (b < n)%nat).
  { apply lookup_lt_Some in Hc. by rewrite chunks_length in Hc. }
  rewrite chunks_lookup in Hc by exact Hb. injection Hc as <-.
  rewrite lookup_take in Hx. case_decide as Hi; [|discriminate].
  split; [exact Hi|]. by rewrite lookup_drop in Hx.
Qed.

Variables (ids0 : list string) (names : gmap string string).
Variables (tensors : list ndarray) (bounds0 : ndarray) (node_h gap0 : Z).
Variable v : view.
Hypothesis built : show_attention_graph ids0 names tensors bounds0 node_h gap0 = Ok v.


End CellOffsets.

